(** * Web-Beacon-Scanner: advertisement decoding and the device registry

    A shallow embedding of [script.js] in its three revisions:

    - [V1]: the first document of [src/script.js] (iBeacon and
      Eddystone-URL only);
    - [V2]: [src/unnamed/part_000] (iBeacon and all three Eddystone frames,
      with an extra telemetry log path);
    - [V3]: the second document of [src/script.js] (adds RuuviTag and the
      GATT service fallback).

    Functions whose text is the same in every revision ([parseIBeacon],
    [bytesToUuid], [updateBeaconCardRSSI], ...) are defined once, before the
    revision modules.

    Data are modelled as the script has them: an [ArrayBuffer] is a list of
    bytes, a [DataView] is a window (offset, length) on a buffer, a JS
    [Number] that holds a fraction is an IEEE 754 binary64 value
    ([spec_float] with precision 53), integers read from a view are [Z], a
    JS string is a [string] whose characters are the code units (all code
    units the script produces are below 256), the two [Map]s of an
    advertisement and the [discoveredDevices] map are [gmap]s. A [RangeError]
    raised by a view access is an explicit outcome. *)

From Stdlib Require Import ZArith Lia List Bool Ascii String.
From Stdlib.Strings Require Import Byte.
From Stdlib Require Import SpecFloat.
From stdpp Require Import gmap strings list.

Local Open Scope string_scope.
Local Open Scope list_scope.
Local Open Scope Z_scope.

(** ** Outcomes *)

(** The exceptions the script can raise: a [RangeError] from a [DataView]
    read or a typed-array constructor outside the buffer, a [TypeError] from
    a property read on [undefined]. *)
Inductive Error : Type :=
| RangeError
| TypeError.

Inductive Outcome (A : Type) : Type :=
| Returns (a : A)
| Throws (e : Error).
Arguments Returns {A} a.
Arguments Throws {A} e.

(** A computation that may call [log] before it completes: the messages in
    the order they were logged, and the outcome. *)
Definition Logged (A : Type) : Type := (list string * Outcome A)%type.

Definition ret {A} (a : A) : Logged A := ([], Returns a).
Definition throw {A} (e : Error) : Logged A := ([], Throws e).
Definition say (msg : string) : Logged unit := ([msg], Returns tt).

Definition bind {A B} (m : Logged A) (k : A -> Logged B) : Logged B :=
  match m with
  | (msgs, Returns a) => let '(msgs', r) := k a in (msgs ++ msgs', r)
  | (msgs, Throws e) => (msgs, Throws e)
  end.

Notation "'let*' x ':=' m 'in' k" := (bind m (fun x => k))
  (at level 10, x name, m at level 100, k at level 200).

(** ** Bytes, buffers and views *)

Definition u8 (b : byte) : Z := Z.of_N (Byte.to_N b).

(** [data.buffer], [data.byteOffset], [data.byteLength]. *)
Record DataView : Type := mkDataView {
  buffer : list byte;
  byteOffset : nat;
  byteLength : nat
}.

(** Every view the platform hands over lies inside its buffer. *)
Definition view_ok (dv : DataView) : Prop :=
  (byteOffset dv + byteLength dv <= List.length (buffer dv))%nat.

(** The bytes a view shows. *)
Definition view_bytes (dv : DataView) : list byte :=
  take (byteLength dv) (drop (byteOffset dv) (buffer dv)).

(** A view on the whole of a fresh buffer holding [bs]. *)
Definition view_of (bs : list byte) : DataView :=
  mkDataView bs 0 (List.length bs).

(** [new DataView(buffer, byteOffset)]: the view runs to the end of the
    buffer; an offset past the end raises. *)
Definition new_DataView (buf : list byte) (off : nat) : Logged DataView :=
  if (off <=? List.length buf)%nat
  then ret (mkDataView buf off (List.length buf - off))
  else throw RangeError.

(** [new Uint8Array(buffer, byteOffset, length)]: the bytes in the window;
    a window that leaves the buffer raises. *)
Definition new_Uint8Array (buf : list byte) (off len : nat) : Logged (list byte) :=
  if (off + len <=? List.length buf)%nat
  then ret (take len (drop off buf))
  else throw RangeError.

(** [dv.getUint8(i)] and the big-endian multi-byte reads
    ([littleEndian = false]): a read that does not fit in the view raises. *)
Definition read (dv : DataView) (i width : nat) : Logged (list byte) :=
  if (i + width <=? byteLength dv)%nat
  then ret (take width (drop (byteOffset dv + i) (buffer dv)))
  else throw RangeError.

(** Big-endian value of a byte string. *)
Definition be_value (bs : list byte) : Z :=
  fold_left (fun acc b => 256 * acc + u8 b) bs 0.

(** Two's-complement reading of a [w]-bit unsigned value. *)
Definition to_signed (w : Z) (v : Z) : Z :=
  if v <? 2 ^ (w - 1) then v else v - 2 ^ w.

Definition getUint8 (dv : DataView) (i : nat) : Logged Z :=
  let* bs := read dv i 1 in ret (be_value bs).
Definition getInt8 (dv : DataView) (i : nat) : Logged Z :=
  let* bs := read dv i 1 in ret (to_signed 8 (be_value bs)).
Definition getUint16 (dv : DataView) (i : nat) : Logged Z :=
  let* bs := read dv i 2 in ret (be_value bs).
Definition getInt16 (dv : DataView) (i : nat) : Logged Z :=
  let* bs := read dv i 2 in ret (to_signed 16 (be_value bs)).
Definition getUint32 (dv : DataView) (i : nat) : Logged Z :=
  let* bs := read dv i 4 in ret (be_value bs).

(** ** Strings *)

(** [Array.prototype.join('')]. *)
Definition join (parts : list string) : string :=
  fold_right String.append "" parts.

(** [s.slice(a, b)] for [0 <= a <= b]: the code units from [a] up to, not
    including, [b], cut at the end of [s]. *)
Definition slice (a b : nat) (s : string) : string :=
  substring a (b - a) s.

(** [s.substring(0, n)]. *)
Definition substring0 (n : nat) (s : string) : string :=
  substring 0 n s.

(** [s.padStart(n, c)] with a one-character filler. *)
Definition padStart (n : nat) (c : ascii) (s : string) : string :=
  string_of_list_ascii (repeat c (n - String.length s)) +:+ s.

(** [s.toUpperCase()] on the letters [a]..[z]; the script applies it to
    strings of hexadecimal digits and hyphens only, so the other code units
    stay as they are. *)
Definition upper_char (c : ascii) : ascii :=
  let n := nat_of_ascii c in
  if ((97 <=? n) && (n <=? 122))%nat then ascii_of_nat (n - 32) else c.

Fixpoint toUpperCase (s : string) : string :=
  match s with
  | EmptyString => EmptyString
  | String c s' => String (upper_char c) (toUpperCase s')
  end.

(** [String.fromCharCode(code)] for a code below 256: the string of the one
    code unit [code]. *)
Definition fromCharCode (code : Z) : string :=
  String (ascii_of_N (Z.to_N code)) EmptyString.

(** The digit characters of [Number.prototype.toString(radix)]. *)
Definition digit_char (d : Z) : ascii :=
  match String.get (Z.to_nat d) "0123456789abcdefghijklmnopqrstuvwxyz" with
  | Some c => c
  | None => "0"%char
  end.

Fixpoint digits_of (fuel : nat) (radix n : Z) (acc : string) : string :=
  match fuel with
  | O => acc
  | S fuel' =>
      let acc' := String (digit_char (n mod radix)) acc in
      if n / radix =? 0 then acc' else digits_of fuel' radix (n / radix) acc'
  end.

(** [n.toString(radix)] for an integer [n >= 0]: no leading zeros, ["0"]
    for zero. A number has at most as many digits as it has bits. *)
Definition Number_toString (radix n : Z) : string :=
  digits_of (S (Z.to_nat (Z.log2 n))) radix n "".

(** ** Numbers with a fraction: binary64 *)

Definition of_int (z : Z) : spec_float := binary_normalize 53 1024 z 0 false.
Definition fmul : spec_float -> spec_float -> spec_float := SFmul 53 1024.
Definition fdiv : spec_float -> spec_float -> spec_float := SFdiv 53 1024.
Definition fadd : spec_float -> spec_float -> spec_float := SFadd 53 1024.

(** The literals [0.005] and [0.0025]: the binary64 values nearest to the
    decimal numerals (see [lit_0_005_nearest]; the second is the first
    with the exponent one lower). *)
Definition lit_0_005 : spec_float := S754_finite false 5764607523034235 (-60).
Definition lit_0_0025 : spec_float := S754_finite false 5764607523034235 (-61).

(** The digits of [Number.prototype.toFixed]: [n] is the chosen integer,
    [f] the number of fraction digits. *)
Definition fixed_digits (n : Z) (f : nat) : string :=
  let m := if n =? 0 then "0" else Number_toString 10 n in
  match f with
  | O => m
  | _ =>
      let m := if (String.length m <=? f)%nat
               then padStart (S f) "0"%char m else m in
      let k := String.length m in
      substring 0 (k - f) m +:+ "." +:+ substring (k - f) f m
  end.

(** [x.toFixed(f)] for a finite [x] below [10^21] in magnitude. The integer
    [n] with [n / 10^f] nearest to the exact value of [x] is taken, the
    larger one of two; a negative [x] is formatted as ["-"] and its
    magnitude. For the other values the standard prescribes
    [Number::toString], which this development does not need: [None]. *)
Definition toFixed (x : spec_float) (f : nat) : option string :=
  match x with
  | S754_zero _ => Some (fixed_digits 0 f)
  | S754_finite s m e =>
      let num := Z.pos m * 2 ^ Z.max e 0 in
      let den := 2 ^ Z.max (- e) 0 in
      if 10 ^ 21 * den <=? num then None
      else
        let n := (2 * num * 10 ^ Z.of_nat f + den) / (2 * den) in
        Some ((if s then "-" else "") +:+ fixed_digits n f)
  | _ => None
  end.

(** The decoders format numbers that are finite and small
    ([toFixed] is [Some] on each of them, as the decoding theorems show);
    [fixed] reads the digits. *)
Definition fixed (x : spec_float) (f : nat) : string :=
  default "" (toFixed x f).

(** ** Beacon records *)

(** The objects the decoders return, by their [type] tag: [{type: 'iBeacon',
    uuid, major, minor}], [{type: 'Eddystone-UID', namespace, instance}],
    [{type: 'Eddystone-URL', url}], [{type: 'Eddystone-TLM', battery,
    temperature, packets, uptime}], [{type: 'RuuviTag Sensor', temperature,
    humidity, pressure, battery}], [{type: 'GATT-Dienst', name}]. *)
Inductive Beacon : Type :=
| IBeacon (uuid : string) (major minor : Z)
| EddystoneUID (namespace instance : string)
| EddystoneURL (url : string)
| EddystoneTLM (battery : Z) (temperature : string) (packets : Z) (uptime : string)
| RuuviTag (temperature humidity pressure : string) (battery : Z)
| GattService (name : string).

Definition type (b : Beacon) : string :=
  match b with
  | IBeacon _ _ _ => "iBeacon"
  | EddystoneUID _ _ => "Eddystone-UID"
  | EddystoneURL _ => "Eddystone-URL"
  | EddystoneTLM _ _ _ _ => "Eddystone-TLM"
  | RuuviTag _ _ _ _ => "RuuviTag Sensor"
  | GattService _ => "GATT-Dienst"
  end.

(** ** Functions shared by the three revisions *)

(** [byte => byte.toString(16).padStart(2, '0')] *)
Definition hex2 (b : byte) : string :=
  padStart 2 "0"%char (Number_toString 16 (u8 b)).

(** [Array.from(bytes, byte => byte.toString(16).padStart(2, '0')).join('')] *)
Definition hex_of_bytes (bytes : list byte) : string :=
  join (map hex2 bytes).

Definition bytesToUuid (bytes : list byte) : string :=
  let hex := hex_of_bytes bytes in
  toUpperCase
    (slice 0 8 hex +:+ "-" +:+ slice 8 12 hex +:+ "-" +:+ slice 12 16 hex
     +:+ "-" +:+ slice 16 20 hex +:+ "-" +:+ slice 20 32 hex).

(** [bytesToHex] is only ever called on a [Uint8Array]; its [DataView] and
    ["N/A"] branches are not reached. *)
Definition bytesToHex (data : list byte) : string :=
  toUpperCase (hex_of_bytes data).

Definition parseIBeacon (data : DataView) : Logged Beacon :=
  let* dv := new_DataView (buffer data) (byteOffset data) in
  let* uuidBytes := new_Uint8Array (buffer dv) (byteOffset dv + 2) 16 in
  let uuid := bytesToUuid uuidBytes in
  let* major := getUint16 dv 18 in
  let* minor := getUint16 dv 20 in
  ret (IBeacon uuid major minor).

(** The test guarding [parseIBeacon] in [handleAdvertisement]:
    [data.byteLength >= 23 && data.getUint8(0) === 0x02 &&
     data.getUint8(1) === 0x15], evaluated left to right. *)
Definition iBeacon_prefix (data : DataView) : Logged bool :=
  if (23 <=? byteLength data)%nat then
    let* b0 := getUint8 data 0 in
    if b0 =? 0x02 then
      let* b1 := getUint8 data 1 in ret (b1 =? 0x15)
    else ret false
  else ret false.

Definition schemes : list string :=
  ["http://www."; "https://www."; "http://"; "https://"].

(** The loop [for (let i = 3; i < dataView.byteLength; i++)] of
    [decodeEddystoneUrl], with [n] iterations left. *)
Fixpoint decode_loop (expansions : list string) (dataView : DataView)
    (i n : nat) (url : string) : Logged string :=
  match n with
  | O => ret url
  | S n' =>
      let* code := getUint8 dataView i in
      let url :=
        if code <? Z.of_nat (List.length expansions)
        then url +:+ default "" (expansions !! Z.to_nat code)
        else url +:+ fromCharCode code in
      decode_loop expansions dataView (S i) n' url
  end.

(** [decodeEddystoneUrl], for the revision's table of [expansions]. *)
Definition decodeEddystoneUrl_with (expansions : list string)
    (dataView : DataView) : Logged string :=
  let url := "" in
  let* schemeCode := getUint8 dataView 2 in
  let url :=
    if schemeCode <? Z.of_nat (List.length schemes)
    then url +:+ default "" (schemes !! Z.to_nat schemeCode)
    else url in
  decode_loop expansions dataView 3 (byteLength dataView - 3) url.

(** ** Advertisements, cards and the page *)

Record BluetoothDevice : Type := { dev_id : string }.

(** The [advertisement] event: [event.device], [event.rssi] and the two
    maps. The script looks both maps up by number. *)
Record AdvertisementEvent : Type := {
  device : BluetoothDevice;
  rssi : Z;
  manufacturerData : gmap Z DataView;
  serviceData : gmap Z DataView
}.

(** A card element: what [createBeaconCard] renders, from its three
    arguments. The text of [.rssi-value] is the one part that
    [updateBeaconCardRSSI] rewrites. (The 300 ms highlight of the wrapper
    is presentation and is left out.) *)
Record Card : Type := {
  data_device_id : string;
  card_beacon : Beacon;
  rssi_value : Z
}.

(** A value of [discoveredDevices]: [{device, cardElement, type}]. The card
    element is a reference: the same element sits in [resultsDiv]. *)
Record Entry : Type := {
  entry_device : BluetoothDevice;
  cardElement : nat;
  entry_type : string
}.

(** The mutable state of the page: the map, the card elements created so far
    (a reference is an index into [elements]), the children of [resultsDiv]
    and the lines of the debug window, newest first. *)
Record Page : Type := {
  discoveredDevices : gmap string Entry;
  elements : list Card;
  resultsDiv : list nat;
  debugLog : list string
}.

Definition initial_page : Page :=
  {| discoveredDevices := ∅; elements := []; resultsDiv := []; debugLog := [] |}.

(** [log(message)]: the message goes on top of the debug window, which keeps
    its first 100 lines. [debugLog] holds the messages, one line each as
    long as no message has a line break. (The time stamp and the console
    are left out; [log_value] below follows the text itself.) *)
Definition log (message : string) (pg : Page) : Page :=
  {| discoveredDevices := discoveredDevices pg;
     elements := elements pg;
     resultsDiv := resultsDiv pg;
     debugLog := take 100 (message :: debugLog pg) |}.

(** The messages a decoder logged reach the debug window in order. *)
Definition log_all (msgs : list string) (pg : Page) : Page :=
  fold_left (fun pg msg => log msg pg) msgs pg.

(** [createBeaconCard(beaconData, rssi, deviceId)]: a new element. *)
Definition createBeaconCard (beaconData : Beacon) (rssi : Z) (deviceId : string)
    (pg : Page) : nat * Page :=
  (List.length (elements pg),
   {| discoveredDevices := discoveredDevices pg;
      elements := elements pg ++
        [{| data_device_id := deviceId; card_beacon := beaconData;
            rssi_value := rssi |}];
      resultsDiv := resultsDiv pg;
      debugLog := debugLog pg |}).

(** [resultsDiv.prepend(cardElement)] *)
Definition prepend (cardElement : nat) (pg : Page) : Page :=
  {| discoveredDevices := discoveredDevices pg;
     elements := elements pg;
     resultsDiv := cardElement :: resultsDiv pg;
     debugLog := debugLog pg |}.

(** [discoveredDevices.set(deviceId, entry)] *)
Definition set_device (deviceId : string) (entry : Entry) (pg : Page) : Page :=
  {| discoveredDevices := <[deviceId := entry]> (discoveredDevices pg);
     elements := elements pg;
     resultsDiv := resultsDiv pg;
     debugLog := debugLog pg |}.

Definition set_rssi (rssi : Z) (c : Card) : Card :=
  {| data_device_id := data_device_id c; card_beacon := card_beacon c;
     rssi_value := rssi |}.

(** [updateBeaconCardRSSI(cardElement, rssi)]: every card has its
    [.rssi-value] span, whose text becomes [rssi]. *)
Definition updateBeaconCardRSSI (cardElement : nat) (rssi : Z) (pg : Page) : Page :=
  {| discoveredDevices := discoveredDevices pg;
     elements := alter (set_rssi rssi) cardElement (elements pg);
     resultsDiv := resultsDiv pg;
     debugLog := debugLog pg |}.

(** The part of [handleAdvertisement] after the classification, the same
    text in the three revisions ("UI aktualisieren"). *)
Definition update_UI (event : AdvertisementEvent) (isNew : bool)
    (beaconData : Beacon) (pg : Page) : Outcome unit * Page :=
  let deviceId := dev_id (device event) in
  if isNew then
    let pg := log ("Neuer Beacon [" +:+ type beaconData +:+ "] gefunden: "
                   +:+ substring0 10 deviceId +:+ "...") pg in
    let '(cardElement, pg) := createBeaconCard beaconData (rssi event) deviceId pg in
    let pg := prepend cardElement pg in
    (Returns tt,
     set_device deviceId
       {| entry_device := device event; cardElement := cardElement;
          entry_type := type beaconData |} pg)
  else
    match discoveredDevices pg !! deviceId with
    | Some existing =>
        (Returns tt, updateBeaconCardRSSI (cardElement existing) (rssi event) pg)
    | None => (Throws TypeError, pg)
    end.

(** [discoveredDevices.has(deviceId)] *)
Definition has_device (deviceId : string) (pg : Page) : bool :=
  bool_decide (is_Some (discoveredDevices pg !! deviceId)).

(** ** Revision 1: [src/script.js], first document *)

Module V1.

Definition expansions : list string :=
  [".com/"; ".org/"; ".edu/"; ".net/"; ".info/"; ".biz/"; ".gov/";
   ".com"; ".org"; ".edu"; ".net"; ".info"; ".biz"; ".gov"].

Definition decodeEddystoneUrl : DataView -> Logged string :=
  decodeEddystoneUrl_with expansions.

Definition parseEddystone (data : DataView) : Logged (option Beacon) :=
  let* dv := new_DataView (buffer data) (byteOffset data) in
  let* frameType := getUint8 dv 0 in
  if frameType =? 0x10 then
    let* url := decodeEddystoneUrl dv in
    ret (Some (EddystoneURL url))
  else ret None.

(** The chain that computes [beaconData] in [handleAdvertisement]. *)
Definition classify (event : AdvertisementEvent) : Logged (option Beacon) :=
  match manufacturerData event !! 0x004C with
  | Some data =>
      let* matches := iBeacon_prefix data in
      if matches then
        let* beaconData := parseIBeacon data in ret (Some beaconData)
      else ret None
  | None =>
      match serviceData event !! 0xfeaa with
      | Some data => parseEddystone data
      | None => ret None
      end
  end.

Definition handleAdvertisement (event : AdvertisementEvent) (pg : Page)
    : Outcome unit * Page :=
  let deviceId := dev_id (device event) in
  let isNew := negb (has_device deviceId pg) in
  let '(msgs, beaconData) := classify event in
  let pg := log_all msgs pg in
  match beaconData with
  | Throws e => (Throws e, pg)
  | Returns None => (Returns tt, pg)
  | Returns (Some beaconData) => update_UI event isNew beaconData pg
  end.

End V1.

(** ** Revision 2: [src/unnamed/part_000] *)

Module V2.

Definition expansions : list string :=
  [".com/"; ".org/"; ".edu/"; ".net/"; ".info/"; ".biz/"; ".gov/";
   ".com"; ".org"; ".edu"; ".net/"; ".info/"; ".biz/"; ".gov/"].

Definition decodeEddystoneUrl : DataView -> Logged string :=
  decodeEddystoneUrl_with expansions.

Definition parseEddystone (data : DataView) : Logged (option Beacon) :=
  let* dv := new_DataView (buffer data) (byteOffset data) in
  let* frameType := getUint8 dv 0 in
  if frameType =? 0x00 then
    if (byteLength data <? 18)%nat then ret None else
    let* namespaceBytes := new_Uint8Array (buffer dv) (byteOffset dv + 2) 10 in
    let* instanceBytes := new_Uint8Array (buffer dv) (byteOffset dv + 12) 6 in
    ret (Some (EddystoneUID (bytesToHex namespaceBytes) (bytesToHex instanceBytes)))
  else if frameType =? 0x10 then
    if (byteLength data <? 4)%nat then ret None else
    let* url := decodeEddystoneUrl dv in
    ret (Some (EddystoneURL url))
  else if frameType =? 0x20 then
    if (byteLength data <? 14)%nat then ret None else
    let* battery := getUint16 dv 2 in
    let* tempInt := getInt8 dv 4 in
    let* tempFrac := getUint8 dv 5 in
    let temperature := fadd (of_int tempInt) (fdiv (of_int tempFrac) (of_int 256)) in
    let* packets := getUint32 dv 6 in
    let* ticks := getUint32 dv 10 in
    let uptime := fdiv (of_int ticks) (of_int 10) in
    ret (Some (EddystoneTLM battery (fixed temperature 2) packets (fixed uptime 1)))
  else ret None.

Definition classify (event : AdvertisementEvent) : Logged (option Beacon) :=
  match manufacturerData event !! 0x004C with
  | Some data =>
      let* matches := iBeacon_prefix data in
      if matches then
        let* beaconData := parseIBeacon data in ret (Some beaconData)
      else ret None
  | None =>
      match serviceData event !! 0xfeaa with
      | Some data => parseEddystone data
      | None => ret None
      end
  end.

Definition is_TLM (tlmData : option Beacon) : bool :=
  match tlmData with
  | Some b => String.eqb (type b) "Eddystone-TLM"
  | None => false
  end.

(** The block under [if (!beaconData)]: a telemetry frame of a device that
    has no card is logged; nothing else happens. *)
Definition unusable (event : AdvertisementEvent) (pg : Page) : Outcome unit * Page :=
  let deviceId := dev_id (device event) in
  match serviceData event !! 0xfeaa with
  | Some data =>
      let '(msgs, tlmData) := parseEddystone data in
      let pg := log_all msgs pg in
      match tlmData with
      | Throws e => (Throws e, pg)
      | Returns tlmData =>
          if is_TLM tlmData && negb (has_device deviceId pg)
          then (Returns tt,
                log ("TLM-Paket empfangen, kann aber keinem Ger"
                     +:+ fromCharCode 228
                     +:+ "t zugeordnet werden (ID: "
                     +:+ substring0 10 deviceId +:+ "...).") pg)
          else (Returns tt, pg)
      end
  | None => (Returns tt, pg)
  end.

Definition handleAdvertisement (event : AdvertisementEvent) (pg : Page)
    : Outcome unit * Page :=
  let deviceId := dev_id (device event) in
  let isNew := negb (has_device deviceId pg) in
  let '(msgs, beaconData) := classify event in
  let pg := log_all msgs pg in
  match beaconData with
  | Throws e => (Throws e, pg)
  | Returns None => unusable event pg
  | Returns (Some beaconData) => update_UI event isNew beaconData pg
  end.

End V2.

(** ** Revision 3: [src/script.js], second document *)

Module V3.

Definition expansions : list string :=
  [".com/"; ".org/"; ".edu/"; ".net/"; ".info/"; ".biz/"; ".gov/";
   ".com"; ".org"; ".edu"; ".net/"; ".info/"; ".biz/"; ".gov/"].

Definition decodeEddystoneUrl : DataView -> Logged string :=
  decodeEddystoneUrl_with expansions.

Definition parseEddystone (data : DataView) : Logged (option Beacon) :=
  let* dv := new_DataView (buffer data) (byteOffset data) in
  if (byteLength dv =? 0)%nat then ret None else
  let* frameType := getUint8 dv 0 in
  if frameType =? 0x00 then
    if (byteLength data <? 18)%nat then ret None else
    let* namespaceBytes := new_Uint8Array (buffer dv) (byteOffset dv + 2) 10 in
    let* instanceBytes := new_Uint8Array (buffer dv) (byteOffset dv + 12) 6 in
    ret (Some (EddystoneUID (bytesToHex namespaceBytes) (bytesToHex instanceBytes)))
  else if frameType =? 0x10 then
    if (byteLength data <? 4)%nat then ret None else
    let* url := decodeEddystoneUrl dv in
    ret (Some (EddystoneURL url))
  else if frameType =? 0x20 then
    if (byteLength data <? 14)%nat then ret None else
    let* battery := getUint16 dv 2 in
    let* tempInt := getInt8 dv 4 in
    let* tempFrac := getUint8 dv 5 in
    let temperature := fadd (of_int tempInt) (fdiv (of_int tempFrac) (of_int 256)) in
    let* packets := getUint32 dv 6 in
    let* ticks := getUint32 dv 10 in
    let uptime := fdiv (of_int ticks) (of_int 10) in
    ret (Some (EddystoneTLM battery (fixed temperature 2) packets (fixed uptime 1)))
  else
    let* _ := say ("Unbekannter Eddystone-Frame-Typ: 0x"
                   +:+ Number_toString 16 frameType) in
    ret None.

Definition parseRuuviTag (data : DataView) : Logged (option Beacon) :=
  let* dv := new_DataView (buffer data) (byteOffset data) in
  let* format := getUint8 dv 0 in
  if format =? 0x05 then
    if (byteLength data <? 24)%nat then ret None else
    let* rawTemp := getInt16 dv 1 in
    let temp := fmul (of_int rawTemp) lit_0_005 in
    let* rawHumidity := getUint16 dv 3 in
    let humidity := fmul (of_int rawHumidity) lit_0_0025 in
    let* rawPressure := getUint16 dv 5 in
    let pressure := fdiv (of_int (rawPressure + 50000)) (of_int 100) in
    let* batteryInfo := getUint16 dv 7 in
    let battery := Z.shiftr batteryInfo 5 + 1600 in
    ret (Some (RuuviTag (fixed temp 2) (fixed humidity 2) (fixed pressure 2) battery))
  else
    let* _ := say ("Unbekanntes RuuviTag-Format: 0x"
                   +:+ Number_toString 16 format) in
    ret None.

Definition has (key : Z) (m : gmap Z DataView) : bool :=
  bool_decide (is_Some (m !! key)).

Definition classify (event : AdvertisementEvent) : Logged (option Beacon) :=
  match manufacturerData event !! 0x004C with
  | Some data =>
      let* matches := iBeacon_prefix data in
      if matches then
        let* beaconData := parseIBeacon data in ret (Some beaconData)
      else ret None
  | None =>
      match serviceData event !! 0xfeaa with
      | Some data => parseEddystone data
      | None =>
          match manufacturerData event !! 0x0499 with
          | Some data => parseRuuviTag data
          | None =>
              if has 0x180F (serviceData event) then
                ret (Some (GattService "Batteriedienst (0x180F)"))
              else if has 0x181A (serviceData event) then
                ret (Some (GattService "Umgebungssensor (0x181A)"))
              else if has 0x180D (serviceData event) then
                ret (Some (GattService "Herzfrequenzmesser (0x180D)"))
              else ret None
          end
      end
  end.

Definition handleAdvertisement (event : AdvertisementEvent) (pg : Page)
    : Outcome unit * Page :=
  let deviceId := dev_id (device event) in
  let isNew := negb (has_device deviceId pg) in
  let '(msgs, beaconData) := classify event in
  let pg := log_all msgs pg in
  match beaconData with
  | Throws e => (Throws e, pg)
  | Returns None => (Returns tt, pg)
  | Returns (Some beaconData) => update_UI event isNew beaconData pg
  end.

End V3.

(** * Specification-side definitions

    What the fields of a decoded record are said to be, written down
    without the script's detours: bytes at fixed offsets of the payload,
    upper-case hexadecimal text, decimal numerals of exact fractions. *)

Module Spec.

(** The byte at offset [i] of a payload, as a number. *)
Definition byte_at (payload : list byte) (i : nat) : Z :=
  u8 (default x00 (payload !! i)).

Definition uint16_be (payload : list byte) (i : nat) : Z :=
  256 * byte_at payload i + byte_at payload (i + 1).

Definition int16_be (payload : list byte) (i : nat) : Z :=
  let v := uint16_be payload i in
  if 32768 <=? v then v - 65536 else v.

Definition int8_at (payload : list byte) (i : nat) : Z :=
  let v := byte_at payload i in
  if 128 <=? v then v - 256 else v.

Definition uint32_be (payload : list byte) (i : nat) : Z :=
  16777216 * byte_at payload i + 65536 * byte_at payload (i + 1)
  + 256 * byte_at payload (i + 2) + byte_at payload (i + 3).

Definition HEXDIGIT (d : Z) : ascii :=
  match String.get (Z.to_nat d) "0123456789ABCDEF" with
  | Some c => c
  | None => "0"%char
  end.

(** Two upper-case hexadecimal digits per byte. *)
Definition HEX (b : byte) : string :=
  String (HEXDIGIT (u8 b / 16)) (String (HEXDIGIT (u8 b mod 16)) "").

Definition hex_upper (bs : list byte) : string := join (map HEX bs).

(** A 16-byte value in the grouping 8-4-4-4-12. *)
Definition uuid_8_4_4_4_12 (bs : list byte) : string :=
  hex_upper (take 4 bs) +:+ "-" +:+ hex_upper (take 2 (drop 4 bs)) +:+ "-"
  +:+ hex_upper (take 2 (drop 6 bs)) +:+ "-" +:+ hex_upper (take 2 (drop 8 bs))
  +:+ "-" +:+ hex_upper (take 6 (drop 10 bs)).

(** The scheme prefixes of an Eddystone URL, by code. *)
Definition scheme (code : Z) : string :=
  match code with
  | 0 => "http://www."
  | 1 => "https://www."
  | 2 => "http://"
  | 3 => "https://"
  | _ => ""
  end.

(** What one encoded byte stands for: the table entry of a code inside the
    table, the character with that code otherwise. *)
Definition expand (table : list string) (b : byte) : string :=
  if u8 b <? Z.of_nat (List.length table)
  then nth (Z.to_nat (u8 b)) table ""
  else String (ascii_of_byte b) "".

Fixpoint expand_all (table : list string) (bs : list byte) : string :=
  match bs with
  | [] => ""
  | b :: bs' => expand table b +:+ expand_all table bs'
  end.

(** The numeral, with [f] decimal places, of [n] units of [10^-f]: the
    decimal digits of the integer part, a point, and the [f] digits of the
    fraction. *)
Definition numeral (f : nat) (n : Z) : string :=
  Number_toString 10 (n / 10 ^ Z.of_nat f) +:+ "."
  +:+ padStart f "0"%char (Number_toString 10 (n mod 10 ^ Z.of_nat f)).

(** The fraction [num / den] in units of [10^-f], rounded to the nearest
    unit, a half away from zero: the magnitude. *)
Definition half_away (f : nat) (num den : Z) : Z :=
  (2 * Z.abs num * 10 ^ Z.of_nat f + den) / (2 * den).

(** The fraction [num / den] formatted to [f] decimal places. *)
Definition to_decimals (f : nat) (num den : Z) : string :=
  (if num <? 0 then "-" else "") +:+ numeral f (half_away f num den).

(** [text] is the fraction [num / den] formatted to [f] decimal places by
    some rounding to a nearest unit of [10^-f]: the sign of the fraction and
    the numeral of [n] units with [|n / 10^f - |num| / den| <= 10^-f / 2]. *)
Definition is_rounding (f : nat) (num den : Z) (text : string) : Prop :=
  exists n : Z,
    0 <= n
    /\ text = (if num <? 0 then "-" else "") +:+ numeral f n
    /\ 2 * Z.abs (n * den - Z.abs num * 10 ^ Z.of_nat f) <= den.

End Spec.

(** * Vocabulary of the statements *)

(** ** The view and the records that the decoders make *)

(** The view [dv] that every decoder makes of its argument with
    [new DataView(data.buffer, data.byteOffset)]: it starts where [data]
    starts and runs to the end of the buffer. *)
Definition dv_of (data : DataView) : DataView :=
  mkDataView (buffer data) (byteOffset data)
    (List.length (buffer data) - byteOffset data).

(** The number formulas of the telemetry frame, as the script computes
    them. *)
Definition tlm_temperature (tempInt tempFrac : Z) : string :=
  fixed (fadd (of_int tempInt) (fdiv (of_int tempFrac) (of_int 256))) 2.

Definition tlm_uptime (ticks : Z) : string :=
  fixed (fdiv (of_int ticks) (of_int 10)) 1.

Definition TLM_of (payload : list byte) : Beacon :=
  EddystoneTLM (Spec.uint16_be payload 2)
    (tlm_temperature (Spec.int8_at payload 4) (Spec.byte_at payload 5))
    (Spec.uint32_be payload 6)
    (tlm_uptime (Spec.uint32_be payload 10)).

Definition UID_of (payload : list byte) : Beacon :=
  EddystoneUID (Spec.hex_upper (take 10 (drop 2 payload)))
    (Spec.hex_upper (take 6 (drop 12 payload))).

Definition URL_of (table : list string) (bytes : list byte) : Beacon :=
  EddystoneURL (Spec.scheme (Spec.byte_at bytes 2)
                +:+ Spec.expand_all table (drop 3 bytes)).

(** The number formulas of format 5, as the script computes them. *)
Definition ruuvi_temperature (raw : Z) : string :=
  fixed (fmul (of_int raw) lit_0_005) 2.

Definition ruuvi_humidity (raw : Z) : string :=
  fixed (fmul (of_int raw) lit_0_0025) 2.

Definition ruuvi_pressure (raw : Z) : string :=
  fixed (fdiv (of_int (raw + 50000)) (of_int 100)) 2.

Definition Ruuvi_of (payload : list byte) : Beacon :=
  RuuviTag (ruuvi_temperature (Spec.int16_be payload 1))
    (ruuvi_humidity (Spec.uint16_be payload 3))
    (ruuvi_pressure (Spec.uint16_be payload 5))
    (Z.shiftr (Spec.uint16_be payload 7) 5 + 1600).

(** ** Computations that log *)

(** A computation that never logs. *)
Definition silent {A} (m : Logged A) : Prop := fst m = [].

(** A computation that has logged nothing when it returns a beacon. *)
Definition quiet {A} (m : Logged (option A)) : Prop :=
  forall msgs b, m = (msgs, Returns (Some b)) -> msgs = [].

(** ** Advertisements and sessions *)

(** An advertisement with one manufacturer entry, or one service entry. *)
Definition manufacturer_packet (deviceId : string) (rssi : Z) (company : Z)
    (payload : list byte) : AdvertisementEvent :=
  {| device := {| dev_id := deviceId |}; rssi := rssi;
     manufacturerData := {[ company := view_of payload ]};
     serviceData := ∅ |}.

Definition service_packet (deviceId : string) (rssi : Z) (service : Z)
    (payload : list byte) : AdvertisementEvent :=
  {| device := {| dev_id := deviceId |}; rssi := rssi;
     manufacturerData := ∅;
     serviceData := {[ service := view_of payload ]} |}.

(** The handler runs to its end, by return or by exception, before the next
    advertisement is delivered; the page is as the handler left it. *)
Definition step (handle : AdvertisementEvent -> Page -> Outcome unit * Page)
    (pg : Page) (event : AdvertisementEvent) : Page :=
  snd (handle event pg).

Definition run (handle : AdvertisementEvent -> Page -> Outcome unit * Page)
    (events : list AdvertisementEvent) (pg : Page) : Page :=
  fold_left (step handle) events pg.

(** An advertisement is classified when the chain yields a beacon. *)
Definition classified (classify : AdvertisementEvent -> Logged (option Beacon))
    (event : AdvertisementEvent) : bool :=
  match snd (classify event) with
  | Returns (Some _) => true
  | _ => false
  end.

(** The identifiers of the devices classified in a session. *)
Fixpoint classified_ids (classify : AdvertisementEvent -> Logged (option Beacon))
    (events : list AdvertisementEvent) : gset string :=
  match events with
  | [] => ∅
  | event :: events' =>
      (if classified classify event then {[ dev_id (device event) ]} else ∅)
      ∪ classified_ids classify events'
  end.

(** One advertisement: the map keeps every record; it gains one record, for
    the device of the advertisement, when that is classified and the device
    had none. *)
Definition registry_step
    (classify : AdvertisementEvent -> Logged (option Beacon))
    (handle : AdvertisementEvent -> Page -> Outcome unit * Page) : Prop :=
  forall event pg,
    let pg' := step handle pg event in
    let deviceId := dev_id (device event) in
    if classified classify event && negb (has_device deviceId pg)
    then exists entry,
           discoveredDevices pg' = <[deviceId := entry]> (discoveredDevices pg)
    else discoveredDevices pg' = discoveredDevices pg.

(** One advertisement never removes or changes a record; the map keeps its
    size, or grows by the one record of a newly classified device. *)
Definition grows_by_first_sights
    (classify : AdvertisementEvent -> Logged (option Beacon))
    (handle : AdvertisementEvent -> Page -> Outcome unit * Page) : Prop :=
  forall pg event,
    let pg' := step handle pg event in
    discoveredDevices pg ⊆ discoveredDevices pg'
    /\ (size (discoveredDevices pg') = size (discoveredDevices pg)
        \/ (discoveredDevices pg !! dev_id (device event) = None
            /\ classified classify event = true
            /\ size (discoveredDevices pg') = S (size (discoveredDevices pg)))).

(** Claim C2 as it is stated: with an Apple entry (0x004C) that is not an
    iBeacon and an Eddystone entry (0xFEAA), the chain gives the Eddystone
    payload to the Eddystone decoder. *)
Definition falls_through_to_eddystone
    (classify : AdvertisementEvent -> Logged (option Beacon))
    (parseEddystone : DataView -> Logged (option Beacon)) : Prop :=
  forall event apple eddystone,
    manufacturerData event !! 0x004C = Some apple ->
    iBeacon_prefix apple = ret false ->
    serviceData event !! 0xfeaa = Some eddystone ->
    classify event = parseEddystone eddystone.

(** Claim C8 as it is stated, with rule 1 in the words of the
    specification (key 0x004C and a payload that decodes as an iBeacon): an
    advertisement that matches none of the rules 1 to 3 is announced by the
    first of the services 0x180F, 0x181A, 0x180D that it carries. *)
Definition gatt_fallback_as_claimed
    (classify : AdvertisementEvent -> Logged (option Beacon)) : Prop :=
  forall event,
    (forall apple,
       manufacturerData event !! 0x004C = Some apple ->
       iBeacon_prefix apple = ret false) ->
    serviceData event !! 0xfeaa = None ->
    manufacturerData event !! 0x0499 = None ->
    (is_Some (serviceData event !! 0x180F) ->
     classify event = ret (Some (GattService "Batteriedienst (0x180F)")))
    /\ (serviceData event !! 0x180F = None ->
        is_Some (serviceData event !! 0x181A) ->
        classify event = ret (Some (GattService "Umgebungssensor (0x181A)")))
    /\ (serviceData event !! 0x180F = None ->
        serviceData event !! 0x181A = None ->
        is_Some (serviceData event !! 0x180D) ->
        classify event = ret (Some (GattService "Herzfrequenzmesser (0x180D)"))).

(** ** Binary64 numbers *)

(** Where a fraction [r / D] lies in the unit interval. *)
Definition locate (r D : Z) : location :=
  if r =? 0 then loc_Exact else loc_Inexact (2 * r ?= D).

(** A record holds the integer part [m] and the place of the fraction
    [r / D]. *)
Definition holds (mrs : shr_record) (m r D : Z) : Prop :=
  shr_m mrs = m /\ loc_of_shr_record mrs = locate r D.

(** The binary64 number of value [(-1)^s * v * 2^e], for [v] of [d] bits
    that fits in 53 bits: mantissa [m] of exactly 53 bits, exponent
    [e + d - 53]. *)
Definition represents (x : spec_float) (s : bool) (v e d : Z) : Prop :=
  exists m : positive,
    x = S754_finite s m (e + d - 53)
    /\ 2 ^ 52 <= Z.pos m < 2 ^ 53
    /\ Z.pos m * 2 ^ Z.max (d - 53) 0 = v * 2 ^ Z.max (53 - d) 0.

Definition float_eqb (x y : spec_float) : bool :=
  match x, y with
  | S754_zero s, S754_zero s' => Bool.eqb s s'
  | S754_infinity s, S754_infinity s' => Bool.eqb s s'
  | S754_nan, S754_nan => true
  | S754_finite s m e, S754_finite s' m' e' =>
      Bool.eqb s s' && Pos.eqb m m' && Z.eqb e e'
  | _, _ => false
  end.

(** [check] holds on the [n] integers from [from] on. *)
Fixpoint all_from (check : Z -> bool) (from : Z) (n : nat) : bool :=
  match n with
  | O => true
  | S n' => check from && all_from check (from + 1) n'
  end.

(** The sum [tempInt + tempFrac / 256.0] is computed without rounding: it
    is the binary64 number of value [(256 * tempInt + tempFrac) / 256]. *)
Definition sum_is_exact (tempFrac : Z) : bool :=
  let fraction := fdiv (of_int tempFrac) (of_int 256) in
  all_from
    (fun tempInt =>
       float_eqb (fadd (of_int tempInt) fraction)
         (binary_normalize 53 1024 (256 * tempInt + tempFrac) (-8) false))
    (-128) 256.

(** ** The examples of the specification and other inputs *)

(** Example 1 of the specification: the UUID bytes 0x01 to 0x10, major 1,
    minor 2. *)
Definition example1 : list byte :=
  [x02; x15; x01; x02; x03; x04; x05; x06; x07; x08; x09; x0a; x0b; x0c;
   x0d; x0e; x0f; x10; x00; x01; x00; x02; x00].

(** Example 2 of the specification: scheme 0, the letters of [example],
    expansion 0. *)
Definition example2 : list byte :=
  [x10; x00; x00; x65; x78; x61; x6d; x70; x6c; x65; x00].

(** Example 3 of the specification: 3000 mV, 21 + 128/256 degrees, 100
    packets, 36000 tenths of a second. *)
Definition example3 : list byte :=
  [x20; x00; x0b; xb8; x15; x80; x00; x00; x00; x64; x00; x00; x8c; xa0].

(** Example 4 of the specification, padded with zero bytes. *)
Definition example4 : list byte :=
  [x05; x01; x90; x4e; x20; x13; x88; x00; x00; x00; x00; x00;
   x00; x00; x00; x00; x00; x00; x00; x00; x00; x00; x00; x00].

(** A control character (31), a non-ASCII value (255) and the smallest
    literal value (14) after the scheme [http://]. *)
Definition literal_bytes : list byte := [x10; x00; x02; x1f; xff; x0e].

(** A device first seen as an iBeacon and then heard with an Eddystone-URL
    frame: the record stays an iBeacon record, the card shows the new
    RSSI. *)
Definition first_sight : AdvertisementEvent :=
  manufacturer_packet "device-A" (-60) 0x004C example1.

Definition second_sight : AdvertisementEvent :=
  service_packet "device-A" (-75) 0xfeaa example2.

Definition page_after_first : Page :=
  snd (V3.handleAdvertisement first_sight initial_page).

(** A five-byte Apple entry next to the Eddystone-URL frame of Example 2. *)
Definition apple_and_eddystone : AdvertisementEvent :=
  {| device := {| dev_id := "device-B" |}; rssi := -80;
     manufacturerData := {[ 0x004C := view_of [x02; x15; x00; x00; x00] ]};
     serviceData := {[ 0xfeaa := view_of example2 ]} |}.

(** The three services in one advertisement: the battery service wins. *)
Definition three_services : AdvertisementEvent :=
  {| device := {| dev_id := "device-C" |}; rssi := -50;
     manufacturerData := ∅;
     serviceData :=
       {[ 0x180D := view_of [x01]; 0x181A := view_of []; 0x180F := view_of [x64] ]} |}.

(** A five-byte Apple entry next to the battery service. *)
Definition apple_and_battery : AdvertisementEvent :=
  {| device := {| dev_id := "device-G" |}; rssi := -64;
     manufacturerData := {[ 0x004C := view_of [x02; x15; x00; x00; x00] ]};
     serviceData := {[ 0x180F := view_of [x64] ]} |}.

(** A five-byte Apple entry next to an Eddystone entry without a byte. *)
Definition apple_and_empty_frame : AdvertisementEvent :=
  {| device := {| dev_id := "device-H" |}; rssi := -59;
     manufacturerData := {[ 0x004C := view_of [x02; x15; x00; x00; x00] ]};
     serviceData := {[ 0xfeaa := view_of [] ]} |}.

(** * More of the script

    The functions that the decoders and the registry leave out: [log] on the
    text of the debug window, [startScan] and [stopScan] with the two
    buttons, and the markup that [createBeaconCard] writes. *)

(** ** The text of the debug window *)

Definition newline : ascii := ascii_of_nat 10.
Definition carriage_return : ascii := ascii_of_nat 13.

(** What [debugLog.value] returns for the text that was assigned to it: a
    text area gives every line break as one line feed, also the one written
    as a carriage return, or as a carriage return and a line feed. *)
Fixpoint normalize_newlines (s : string) : string :=
  match s with
  | EmptyString => EmptyString
  | String c s' =>
      if Ascii.eqb c carriage_return then
        String newline
          match s' with
          | String c' s'' =>
              if Ascii.eqb c' newline then normalize_newlines s''
              else normalize_newlines s'
          | EmptyString => EmptyString
          end
      else String c (normalize_newlines s')
  end.

(** [s.split('\n')] *)
Fixpoint split_lines (s : string) : list string :=
  match s with
  | EmptyString => [EmptyString]
  | String c s' =>
      if Ascii.eqb c newline then EmptyString :: split_lines s'
      else match split_lines s' with
           | line :: lines => String c line :: lines
           | [] => [String c EmptyString]
           end
  end.

(** [lines.join('\n')] *)
Fixpoint join_lines (lines : list string) : string :=
  match lines with
  | [] => EmptyString
  | [line] => line
  | line :: lines' => line +:+ String newline (join_lines lines')
  end.

(** The line that [log] puts on top, without its line break:
    [`[${timestamp}] ${message}`]. *)
Definition stamped (timestamp message : string) : string :=
  "[" +:+ timestamp +:+ "] " +:+ message.

(** [log(message)] on [debugLog.value]: from what [debugLog.value] returns
    before the call to what it returns after the call. The script assigns
    the stamped message, a line feed and the old value, reads the value
    back, splits it, and assigns the first 100 lines when there are more.
    [timestamp] is what [new Date().toLocaleTimeString('de-DE')] returns at
    the call. (The console is left out.) *)
Definition log_value (timestamp message value : string) : string :=
  let text :=
    normalize_newlines (stamped timestamp message +:+ String newline "" +:+ value) in
  let lines := split_lines text in
  if (100 <? List.length lines)%nat then join_lines (take 100 lines) else text.

(** A sequence of calls of [log], each with its time stamp and its message,
    in the order of the calls. *)
Definition log_values (calls : list (string * string)) (value : string) : string :=
  fold_left (fun value call => log_value (fst call) (snd call) value) calls value.

(** A string without the character [c]. *)
Fixpoint lacks (c : ascii) (s : string) : bool :=
  match s with
  | EmptyString => true
  | String c' s' => negb (Ascii.eqb c' c) && lacks c s'
  end.

(** A string without line break: neither a line feed nor a carriage
    return, which the text area turns into a line feed. *)
Definition single_line (s : string) : bool :=
  lacks newline s && lacks carriage_return s.

(** ** The scan and its two buttons *)

(** The page with the scan state of the script: [bleScan] (the scan object,
    by a number), [scanStartBtn.disabled], [scanStartBtn.textContent],
    [scanStopBtn.disabled], whether [handleAdvertisement] is registered for
    [advertisement] events, and the number of calls of [startScan] that wait
    at their [await]. *)
Record Window : Type := {
  page : Page;
  bleScan : option nat;
  startDisabled : bool;
  startText : string;
  stopDisabled : bool;
  listening : bool;
  requested : nat
}.

(** How [navigator.bluetooth.requestLEScan] ends: the promise is fulfilled
    with a scan object, or the call fails with an error of a name and a
    message. *)
Inductive Answer : Type :=
| Granted (scan : nat)
| Refused (name message : string).

Definition with_page (f : Page -> Page) (w : Window) : Window :=
  {| page := f (page w); bleScan := bleScan w;
     startDisabled := startDisabled w; startText := startText w;
     stopDisabled := stopDisabled w;
     listening := listening w; requested := requested w |}.

(** The double quote, and the three umlauts of the messages. *)
Definition quote : string := String (ascii_of_nat 34) "".
Definition u_umlaut : string := fromCharCode 252.
Definition o_umlaut : string := fromCharCode 246.
Definition a_umlaut : string := fromCharCode 228.

(** [startScan] up to its [await]; [bluetooth] tells whether
    [navigator.bluetooth] is there. *)
Definition startScan_request (bluetooth : bool) (w : Window) : Window :=
  let w := with_page (log "Scan wird angefordert...") w in
  if negb bluetooth then
    let w := with_page
      (log ("FEHLER: Web Bluetooth API wird von diesem Browser nicht unterst"
            +:+ u_umlaut +:+ "tzt.")) w in
    with_page
      (log ("HINWEIS: Web Bluetooth ben" +:+ o_umlaut
            +:+ "tigt HTTPS und einen kompatiblen Browser (z.B. Chrome).")) w
  else
    {| page := page w; bleScan := bleScan w;
       startDisabled := true; startText := startText w;
       stopDisabled := stopDisabled w;
       listening := listening w; requested := S (requested w) |}.

(** [startScan] from its [await] on: the rest of the [try] block, or the
    [catch] block. [filters] is the text of the revision's filter line. *)
Definition startScan_resume (filters : string) (answer : Answer) (w : Window)
    : Window :=
  match answer with
  | Granted scan =>
      let w := with_page
        (log "Scan aktiv. Warte auf 'advertisement' Events...") w in
      let w := with_page
        (log ("Filter: " +:+ quote +:+ filters +:+ quote)) w in
      {| page := page w; bleScan := Some scan;
         startDisabled := startDisabled w; startText := startText w;
         stopDisabled := false;
         listening := true; requested := pred (requested w) |}
  | Refused name message =>
      let w := with_page
        (log ("FEHLER beim Starten des Scans: " +:+ message)) w in
      let w :=
        if String.eqb name "NotFoundError" then
          with_page
            (log ("Info: Der Benutzer hat das Bluetooth-Ger" +:+ a_umlaut
                  +:+ "teauswahl-Fenster geschlossen.")) w
        else w in
      {| page := page w; bleScan := bleScan w;
         startDisabled := false; startText := startText w;
         stopDisabled := stopDisabled w;
         listening := listening w; requested := pred (requested w) |}
  end.

Definition V1_filters : string := "iBeacon & Eddystone".
Definition V2_filters : string := "iBeacon & Eddystone (Alle Typen)".
Definition V3_filters : string := "iBeacon, Eddystone, RuuviTag, GATT-Dienste".

(** The statements at the end of the script, run once when the page is
    loaded. *)
Definition initialise (bluetooth : bool) (w : Window) : Window :=
  if bluetooth then
    with_page (log ("Web Bluetooth API ist verf" +:+ u_umlaut +:+ "gbar.")) w
  else
    let w := with_page
      (log ("FEHLER: Web Bluetooth API wird nicht unterst" +:+ u_umlaut
            +:+ "tzt.")) w in
    let w := with_page
      (log ("INFO: Stellen Sie sicher, dass die Seite " +:+ u_umlaut
            +:+ "ber HTTPS geladen wird.")) w in
    {| page := page w; bleScan := bleScan w;
       startDisabled := true;
       startText := "Nicht unterst" +:+ u_umlaut +:+ "tzt";
       stopDisabled := stopDisabled w;
       listening := listening w; requested := requested w |}.

(** [stopScan]; [stop] tells how [bleScan.stop()] ends: it returns, or it
    raises an error with a message. Without [navigator.bluetooth] the call
    of [removeEventListener] raises. *)
Definition stopScan (bluetooth : bool) (stop : option string) (w : Window)
    : Outcome unit * Window :=
  let w := with_page (log "Scan wird gestoppt...") w in
  if negb bluetooth then (Throws TypeError, w) else
  let '(scan, pg) :=
    match bleScan w with
    | Some scan =>
        match stop with
        | None => (None, log "Scan erfolgreich gestoppt." (page w))
        | Some message =>
            (Some scan,
             log ("FEHLER beim Stoppen des Scans: " +:+ message) (page w))
        end
    | None => (None, page w)
    end in
  (Returns tt,
   {| page := pg; bleScan := scan; startDisabled := false;
      startText := startText w; stopDisabled := true;
      listening := false; requested := requested w |}).

(** What happens on the page: a click on a button (a disabled button takes
    no click), the end of a pending request, an advertisement (delivered to
    the registered listener only; an exception of the listener ends that
    call and nothing else). *)
Inductive Action : Type :=
| ClickStart
| Settle (answer : Answer)
| ClickStop (stop : option string)
| Advertisement (event : AdvertisementEvent).

Definition act (bluetooth : bool) (filters : string)
    (handle : AdvertisementEvent -> Page -> Outcome unit * Page)
    (w : Window) (a : Action) : Window :=
  match a with
  | ClickStart => if startDisabled w then w else startScan_request bluetooth w
  | Settle answer =>
      match requested w with
      | O => w
      | S _ => startScan_resume filters answer w
      end
  | ClickStop stop => if stopDisabled w then w else snd (stopScan bluetooth stop w)
  | Advertisement event =>
      if listening w then with_page (fun pg => step handle pg event) w else w
  end.

Definition acts (bluetooth : bool) (filters : string)
    (handle : AdvertisementEvent -> Page -> Outcome unit * Page)
    (actions : list Action) (w : Window) : Window :=
  fold_left (act bluetooth filters handle) actions w.

(** ** The markup of a card *)

Definition newline_text : string := String newline "".

Definition spaces (n : nat) : string := string_of_list_ascii (repeat " "%char n).

(** One line of a template literal: its indentation, its text, the line
    break. *)
Definition line (indent : nat) (text : string) : string :=
  spaces indent +:+ text +:+ newline_text.

(** An attribute in the markup: the name, the equals sign and the value
    between double quotes. *)
Definition attr (name value : string) : string :=
  name +:+ "=" +:+ quote +:+ value +:+ quote.

(** An integer in a template literal: its decimal digits, after a minus sign
    when it is negative. *)
Definition show_number (n : Z) : string :=
  if n <? 0 then "-" +:+ Number_toString 10 (- n) else Number_toString 10 n.

(** [createBeaconCard] of revision 3 as the text it writes; revision 2 has
    the same text for its four types. *)
Module Markup.

(** The [switch] of [createBeaconCard] on [beaconData.type]: the title, the
    border colour and the content of the card. Every beacon the script makes
    has one of the six types; the [default] case is not reached. *)
Definition card_parts (beaconData : Beacon) : string * string * string :=
  match beaconData with
  | IBeacon uuid major minor =>
      ("iBeacon", "border-blue-500",
       newline_text +:+
       line 16
         ("<p " +:+ attr "class" "text-xs text-gray-500 break-all" +:+
          ">UUID: <strong " +:+ attr "class" "font-mono" +:+ ">" +:+ uuid +:+
          "</strong></p>") +:+
       line 16
         ("<p " +:+ attr "class" "text-sm text-gray-700" +:+
          ">Major: <strong " +:+ attr "class" "font-mono" +:+ ">" +:+
          show_number major +:+ "</strong></p>") +:+
       line 16
         ("<p " +:+ attr "class" "text-sm text-gray-700" +:+
          ">Minor: <strong " +:+ attr "class" "font-mono" +:+ ">" +:+
          show_number minor +:+ "</strong></p>") +:+
       spaces 12)
  | EddystoneURL url =>
      ("Eddystone-URL", "border-green-500",
       newline_text +:+
       line 16
         ("<p " +:+ attr "class" "text-sm text-gray-700 break-all" +:+
          ">URL: ") +:+
       line 20
         ("<a " +:+ attr "href" url +:+ " " +:+ attr "target" "_blank" +:+
          " " +:+ attr "rel" "noopener noreferrer" +:+ " " +:+
          attr "class" "text-blue-600 hover:underline font-mono" +:+ ">" +:+
          url +:+ "</a>") +:+
       line 16
         ("</p>") +:+
       spaces 12)
  | EddystoneUID namespace instance =>
      ("Eddystone-UID", "border-purple-500",
       newline_text +:+
       line 16
         ("<p " +:+ attr "class" "text-xs text-gray-500 break-all" +:+
          ">Namespace: <strong " +:+ attr "class" "font-mono" +:+ ">" +:+
          namespace +:+ "</strong></p>") +:+
       line 16
         ("<p " +:+ attr "class" "text-xs text-gray-500 break-all" +:+
          ">Instance: <strong " +:+ attr "class" "font-mono" +:+ ">" +:+
          instance +:+ "</strong></p>") +:+
       spaces 12)
  | EddystoneTLM battery temperature packets uptime =>
      ("Eddystone-TLM (Telemetrie)", "border-orange-500",
       newline_text +:+
       line 16
         ("<p " +:+ attr "class" "text-sm text-gray-700" +:+
          ">Batterie: <strong " +:+ attr "class" "font-mono" +:+ ">" +:+
          show_number battery +:+ " mV</strong></p>") +:+
       line 16
         ("<p " +:+ attr "class" "text-sm text-gray-700" +:+
          ">Temperatur: <strong " +:+ attr "class" "font-mono" +:+ ">" +:+
          temperature +:+ " " +:+ fromCharCode 176 +:+ "C</strong></p>") +:+
       line 16
         ("<p " +:+ attr "class" "text-sm text-gray-700" +:+
          ">Pakete: <strong " +:+ attr "class" "font-mono" +:+ ">" +:+
          show_number packets +:+ "</strong></p>") +:+
       line 16
         ("<p " +:+ attr "class" "text-sm text-gray-700" +:+
          ">Laufzeit: <strong " +:+ attr "class" "font-mono" +:+ ">" +:+
          uptime +:+ " s</strong></p>") +:+
       spaces 12)
  | RuuviTag temperature humidity pressure battery =>
      ("RuuviTag Sensor (RAWv2)", "border-cyan-500",
       newline_text +:+
       line 16
         ("<p " +:+ attr "class" "text-sm text-gray-700" +:+
          ">Temperatur: <strong " +:+ attr "class" "font-mono" +:+ ">" +:+
          temperature +:+ " " +:+ fromCharCode 176 +:+ "C</strong></p>") +:+
       line 16
         ("<p " +:+ attr "class" "text-sm text-gray-700" +:+
          ">Luftfeuchtigkeit: <strong " +:+ attr "class" "font-mono" +:+
          ">" +:+ humidity +:+ " %RH</strong></p>") +:+
       line 16
         ("<p " +:+ attr "class" "text-sm text-gray-700" +:+
          ">Luftdruck: <strong " +:+ attr "class" "font-mono" +:+ ">" +:+
          pressure +:+ " hPa</strong></p>") +:+
       line 16
         ("<p " +:+ attr "class" "text-sm text-gray-700" +:+
          ">Batterie: <strong " +:+ attr "class" "font-mono" +:+ ">" +:+
          show_number battery +:+ " mV</strong></p>") +:+
       spaces 12)
  | GattService name =>
      ("GATT-Dienst erkannt", "border-gray-400",
       newline_text +:+
       line 16
         ("<p " +:+ attr "class" "text-sm text-gray-700" +:+ ">Ger" +:+
          fromCharCode 228 +:+ "t bewirbt: <strong " +:+
          attr "class" "font-mono" +:+ ">" +:+ name +:+ "</strong></p>") +:+
       line 16
         ("<p " +:+ attr "class" "text-xs text-gray-500 italic mt-1" +:+
          ">Dies ist eine Ank" +:+ fromCharCode 252 +:+
          "ndigung. Zum Auslesen der Daten ist eine Verbindung (GATT) erforderlich.</p>") +:+
       spaces 12)
  end.

(** The element that [createBeaconCard] makes: its [data-device-id]
    attribute, its [className] and the markup assigned to [innerHTML]. *)
Record Element : Type := {
  data_device_id_attribute : string;
  className : string;
  innerHTML : string
}.

Definition createBeaconCard (beaconData : Beacon) (rssi : Z) (deviceId : string)
    : Element :=
  let '(title, borderColor, content) := card_parts beaconData in
  {| data_device_id_attribute := deviceId;
     className := "bg-white p-4 rounded-lg shadow-md border-l-4 " +:+ borderColor;
     innerHTML :=
       newline_text +:+
       line 8
         ("<div " +:+ attr "class" "flex justify-between items-start mb-2" +:+
          ">") +:+
       line 12
         ("<h3 " +:+ attr "class" "text-lg font-semibold text-gray-800" +:+
          ">" +:+ title +:+ "</h3>") +:+
       line 12
         ("<span " +:+
          attr "class" "rssi-value-wrapper text-sm font-medium text-gray-600" +:+
          ">") +:+
       line 16
         ("RSSI: <span " +:+ attr "class" "rssi-value font-bold" +:+ ">" +:+
          show_number rssi +:+ "</span> dBm") +:+
       line 12
         ("</span>") +:+
       line 8
         ("</div>") +:+
       line 8 content +:+
       line 8
         ("<p " +:+ attr "class" "text-xs text-gray-400 mt-3 font-mono" +:+
          ">ID: " +:+ substring0 10 deviceId +:+ "...</p>") +:+
       spaces 4 |}.

End Markup.

(** * Vocabulary of the further properties *)

(** Every view of the advertisement lies inside its buffer. *)
Definition views_ok (event : AdvertisementEvent) : Prop :=
  (forall key data, manufacturerData event !! key = Some data -> view_ok data)
  /\ (forall key data, serviceData event !! key = Some data -> view_ok data).

(** The advertisement whose RuuviTag entry is reached and has no byte to
    read: no Apple entry, no Eddystone entry, and an entry for 0x0499 whose
    view is at the end of its buffer. *)
Definition empty_RuuviTag_entry (event : AdvertisementEvent) : Prop :=
  manufacturerData event !! 0x004C = None
  /\ serviceData event !! 0xfeaa = None
  /\ exists data,
       manufacturerData event !! 0x0499 = Some data
       /\ byteLength (dv_of data) = 0%nat.

(** The line that revision 2 logs for a telemetry frame it cannot assign. *)
Definition tlm_note (deviceId : string) : string :=
  "TLM-Paket empfangen, kann aber keinem Ger" +:+ a_umlaut
  +:+ "t zugeordnet werden (ID: " +:+ substring0 10 deviceId +:+ "...).".

(** The value of an upper-case hexadecimal digit. *)
Definition hex_digit_value (c : ascii) : Z :=
  let n := Z.of_nat (nat_of_ascii c) in
  if n <? 65 then n - 48 else n - 55.

(** [s] without the occurrences of the character [c]. *)
Fixpoint without (c : ascii) (s : string) : string :=
  match s with
  | EmptyString => EmptyString
  | String c' s' =>
      if Ascii.eqb c c' then without c s' else String c' (without c s')
  end.

(** The characters whose codes are the bytes [bs]. *)
Definition text_of (bs : list byte) : string :=
  string_of_list_ascii (map ascii_of_byte bs).

(** [text] occurs in [s]. *)
Definition occurs_in (text s : string) : Prop :=
  exists before after, s = before +:+ text +:+ after.

(** Two pages with the same records, cards and children of [resultsDiv]:
    they differ in the debug window at most. *)
Definition same_cards (pg pg' : Page) : Prop :=
  discoveredDevices pg' = discoveredDevices pg
  /\ elements pg' = elements pg
  /\ resultsDiv pg' = resultsDiv pg.

(** What a handler does, by the outcome of the classification. *)
Definition handler_of
    (classify : AdvertisementEvent -> Logged (option Beacon))
    (handle : AdvertisementEvent -> Page -> Outcome unit * Page) : Prop :=
  (forall event pg msgs b,
      classify event = (msgs, Returns (Some b)) ->
      handle event pg
      = update_UI event (negb (has_device (dev_id (device event)) pg)) b pg)
  /\ (forall event pg,
        classified classify event = false ->
        same_cards pg (snd (handle event pg))).

(** One card per device: the children of [resultsDiv] are the cards in the
    reverse order of their creation, there are as many cards as records, and
    the record of a device refers to the card made for that device, whose
    content has the record's type. *)
Definition one_card_per_device (pg : Page) : Prop :=
  resultsDiv pg = rev (seq 0 (List.length (elements pg)))
  /\ size (discoveredDevices pg) = List.length (elements pg)
  /\ forall deviceId entry,
       discoveredDevices pg !! deviceId = Some entry ->
       dev_id (entry_device entry) = deviceId
       /\ exists card,
            elements pg !! cardElement entry = Some card
            /\ data_device_id card = deviceId
            /\ entry_type entry = type (card_beacon card).

(** The classified advertisements of one device, in the order of arrival. *)
Definition sightings (classify : AdvertisementEvent -> Logged (option Beacon))
    (deviceId : string) (events : list AdvertisementEvent)
    : list AdvertisementEvent :=
  List.filter
    (fun event =>
       classified classify event && bool_decide (dev_id (device event) = deviceId))
    events.

(** What the page [pg] shows of the device [deviceId] after the
    advertisements [events]: the beacon of the first classified
    advertisement of the device and the RSSI of the last one; no record for
    a device without classified advertisement. *)
Definition shown (classify : AdvertisementEvent -> Logged (option Beacon))
    (deviceId : string) (events : list AdvertisementEvent) (pg : Page) : Prop :=
  match sightings classify deviceId events with
  | [] => discoveredDevices pg !! deviceId = None
  | first :: later =>
      exists entry card msgs,
        discoveredDevices pg !! deviceId = Some entry
        /\ elements pg !! cardElement entry = Some card
        /\ classify first = (msgs, Returns (Some (card_beacon card)))
        /\ entry_type entry = type (card_beacon card)
        /\ rssi_value card = rssi (List.last later first)
  end.

(** The advertisements that reach the handler in the course of [actions],
    in the order of their arrival: those that arrive while the listener is
    registered, from the load of the page on. *)
Fixpoint delivered (bluetooth : bool) (filters : string)
    (handle : AdvertisementEvent -> Page -> Outcome unit * Page)
    (actions : list Action) (w : Window) : list AdvertisementEvent :=
  match actions with
  | [] => []
  | a :: actions' =>
      match a with
      | Advertisement event => if listening w then [event] else []
      | _ => []
      end
      ++ delivered bluetooth filters handle actions'
           (act bluetooth filters handle w a)
  end.

(** Those of the scanning session under way, after the advertisements
    [session] that it has had so far: a session begins when a request is
    granted, and its advertisements are counted from there. *)
Fixpoint delivered_in_session (bluetooth : bool) (filters : string)
    (handle : AdvertisementEvent -> Page -> Outcome unit * Page)
    (actions : list Action) (w : Window) (session : list AdvertisementEvent)
    : list AdvertisementEvent :=
  match actions with
  | [] => session
  | a :: actions' =>
      delivered_in_session bluetooth filters handle actions'
        (act bluetooth filters handle w a)
        match a, requested w with
        | Settle (Granted _), S _ => []
        | Advertisement event, _ =>
            if listening w then session ++ [event] else session
        | _, _ => session
        end
  end.

(** What the size counts: from a page with the records of some devices, the
    distinct devices among those and the ones classified since. *)
Definition counts_from_the_start
    (classify : AdvertisementEvent -> Logged (option Beacon))
    (handle : AdvertisementEvent -> Page -> Outcome unit * Page) : Prop :=
  forall events pg,
    size (discoveredDevices (run handle events pg))
    = size (classified_ids classify events ∪ dom (discoveredDevices pg)).

(** From a page without record, whatever happens on the page: the distinct
    devices classified since, in all the scanning sessions together. *)
Definition counts_all_sessions
    (classify : AdvertisementEvent -> Logged (option Beacon))
    (handle : AdvertisementEvent -> Page -> Outcome unit * Page) : Prop :=
  forall bluetooth filters actions w,
    discoveredDevices (page w) = ∅ ->
    size (discoveredDevices
            (page (acts bluetooth filters handle actions w)))
    = size (classified_ids classify
              (delivered bluetooth filters handle actions w)).

(** The clicks on the stop button among [actions]. *)
Fixpoint stop_clicks (actions : list Action) : nat :=
  match actions with
  | [] => 0
  | ClickStop _ :: actions' => S (stop_clicks actions')
  | _ :: actions' => stop_clicks actions'
  end.

(** The three states of the scan, as the buttons show them: the stop button
    is enabled exactly while the listener is registered; at most one request
    waits, and while it waits the start button is disabled and the listener
    is not registered; while the listener is registered the start button is
    disabled and there is a scan object. *)
Definition scan_shown (w : Window) : Prop :=
  stopDisabled w = negb (listening w)
  /\ (requested w <= 1)%nat
  /\ (requested w = 1%nat -> startDisabled w = true /\ listening w = false)
  /\ (listening w = true -> startDisabled w = true /\ is_Some (bleScan w)).

(** ** More inputs *)

(** An idle page: no scan, the start button enabled, the stop button
    disabled. (The label of the start button comes from the document, not
    from the script; [Start] stands for it.) *)
Definition loaded : Window :=
  {| page := initial_page; bleScan := None; startDisabled := false;
     startText := "Start"; stopDisabled := true; listening := false;
     requested := 0 |}.

(** The same page in a document that leaves the stop button enabled. *)
Definition stop_enabled : Window :=
  {| page := initial_page; bleScan := None; startDisabled := false;
     startText := "Start"; stopDisabled := false; listening := false;
     requested := 0 |}.

(** Claim C9 as it is stated: on a page loaded with Web Bluetooth, at every
    point the size of the map is the number of distinct devices classified
    in the scanning session under way. *)
Definition counts_the_session
    (classify : AdvertisementEvent -> Logged (option Beacon))
    (handle : AdvertisementEvent -> Page -> Outcome unit * Page) : Prop :=
  forall filters actions,
    size (discoveredDevices (page (acts true filters handle actions loaded)))
    = size (classified_ids classify
              (delivered_in_session true filters handle actions loaded [])).

(** A second device, and two scanning sessions: the first device is heard
    in the first session, the second device in the second. *)
Definition other_sight : AdvertisementEvent :=
  manufacturer_packet "device-F" (-58) 0x004C example1.

Definition two_sessions : list Action :=
  [ClickStart; Settle (Granted 1); Advertisement first_sight; ClickStop None;
   ClickStart; Settle (Granted 2); Advertisement other_sight].

(** A UID frame of 18 bytes. *)
Definition uid_frame : list byte :=
  [x00; xee; x01; x02; x03; x04; x05; x06; x07; x08; x09; x0a;
   xa1; xb2; xc3; xd4; xe5; xf6].

(** A URL frame of four bytes in a buffer of seven: one byte before it, two
    bytes behind it. *)
Definition url_in_buffer : DataView :=
  mkDataView [xaa; x10; x00; x02; x61; x62; x00] 1 4.

(** A RuuviTag entry of an unknown format. *)
Definition unknown_tag : AdvertisementEvent :=
  manufacturer_packet "tag" (-70) 0x0499 [x03].


Definition apple_and_tlm : AdvertisementEvent :=
  {| device := {| dev_id := "device-E-0123456789" |}; rssi := -71;
     manufacturerData := {[ 0x004C := view_of [x12; x19; x00] ]};
     serviceData := {[ 0xfeaa := view_of example3 ]} |}.

(** A double quote and the characters [><b>], as the bytes of a URL
    frame. *)
Definition markup_bytes : list byte := [x22; x3e; x3c; x62; x3e].

(** * Properties *)

(** ** The logging monad *)

Lemma bind_ret {A B} (a : A) (k : A -> Logged B) : bind (ret a) k = k a.
Proof. unfold bind, ret. destruct (k a) as [msgs r]. reflexivity. Qed.

Lemma bind_throw {A B} (e : Error) (k : A -> Logged B) :
  bind (throw e) k = throw e.
Proof. reflexivity. Qed.

(** ** Reading from a view *)

Lemma u8_range (b : byte) : 0 <= u8 b < 256.
Proof.
  unfold u8. pose proof (Byte.to_N_bounded b). lia.
Qed.

Section Views.

Variable data : DataView.
Hypothesis data_ok : view_ok data.

(** [new DataView(data.buffer, data.byteOffset)] succeeds on every view and
    runs from the start of [data] to the end of its buffer. *)
Lemma new_DataView_ok :
  new_DataView (buffer data) (byteOffset data) = ret (dv_of data).
Proof.
  unfold new_DataView, view_ok, dv_of in *.
  destruct (Nat.leb_spec (byteOffset data) (List.length (buffer data))) as [_|H];
    [reflexivity | lia].
Qed.

Lemma window (i w : nat) :
  (i + w <= byteLength data)%nat ->
  take w (drop (byteOffset data + i) (buffer data))
  = take w (drop i (view_bytes data)).
Proof.
  intros Hi. unfold view_bytes.
  rewrite <- drop_drop, skipn_firstn_comm, take_take.
  f_equal. lia.
Qed.

Lemma view_bytes_length : List.length (view_bytes data) = byteLength data.
Proof.
  unfold view_bytes, view_ok in *. rewrite length_take, length_drop. lia.
Qed.

(** A read inside [data] through the re-made view [dv] returns the bytes of
    the payload. *)
Lemma read_dv (i w : nat) :
  (i + w <= byteLength data)%nat ->
  read (dv_of data) i w = ret (take w (drop i (view_bytes data))).
Proof.
  intros Hi. unfold read, dv_of; simpl. unfold view_ok in *.
  destruct (Nat.leb_spec (i + w) (List.length (buffer data) - byteOffset data));
    [| lia].
  now rewrite window.
Qed.

Lemma read_data (i w : nat) :
  (i + w <= byteLength data)%nat ->
  read data i w = ret (take w (drop i (view_bytes data))).
Proof.
  intros Hi. unfold read.
  destruct (Nat.leb_spec (i + w) (byteLength data)); [| lia].
  now rewrite window.
Qed.

Lemma new_Uint8Array_ok (i w : nat) :
  (i + w <= byteLength data)%nat ->
  new_Uint8Array (buffer data) (byteOffset data + i) w
  = ret (take w (drop i (view_bytes data))).
Proof.
  intros Hi. unfold new_Uint8Array. unfold view_ok in *.
  destruct (Nat.leb_spec (byteOffset data + i + w) (List.length (buffer data)));
    [| lia].
  now rewrite window.
Qed.

End Views.

(** ** Fixed-width reads are the big-endian fields *)

Lemma window_split (payload : list byte) (i : nat) :
  (i < List.length payload)%nat ->
  drop i payload = default x00 (payload !! i) :: drop (S i) payload.
Proof.
  intros Hi. destruct (lookup_lt_is_Some_2 payload i Hi) as [b Hb].
  rewrite Hb. simpl. now apply drop_S.
Qed.

Lemma be_value_1 (payload : list byte) (i : nat) :
  (i + 1 <= List.length payload)%nat ->
  be_value (take 1 (drop i payload)) = Spec.byte_at payload i.
Proof.
  intros Hi. rewrite window_split by lia. reflexivity.
Qed.

Lemma be_value_2 (payload : list byte) (i : nat) :
  (i + 2 <= List.length payload)%nat ->
  be_value (take 2 (drop i payload)) = Spec.uint16_be payload i.
Proof.
  intros Hi. rewrite (window_split payload i) by lia.
  rewrite (window_split payload (S i)) by lia.
  unfold Spec.uint16_be, Spec.byte_at. rewrite Nat.add_1_r.
  unfold be_value; cbn [firstn fold_left]; rewrite firstn_O; cbn [fold_left]. lia.
Qed.

Lemma be_value_4 (payload : list byte) (i : nat) :
  (i + 4 <= List.length payload)%nat ->
  be_value (take 4 (drop i payload)) = Spec.uint32_be payload i.
Proof.
  intros Hi. rewrite (window_split payload i) by lia.
  rewrite (window_split payload (S i)) by lia.
  rewrite (window_split payload (S (S i))) by lia.
  rewrite (window_split payload (S (S (S i)))) by lia.
  unfold Spec.uint32_be, Spec.byte_at.
  replace (i + 1)%nat with (S i) by lia.
  replace (i + 2)%nat with (S (S i)) by lia.
  replace (i + 3)%nat with (S (S (S i))) by lia.
  unfold be_value; cbn [firstn fold_left]; rewrite firstn_O; cbn [fold_left]. lia.
Qed.

Lemma byte_at_range (payload : list byte) (i : nat) :
  0 <= Spec.byte_at payload i < 256.
Proof. apply u8_range. Qed.

Lemma uint16_be_range (payload : list byte) (i : nat) :
  0 <= Spec.uint16_be payload i < 65536.
Proof.
  unfold Spec.uint16_be.
  pose proof (byte_at_range payload i). pose proof (byte_at_range payload (i + 1)).
  lia.
Qed.

Lemma uint32_be_range (payload : list byte) (i : nat) :
  0 <= Spec.uint32_be payload i < 4294967296.
Proof.
  unfold Spec.uint32_be.
  pose proof (byte_at_range payload i). pose proof (byte_at_range payload (i + 1)).
  pose proof (byte_at_range payload (i + 2)). pose proof (byte_at_range payload (i + 3)).
  lia.
Qed.

Lemma to_signed_8 (payload : list byte) (i : nat) :
  to_signed 8 (Spec.byte_at payload i) = Spec.int8_at payload i.
Proof.
  unfold to_signed, Spec.int8_at. change (2 ^ (8 - 1)) with 128. change (2 ^ 8) with 256.
  destruct (Z.ltb_spec (Spec.byte_at payload i) 128),
           (Z.leb_spec 128 (Spec.byte_at payload i)); lia.
Qed.

Lemma to_signed_16 (payload : list byte) (i : nat) :
  to_signed 16 (Spec.uint16_be payload i) = Spec.int16_be payload i.
Proof.
  unfold to_signed, Spec.int16_be.
  change (2 ^ (16 - 1)) with 32768. change (2 ^ 16) with 65536.
  destruct (Z.ltb_spec (Spec.uint16_be payload i) 32768),
           (Z.leb_spec 32768 (Spec.uint16_be payload i)); lia.
Qed.

Section Fields.

Variable data : DataView.
Hypothesis data_ok : view_ok data.

Lemma getUint8_dv (i : nat) :
  (i + 1 <= byteLength data)%nat ->
  getUint8 (dv_of data) i = ret (Spec.byte_at (view_bytes data) i).
Proof.
  intros Hi. unfold getUint8. rewrite read_dv, bind_ret by assumption.
  rewrite be_value_1; [reflexivity | rewrite view_bytes_length; assumption].
Qed.

Lemma getUint8_data (i : nat) :
  (i + 1 <= byteLength data)%nat ->
  getUint8 data i = ret (Spec.byte_at (view_bytes data) i).
Proof.
  intros Hi. unfold getUint8. rewrite read_data, bind_ret by assumption.
  rewrite be_value_1; [reflexivity | rewrite view_bytes_length; assumption].
Qed.

Lemma getInt8_dv (i : nat) :
  (i + 1 <= byteLength data)%nat ->
  getInt8 (dv_of data) i = ret (Spec.int8_at (view_bytes data) i).
Proof.
  intros Hi. unfold getInt8. rewrite read_dv, bind_ret by assumption.
  rewrite be_value_1, to_signed_8;
    [reflexivity | rewrite view_bytes_length; assumption].
Qed.

Lemma getUint16_dv (i : nat) :
  (i + 2 <= byteLength data)%nat ->
  getUint16 (dv_of data) i = ret (Spec.uint16_be (view_bytes data) i).
Proof.
  intros Hi. unfold getUint16. rewrite read_dv, bind_ret by assumption.
  rewrite be_value_2; [reflexivity | rewrite view_bytes_length; assumption].
Qed.

Lemma getInt16_dv (i : nat) :
  (i + 2 <= byteLength data)%nat ->
  getInt16 (dv_of data) i = ret (Spec.int16_be (view_bytes data) i).
Proof.
  intros Hi. unfold getInt16. rewrite read_dv, bind_ret by assumption.
  rewrite be_value_2, to_signed_16;
    [reflexivity | rewrite view_bytes_length; assumption].
Qed.

Lemma getUint32_dv (i : nat) :
  (i + 4 <= byteLength data)%nat ->
  getUint32 (dv_of data) i = ret (Spec.uint32_be (view_bytes data) i).
Proof.
  intros Hi. unfold getUint32. rewrite read_dv, bind_ret by assumption.
  rewrite be_value_4; [reflexivity | rewrite view_bytes_length; assumption].
Qed.

End Fields.

(** ** Hexadecimal text *)

(** The script's lower-case, padded digits of a byte are two characters,
    and their upper-case form is the byte in upper-case hexadecimal. *)
Lemma hex2_shape (b : byte) :
  exists c1 c2 : ascii,
    hex2 b = String c1 (String c2 "")
    /\ Spec.HEX b = String (upper_char c1) (String (upper_char c2) "").
Proof.
  destruct b; do 2 eexists; split; reflexivity.
Qed.

Lemma toUpperCase_app (s t : string) :
  toUpperCase (s +:+ t) = toUpperCase s +:+ toUpperCase t.
Proof.
  induction s as [|c s IH]; simpl; [reflexivity | now rewrite IH].
Qed.

Lemma bytesToHex_spec (bs : list byte) : bytesToHex bs = Spec.hex_upper bs.
Proof.
  unfold bytesToHex, hex_of_bytes, Spec.hex_upper.
  induction bs as [|b bs IH]; [reflexivity |].
  cbn [map join fold_right]. rewrite toUpperCase_app.
  fold (join (map hex2 bs)). fold (join (map Spec.HEX bs)). rewrite IH.
  destruct (hex2_shape b) as (c1 & c2 & E & E'). rewrite E, E'. reflexivity.
Qed.

(** The slices at 8, 12, 16 and 20 out of 32 digits are the groups of 4, 2,
    2, 2 and 6 bytes. *)
Lemma bytesToUuid_spec (bs : list byte) :
  List.length bs = 16%nat -> bytesToUuid bs = Spec.uuid_8_4_4_4_12 bs.
Proof.
  intros Hlen.
  do 16 (destruct bs as [|? bs]; [discriminate Hlen |]).
  destruct bs; [| discriminate Hlen].
  unfold bytesToUuid, hex_of_bytes, Spec.uuid_8_4_4_4_12, Spec.hex_upper.
  cbn [map join fold_right firstn skipn].
  repeat match goal with
         | |- context [hex2 ?b] =>
             let c1 := fresh "c" in let c2 := fresh "c" in
             let E := fresh "E" in let E' := fresh "E" in
             destruct (hex2_shape b) as (c1 & c2 & E & E'); rewrite E, E';
             clear E E'
         end.
  reflexivity.
Qed.

(** ** The iBeacon decoder *)

(** The decoder reads its three fields from a payload of 23 bytes or
    more. *)
Lemma parseIBeacon_decodes (data : DataView) :
  view_ok data ->
  (23 <= byteLength data)%nat ->
  parseIBeacon data
  = ret (IBeacon (Spec.uuid_8_4_4_4_12 (take 16 (drop 2 (view_bytes data))))
           (Spec.uint16_be (view_bytes data) 18)
           (Spec.uint16_be (view_bytes data) 20)).
Proof.
  intros Hok Hlen. unfold parseIBeacon.
  rewrite new_DataView_ok, bind_ret by assumption.
  unfold dv_of at 1 2; cbn [buffer byteOffset].
  rewrite new_Uint8Array_ok, bind_ret by (assumption || lia).
  rewrite !getUint16_dv, !bind_ret by (assumption || lia).
  rewrite bytesToUuid_spec; [reflexivity |].
  rewrite length_take, length_drop, view_bytes_length by assumption. lia.
Qed.

(** Claim C4. For every manufacturer payload of length at least 23 whose
    bytes 0 and 1 are 0x02 and 0x15, the guard of [handleAdvertisement] lets
    the payload through and [parseIBeacon] returns the record whose UUID is
    bytes 2 to 17 in upper-case hexadecimal grouped 8-4-4-4-12, whose major
    is the big-endian 16-bit number at byte 18 and whose minor is the one at
    byte 20. *)
Theorem parseIBeacon_fields (data : DataView) :
  view_ok data ->
  (23 <= byteLength data)%nat ->
  Spec.byte_at (view_bytes data) 0 = 0x02 ->
  Spec.byte_at (view_bytes data) 1 = 0x15 ->
  iBeacon_prefix data = ret true
  /\ parseIBeacon data
     = ret (IBeacon (Spec.uuid_8_4_4_4_12 (take 16 (drop 2 (view_bytes data))))
              (Spec.uint16_be (view_bytes data) 18)
              (Spec.uint16_be (view_bytes data) 20)).
Proof.
  intros Hok Hlen Hmagic0 Hmagic1. split.
  - unfold iBeacon_prefix.
    destruct (Nat.leb_spec 23 (byteLength data)); [| lia].
    rewrite getUint8_data, bind_ret, Hmagic0 by (assumption || lia).
    cbn [Z.eqb Pos.eqb].
    rewrite getUint8_data, bind_ret, Hmagic1 by (assumption || lia).
    reflexivity.
  - now apply parseIBeacon_decodes.
Qed.

Lemma parseIBeacon_example1 :
  view_ok (view_of example1)
  /\ (23 <= byteLength (view_of example1))%nat
  /\ Spec.byte_at (view_bytes (view_of example1)) 0 = 0x02
  /\ Spec.byte_at (view_bytes (view_of example1)) 1 = 0x15
  /\ iBeacon_prefix (view_of example1) = ret true
  /\ parseIBeacon (view_of example1)
     = ret (IBeacon "01020304-0506-0708-090A-0B0C0D0E0F10" 1 2).
Proof.
  assert (Hok : view_ok (view_of example1)) by (unfold view_ok; simpl; lia).
  assert (Hlen : (23 <= byteLength (view_of example1))%nat) by (simpl; lia).
  destruct (parseIBeacon_fields (view_of example1) Hok Hlen eq_refl eq_refl)
    as [Hguard Hfields].
  split; [exact Hok |]. split; [exact Hlen |].
  split; [reflexivity |]. split; [reflexivity |].
  split; [exact Hguard | exact Hfields].
Defined.

(** ** The URL decoder *)

Lemma append_cons (c : ascii) (s t : string) :
  String c s +:+ t = String c (s +:+ t).
Proof. reflexivity. Qed.

Lemma append_assoc (s t u : string) : (s +:+ t) +:+ u = s +:+ (t +:+ u).
Proof.
  induction s as [|c s IH]; [reflexivity |].
  now rewrite !append_cons, IH.
Qed.

Lemma append_empty_r (s : string) : s +:+ "" = s.
Proof.
  induction s as [|c s IH]; [reflexivity |].
  now rewrite append_cons, IH.
Qed.

Lemma fromCharCode_byte (b : byte) :
  fromCharCode (u8 b) = String (ascii_of_byte b) "".
Proof. destruct b; reflexivity. Qed.

Lemma ascii_of_byte_code (b : byte) :
  Z.of_nat (nat_of_ascii (ascii_of_byte b)) = u8 b.
Proof. destruct b; reflexivity. Qed.

Lemma expand_all_app (table : list string) (bs cs : list byte) :
  Spec.expand_all table (bs ++ cs)
  = Spec.expand_all table bs +:+ Spec.expand_all table cs.
Proof.
  induction bs as [|b bs IH]; cbn [Spec.expand_all app]; [reflexivity |].
  now rewrite IH, append_assoc.
Qed.

Section UrlDecoder.

Variable expansions : list string.
Variable dataView : DataView.
Hypothesis dataView_ok : view_ok dataView.

(** One turn of the loop appends what the byte stands for. *)
Lemma loop_body (url : string) (b : byte) :
  (if u8 b <? Z.of_nat (List.length expansions)
   then url +:+ default "" (expansions !! Z.to_nat (u8 b))
   else url +:+ fromCharCode (u8 b))
  = url +:+ Spec.expand expansions b.
Proof.
  unfold Spec.expand.
  destruct (u8 b <? Z.of_nat (List.length expansions)).
  - f_equal. rewrite <- nth_lookup. reflexivity.
  - now rewrite fromCharCode_byte.
Qed.

Lemma decode_loop_spec (n i : nat) (url : string) :
  (i + n <= byteLength dataView)%nat ->
  decode_loop expansions dataView i n url
  = ret (url +:+ Spec.expand_all expansions
                   (take n (drop i (view_bytes dataView)))).
Proof.
  revert i url. induction n as [|n IH]; intros i url Hi.
  - cbn [decode_loop]. rewrite firstn_O. cbn [Spec.expand_all].
    now rewrite append_empty_r.
  - cbn [decode_loop].
    rewrite getUint8_data, bind_ret by (assumption || lia).
    rewrite (window_split (view_bytes dataView) i)
      by (rewrite view_bytes_length; assumption || lia).
    unfold Spec.byte_at at 1 2 3.
    rewrite loop_body, IH by lia.
    cbn [firstn Spec.expand_all]. now rewrite append_assoc.
Qed.

Lemma scheme_prefix (code : Z) :
  0 <= code ->
  (if code <? Z.of_nat (List.length schemes)
   then "" +:+ default "" (schemes !! Z.to_nat code) else "")
  = Spec.scheme code.
Proof.
  intros Hc.
  destruct (Z.eq_dec code 0) as [->|]; [reflexivity |].
  destruct (Z.eq_dec code 1) as [->|]; [reflexivity |].
  destruct (Z.eq_dec code 2) as [->|]; [reflexivity |].
  destruct (Z.eq_dec code 3) as [->|]; [reflexivity |].
  destruct (Z.ltb_spec code (Z.of_nat (List.length schemes))) as [H|H];
    [simpl in H; lia |].
  destruct code as [|p|p]; try lia.
  do 3 (destruct p; try reflexivity; try lia).
Qed.

Lemma decodeEddystoneUrl_with_spec :
  (3 <= byteLength dataView)%nat ->
  decodeEddystoneUrl_with expansions dataView
  = ret (Spec.scheme (Spec.byte_at (view_bytes dataView) 2)
         +:+ Spec.expand_all expansions (drop 3 (view_bytes dataView))).
Proof.
  intros Hlen. unfold decodeEddystoneUrl_with.
  rewrite getUint8_data, bind_ret by (assumption || lia).
  rewrite scheme_prefix by apply byte_at_range.
  rewrite decode_loop_spec by lia.
  rewrite firstn_all2; [reflexivity |].
  rewrite length_drop, view_bytes_length by assumption. lia.
Qed.

End UrlDecoder.

(** Claim C7. In every revision the decoded URL is the prefix of the scheme
    code at offset 2 (one of the four prefixes for the codes 0 to 3, nothing
    for a code of 4 or more) followed by what the bytes from offset 3 on
    stand for, byte by byte: the table entry for a value inside the
    expansion table. *)
Theorem decodeEddystoneUrl_scheme_and_table (dataView : DataView) :
  view_ok dataView ->
  (3 <= byteLength dataView)%nat ->
  let code := Spec.byte_at (view_bytes dataView) 2 in
  let rest := drop 3 (view_bytes dataView) in
  V1.decodeEddystoneUrl dataView
    = ret (Spec.scheme code +:+ Spec.expand_all V1.expansions rest)
  /\ V2.decodeEddystoneUrl dataView
    = ret (Spec.scheme code +:+ Spec.expand_all V2.expansions rest)
  /\ V3.decodeEddystoneUrl dataView
    = ret (Spec.scheme code +:+ Spec.expand_all V3.expansions rest)
  /\ (4 <= code -> Spec.scheme code = "").
Proof.
  intros Hok Hlen code rest.
  repeat split; try (apply decodeEddystoneUrl_with_spec; assumption).
  intros Hcode. destruct code as [|p|p]; try lia.
  do 3 (destruct p; try reflexivity; try lia).
Qed.

Lemma decodeEddystoneUrl_example2 :
  view_ok (view_of example2)
  /\ (3 <= byteLength (view_of example2))%nat
  /\ V1.decodeEddystoneUrl (view_of example2) = ret "http://www.example.com/"
  /\ V2.decodeEddystoneUrl (view_of example2) = ret "http://www.example.com/"
  /\ V3.decodeEddystoneUrl (view_of example2) = ret "http://www.example.com/".
Proof.
  assert (Hok : view_ok (view_of example2)) by (unfold view_ok; simpl; lia).
  assert (Hlen : (3 <= byteLength (view_of example2))%nat) by (simpl; lia).
  destruct (decodeEddystoneUrl_scheme_and_table (view_of example2) Hok Hlen)
    as (H1 & H2 & H3 & _).
  split; [exact Hok |]. split; [exact Hlen |].
  split; [exact H1 |]. split; [exact H2 | exact H3].
Defined.

(** The whole frame of Example 2 through [parseEddystone]. *)
Lemma parseEddystone_example2 :
  V1.parseEddystone (view_of example2)
    = ret (Some (EddystoneURL "http://www.example.com/"))
  /\ V2.parseEddystone (view_of example2)
    = ret (Some (EddystoneURL "http://www.example.com/"))
  /\ V3.parseEddystone (view_of example2)
    = ret (Some (EddystoneURL "http://www.example.com/")).
Proof. repeat split; reflexivity. Qed.

Lemma expand_literal (table : list string) (b : byte) :
  Z.of_nat (List.length table) <= u8 b ->
  Spec.expand table b = String (ascii_of_byte b) "".
Proof.
  intros Hb. unfold Spec.expand.
  destruct (Z.ltb_spec (u8 b) (Z.of_nat (List.length table))); [lia | reflexivity].
Qed.

Lemma expand_all_literal (table : list string) (bs : list byte) (i : nat) (b : byte) :
  bs !! i = Some b ->
  Z.of_nat (List.length table) <= u8 b ->
  Spec.expand_all table bs
  = Spec.expand_all table (take i bs)
    +:+ String (ascii_of_byte b) (Spec.expand_all table (drop (S i) bs)).
Proof.
  intros Hb Hlit.
  rewrite <- (take_drop_middle bs i b Hb) at 1.
  rewrite expand_all_app. cbn [Spec.expand_all].
  now rewrite expand_literal.
Qed.

(** Claim C10. A byte at an index of 3 or more whose value is 14 or more
    (the length of the expansion table) contributes exactly one character,
    the one whose code is the value of the byte, whatever the value: the
    URL is what the bytes before it decode to, that character, and what the
    bytes after it decode to. *)
Theorem decodeEddystoneUrl_literal_byte (dataView : DataView) (i : nat) (b : byte) :
  view_ok dataView ->
  (3 <= i)%nat ->
  view_bytes dataView !! i = Some b ->
  14 <= u8 b ->
  let code := Spec.byte_at (view_bytes dataView) 2 in
  let before := take (i - 3) (drop 3 (view_bytes dataView)) in
  let after := drop (S i) (view_bytes dataView) in
  exists ch : ascii,
    Z.of_nat (nat_of_ascii ch) = u8 b
    /\ V1.decodeEddystoneUrl dataView
       = ret ((Spec.scheme code +:+ Spec.expand_all V1.expansions before)
              +:+ String ch (Spec.expand_all V1.expansions after))
    /\ V2.decodeEddystoneUrl dataView
       = ret ((Spec.scheme code +:+ Spec.expand_all V2.expansions before)
              +:+ String ch (Spec.expand_all V2.expansions after))
    /\ V3.decodeEddystoneUrl dataView
       = ret ((Spec.scheme code +:+ Spec.expand_all V3.expansions before)
              +:+ String ch (Spec.expand_all V3.expansions after)).
Proof.
  intros Hok Hi Hb Hlit code before after.
  assert (Hlen : (i < byteLength dataView)%nat).
  { rewrite <- (view_bytes_length dataView Hok). eapply lookup_lt_Some; eassumption. }
  assert (Hrest : drop 3 (view_bytes dataView) !! (i - 3)%nat = Some b).
  { rewrite lookup_drop. replace (3 + (i - 3))%nat with i by lia. exact Hb. }
  assert (Hafter : drop (S (i - 3)) (drop 3 (view_bytes dataView)) = after).
  { rewrite drop_drop. unfold after. f_equal. lia. }
  exists (ascii_of_byte b). split; [apply ascii_of_byte_code |].
  unfold V1.decodeEddystoneUrl, V2.decodeEddystoneUrl, V3.decodeEddystoneUrl.
  rewrite !decodeEddystoneUrl_with_spec by (assumption || lia).
  rewrite (expand_all_literal V1.expansions _ _ _ Hrest) by exact Hlit.
  rewrite (expand_all_literal V2.expansions _ _ _ Hrest) by exact Hlit.
  rewrite (expand_all_literal V3.expansions _ _ _ Hrest) by exact Hlit.
  rewrite Hafter, !append_assoc. repeat split; reflexivity.
Qed.

Lemma decodeEddystoneUrl_literal_example :
  view_ok (view_of literal_bytes)
  /\ (3 <= 4)%nat
  /\ view_bytes (view_of literal_bytes) !! 4%nat = Some xff
  /\ 14 <= u8 xff
  /\ exists ch : ascii,
       Z.of_nat (nat_of_ascii ch) = 255
       /\ V1.decodeEddystoneUrl (view_of literal_bytes)
          = ret ("http://" +:+ String (ascii_of_nat 31) (String ch (String (ascii_of_nat 14) "")))
       /\ V2.decodeEddystoneUrl (view_of literal_bytes)
          = ret ("http://" +:+ String (ascii_of_nat 31) (String ch (String (ascii_of_nat 14) "")))
       /\ V3.decodeEddystoneUrl (view_of literal_bytes)
          = ret ("http://" +:+ String (ascii_of_nat 31) (String ch (String (ascii_of_nat 14) ""))).
Proof.
  assert (Hok : view_ok (view_of literal_bytes)) by (unfold view_ok; simpl; lia).
  assert (Hi : (3 <= 4)%nat) by lia.
  assert (Hlit : 14 <= u8 xff) by (vm_compute; discriminate).
  split; [exact Hok |]. split; [exact Hi |]. split; [reflexivity |].
  split; [exact Hlit |].
  exact (decodeEddystoneUrl_literal_byte (view_of literal_bytes) 4 xff
           Hok Hi eq_refl Hlit).
Defined.

(** ** The Eddystone decoder, frame by frame *)

Section Eddystone.

Variable data : DataView.
Hypothesis data_ok : view_ok data.

Lemma dv_ok : view_ok (dv_of data).
Proof. unfold view_ok, dv_of in *; simpl. lia. Qed.

Lemma dv_length : (byteLength data <= byteLength (dv_of data))%nat.
Proof. unfold view_ok, dv_of in *; simpl. lia. Qed.

Lemma dv_bytes : view_bytes (dv_of data) = drop (byteOffset data) (buffer data).
Proof.
  unfold view_bytes, dv_of; simpl. apply firstn_all2. rewrite length_drop. lia.
Qed.

(** A view that covers its buffer to the end, as the views of a fresh
    buffer do, is its own [dv]. *)
Lemma dv_bytes_whole :
  (byteOffset data + byteLength data = List.length (buffer data))%nat ->
  view_bytes (dv_of data) = view_bytes data.
Proof.
  intros H. rewrite dv_bytes. unfold view_bytes. symmetry.
  apply firstn_all2. rewrite length_drop. lia.
Qed.

Lemma byte_at_dv (i : nat) :
  (i < byteLength data)%nat ->
  Spec.byte_at (view_bytes (dv_of data)) i = Spec.byte_at (view_bytes data) i.
Proof.
  intros Hi. unfold Spec.byte_at. f_equal. f_equal.
  rewrite dv_bytes. unfold view_bytes. now rewrite lookup_take_lt by lia.
Qed.

Lemma V3_parseEddystone_empty :
  byteLength (dv_of data) = 0%nat -> V3.parseEddystone data = ret None.
Proof.
  intros H. unfold V3.parseEddystone.
  rewrite new_DataView_ok, bind_ret by assumption. now rewrite H.
Qed.

Lemma V3_parseEddystone_frame :
  byteLength (dv_of data) <> 0%nat ->
  V3.parseEddystone data
  = let frameType := Spec.byte_at (view_bytes (dv_of data)) 0 in
    if frameType =? 0x00 then
      if (byteLength data <? 18)%nat then ret None
      else ret (Some (UID_of (view_bytes data)))
    else if frameType =? 0x10 then
      if (byteLength data <? 4)%nat then ret None
      else ret (Some (URL_of V3.expansions (view_bytes (dv_of data))))
    else if frameType =? 0x20 then
      if (byteLength data <? 14)%nat then ret None
      else ret (Some (TLM_of (view_bytes data)))
    else (["Unbekannter Eddystone-Frame-Typ: 0x"
           +:+ Number_toString 16 frameType], Returns None).
Proof.
  intros Hne. unfold V3.parseEddystone.
  rewrite new_DataView_ok, bind_ret by assumption.
  destruct (Nat.eqb_spec (byteLength (dv_of data)) 0) as [|_]; [contradiction |].
  rewrite (getUint8_data (dv_of data) dv_ok), bind_ret by lia.
  cbv zeta.
  destruct (Spec.byte_at (view_bytes (dv_of data)) 0 =? 0) eqn:E0.
  { destruct (Nat.ltb_spec (byteLength data) 18); [reflexivity |].
    unfold dv_of; cbn [buffer byteOffset].
    rewrite !new_Uint8Array_ok, !bind_ret by (assumption || lia).
    now rewrite !bytesToHex_spec. }
  destruct (Spec.byte_at (view_bytes (dv_of data)) 0 =? 16) eqn:E1.
  { destruct (Nat.ltb_spec (byteLength data) 4); [reflexivity |].
    unfold V3.decodeEddystoneUrl.
    rewrite decodeEddystoneUrl_with_spec, bind_ret;
      [reflexivity | apply dv_ok | pose proof dv_length; lia]. }
  destruct (Spec.byte_at (view_bytes (dv_of data)) 0 =? 32) eqn:E2.
  { destruct (Nat.ltb_spec (byteLength data) 14); [reflexivity |].
    rewrite getUint16_dv, bind_ret by (assumption || lia).
    rewrite getInt8_dv, bind_ret by (assumption || lia).
    rewrite getUint8_dv, bind_ret by (assumption || lia).
    rewrite !getUint32_dv, !bind_ret by (assumption || lia).
    reflexivity. }
  reflexivity.
Qed.

Lemma V2_parseEddystone_frame :
  byteLength (dv_of data) <> 0%nat ->
  V2.parseEddystone data
  = let frameType := Spec.byte_at (view_bytes (dv_of data)) 0 in
    if frameType =? 0x00 then
      if (byteLength data <? 18)%nat then ret None
      else ret (Some (UID_of (view_bytes data)))
    else if frameType =? 0x10 then
      if (byteLength data <? 4)%nat then ret None
      else ret (Some (URL_of V2.expansions (view_bytes (dv_of data))))
    else if frameType =? 0x20 then
      if (byteLength data <? 14)%nat then ret None
      else ret (Some (TLM_of (view_bytes data)))
    else ret None.
Proof.
  intros Hne. unfold V2.parseEddystone.
  rewrite new_DataView_ok, bind_ret by assumption.
  rewrite (getUint8_data (dv_of data) dv_ok), bind_ret by lia.
  cbv zeta.
  destruct (Spec.byte_at (view_bytes (dv_of data)) 0 =? 0) eqn:E0.
  { destruct (Nat.ltb_spec (byteLength data) 18); [reflexivity |].
    unfold dv_of; cbn [buffer byteOffset].
    rewrite !new_Uint8Array_ok, !bind_ret by (assumption || lia).
    now rewrite !bytesToHex_spec. }
  destruct (Spec.byte_at (view_bytes (dv_of data)) 0 =? 16) eqn:E1.
  { destruct (Nat.ltb_spec (byteLength data) 4); [reflexivity |].
    unfold V2.decodeEddystoneUrl.
    rewrite decodeEddystoneUrl_with_spec, bind_ret;
      [reflexivity | apply dv_ok | pose proof dv_length; lia]. }
  destruct (Spec.byte_at (view_bytes (dv_of data)) 0 =? 32) eqn:E2.
  { destruct (Nat.ltb_spec (byteLength data) 14); [reflexivity |].
    rewrite getUint16_dv, bind_ret by (assumption || lia).
    rewrite getInt8_dv, bind_ret by (assumption || lia).
    rewrite getUint8_dv, bind_ret by (assumption || lia).
    rewrite !getUint32_dv, !bind_ret by (assumption || lia).
    reflexivity. }
  reflexivity.
Qed.

(** A view without bytes up to the end of its buffer makes revision 2 (and
    revision 1) raise at the read of the frame type. *)
Lemma V2_parseEddystone_empty :
  byteLength (dv_of data) = 0%nat -> V2.parseEddystone data = throw RangeError.
Proof.
  intros H. unfold V2.parseEddystone.
  rewrite new_DataView_ok, bind_ret by assumption.
  unfold getUint8, read. now rewrite H.
Qed.

(** Revision 3 of [parseEddystone] completes on every view. *)
Lemma V3_parseEddystone_total :
  exists msgs result, V3.parseEddystone data = (msgs, Returns result).
Proof.
  destruct (Nat.eq_dec (byteLength (dv_of data)) 0%nat) as [H|H].
  - rewrite V3_parseEddystone_empty by assumption. now eexists _, _.
  - rewrite V3_parseEddystone_frame by assumption. cbv zeta.
    repeat match goal with
           | |- context [if ?c then _ else _] => destruct c
           end; now eexists _, _.
Qed.

End Eddystone.

(** ** The RuuviTag decoder *)

Section Ruuvi.

Variable data : DataView.
Hypothesis data_ok : view_ok data.

(** Without a byte to read, [dv.getUint8(0)] raises: [parseRuuviTag] has
    no test like the [dv.byteLength === 0] of [parseEddystone]. *)
Lemma V3_parseRuuviTag_empty :
  byteLength (dv_of data) = 0%nat -> V3.parseRuuviTag data = throw RangeError.
Proof.
  intros H. unfold V3.parseRuuviTag.
  rewrite new_DataView_ok, bind_ret by assumption.
  unfold getUint8, read. now rewrite H.
Qed.

Lemma V3_parseRuuviTag_frame :
  byteLength (dv_of data) <> 0%nat ->
  V3.parseRuuviTag data
  = let format := Spec.byte_at (view_bytes (dv_of data)) 0 in
    if format =? 0x05 then
      if (byteLength data <? 24)%nat then ret None
      else ret (Some (Ruuvi_of (view_bytes data)))
    else (["Unbekanntes RuuviTag-Format: 0x" +:+ Number_toString 16 format],
          Returns None).
Proof.
  intros Hne. unfold V3.parseRuuviTag.
  rewrite new_DataView_ok, bind_ret by assumption.
  rewrite (getUint8_data (dv_of data) (dv_ok data data_ok)), bind_ret by lia.
  cbv zeta.
  destruct (Spec.byte_at (view_bytes (dv_of data)) 0 =? 5) eqn:E; [| reflexivity].
  destruct (Nat.ltb_spec (byteLength data) 24); [reflexivity |].
  rewrite getInt16_dv, bind_ret by (assumption || lia).
  rewrite !getUint16_dv, !bind_ret by (assumption || lia).
  reflexivity.
Qed.

End Ruuvi.

(** ** Short payloads *)

(** Claim C1, at the payloads where it fails. A RuuviTag entry (company
    0x0499) without payload bytes makes [parseRuuviTag] of revision 3 raise
    a [RangeError], which leaves [handleAdvertisement]; so does an Eddystone
    entry (service 0xFEAA) without payload bytes in revisions 1 and 2, and
    an Eddystone-URL frame of fewer than three bytes in revision 1.
    Revision 3 of [parseEddystone] returns no result on the empty payload. *)
Theorem short_payloads_raise (pg : Page) :
  V3.parseRuuviTag (view_of []) = throw RangeError
  /\ V3.handleAdvertisement (manufacturer_packet "tag" (-70) 0x0499 []) pg
     = (Throws RangeError, pg)
  /\ V2.parseEddystone (view_of []) = throw RangeError
  /\ V2.handleAdvertisement (service_packet "tag" (-70) 0xfeaa []) pg
     = (Throws RangeError, pg)
  /\ V1.parseEddystone (view_of []) = throw RangeError
  /\ V1.parseEddystone (view_of [x10; x00]) = throw RangeError
  /\ V1.handleAdvertisement (service_packet "tag" (-70) 0xfeaa [x10; x00]) pg
     = (Throws RangeError, pg)
  /\ V3.parseEddystone (view_of []) = ret None.
Proof.
  repeat split; reflexivity.
Qed.

(** [parseIBeacon] alone raises on a short payload too; the test in
    [handleAdvertisement] keeps short payloads away from it. *)
Lemma parseIBeacon_short_raises :
  parseIBeacon (view_of [x02; x15; x00; x00; x00]) = throw RangeError
  /\ iBeacon_prefix (view_of [x02; x15; x00; x00; x00]) = ret false.
Proof. split; reflexivity. Qed.

(** The test never raises, and what it lets through is decoded. *)
Lemma iBeacon_rule_total (data : DataView) :
  view_ok data ->
  iBeacon_prefix data = ret false
  \/ (iBeacon_prefix data = ret true
      /\ exists beacon, parseIBeacon data = ret beacon).
Proof.
  intros Hok. unfold iBeacon_prefix.
  destruct (Nat.leb_spec 23 (byteLength data)) as [Hlen|]; [| now left].
  rewrite getUint8_data, bind_ret by (assumption || lia).
  destruct (Spec.byte_at (view_bytes data) 0 =? 2) eqn:E0; [| now left].
  rewrite getUint8_data, bind_ret by (assumption || lia).
  destruct (Spec.byte_at (view_bytes data) 1 =? 21) eqn:E1; [| now left].
  right. split; [reflexivity |].
  eexists. now apply parseIBeacon_decodes.
Qed.

(** ** Which computations log *)

Lemma silent_ret {A} (a : A) : silent (ret a).
Proof. reflexivity. Qed.

Lemma silent_throw {A} (e : Error) : silent (@throw A e).
Proof. reflexivity. Qed.

Lemma silent_bind {A B} (m : Logged A) (k : A -> Logged B) :
  silent m -> (forall a, silent (k a)) -> silent (bind m k).
Proof.
  unfold silent, bind. destruct m as [msgs [a|e]]; simpl; intros -> Hk;
    [| reflexivity].
  specialize (Hk a). destruct (k a) as [msgs' r]. simpl in *. now subst.
Qed.

Lemma silent_if {A} (c : bool) (m1 m2 : Logged A) :
  silent m1 -> silent m2 -> silent (if c then m1 else m2).
Proof. now destruct c. Qed.

Lemma quiet_bind {A B} (m : Logged A) (k : A -> Logged (option B)) :
  silent m -> (forall a, quiet (k a)) -> quiet (bind m k).
Proof.
  unfold silent, quiet, bind. destruct m as [msgs [a|e]]; simpl; intros -> Hk;
    [| discriminate].
  intros msgs b. specialize (Hk a). destruct (k a) as [msgs' r]. simpl.
  intros [= <- ->]. eauto.
Qed.

Lemma quiet_silent {A} (m : Logged (option A)) : silent m -> quiet m.
Proof. unfold silent, quiet. intros H msgs b ->. exact H. Qed.

Lemma quiet_none {A} (msgs : list string) : quiet (A := A) (msgs, Returns None).
Proof. intros ? ? [=]. Qed.

Lemma quiet_if {A} (c : bool) (m1 m2 : Logged (option A)) :
  quiet m1 -> quiet m2 -> quiet (if c then m1 else m2).
Proof. now destruct c. Qed.

Lemma silent_read (dv : DataView) (i w : nat) : silent (read dv i w).
Proof. unfold read. apply silent_if; reflexivity. Qed.

Ltac silence :=
  repeat first
    [ apply silent_ret | apply silent_throw | apply silent_read
    | apply silent_if
    | apply silent_bind; [| intros ?] ].

Lemma silent_getUint8 (dv : DataView) (i : nat) : silent (getUint8 dv i).
Proof. unfold getUint8. silence. Qed.

Lemma silent_getInt8 (dv : DataView) (i : nat) : silent (getInt8 dv i).
Proof. unfold getInt8. silence. Qed.

Lemma silent_getUint16 (dv : DataView) (i : nat) : silent (getUint16 dv i).
Proof. unfold getUint16. silence. Qed.

Lemma silent_getInt16 (dv : DataView) (i : nat) : silent (getInt16 dv i).
Proof. unfold getInt16. silence. Qed.

Lemma silent_getUint32 (dv : DataView) (i : nat) : silent (getUint32 dv i).
Proof. unfold getUint32. silence. Qed.

Lemma silent_new_DataView (buf : list byte) (off : nat) :
  silent (new_DataView buf off).
Proof. unfold new_DataView. silence. Qed.

Lemma silent_new_Uint8Array (buf : list byte) (off len : nat) :
  silent (new_Uint8Array buf off len).
Proof. unfold new_Uint8Array. silence. Qed.

Lemma silent_decode_loop (expansions : list string) (dv : DataView)
    (n i : nat) (url : string) :
  silent (decode_loop expansions dv i n url).
Proof.
  revert i url. induction n as [|n IH]; intros i url; cbn [decode_loop].
  - apply silent_ret.
  - apply silent_bind; [apply silent_getUint8 | intros code; apply IH].
Qed.

Lemma silent_decodeEddystoneUrl_with (expansions : list string) (dv : DataView) :
  silent (decodeEddystoneUrl_with expansions dv).
Proof.
  unfold decodeEddystoneUrl_with.
  apply silent_bind; [apply silent_getUint8 | intros; apply silent_decode_loop].
Qed.

Lemma silent_parseIBeacon (data : DataView) : silent (parseIBeacon data).
Proof.
  unfold parseIBeacon.
  repeat first
    [ apply silent_ret | apply silent_new_DataView | apply silent_new_Uint8Array
    | apply silent_getUint16 | apply silent_bind; [| intros ?] ].
Qed.

Lemma silent_iBeacon_prefix (data : DataView) : silent (iBeacon_prefix data).
Proof.
  unfold iBeacon_prefix.
  repeat first
    [ apply silent_ret | apply silent_getUint8 | apply silent_if
    | apply silent_bind; [| intros ?] ].
Qed.

Ltac quieten :=
  repeat first
    [ apply quiet_none
    | apply quiet_silent; apply silent_ret
    | apply quiet_if
    | apply quiet_bind;
      [ first [ apply silent_new_DataView | apply silent_new_Uint8Array
              | apply silent_getUint8 | apply silent_getInt8
              | apply silent_getUint16 | apply silent_getInt16
              | apply silent_getUint32 | apply silent_parseIBeacon
              | apply silent_iBeacon_prefix
              | apply silent_decodeEddystoneUrl_with ]
      | intros ? ] ].

Lemma quiet_V1_parseEddystone (data : DataView) : quiet (V1.parseEddystone data).
Proof. unfold V1.parseEddystone, V1.decodeEddystoneUrl. quieten. Qed.

Lemma quiet_V2_parseEddystone (data : DataView) : quiet (V2.parseEddystone data).
Proof. unfold V2.parseEddystone, V2.decodeEddystoneUrl. quieten. Qed.

Lemma quiet_V3_parseEddystone (data : DataView) : quiet (V3.parseEddystone data).
Proof. unfold V3.parseEddystone, V3.decodeEddystoneUrl, say. quieten. Qed.

Lemma quiet_V3_parseRuuviTag (data : DataView) : quiet (V3.parseRuuviTag data).
Proof. unfold V3.parseRuuviTag, say. quieten. Qed.

Lemma quiet_V1_classify (event : AdvertisementEvent) : quiet (V1.classify event).
Proof.
  unfold V1.classify.
  destruct (manufacturerData event !! 76); [quieten |].
  destruct (serviceData event !! 65194);
    [apply quiet_V1_parseEddystone | apply quiet_none].
Qed.

Lemma quiet_V2_classify (event : AdvertisementEvent) : quiet (V2.classify event).
Proof.
  unfold V2.classify.
  destruct (manufacturerData event !! 76); [quieten |].
  destruct (serviceData event !! 65194);
    [apply quiet_V2_parseEddystone | apply quiet_none].
Qed.

Lemma quiet_V3_classify (event : AdvertisementEvent) : quiet (V3.classify event).
Proof.
  unfold V3.classify.
  destruct (manufacturerData event !! 76); [quieten |].
  destruct (serviceData event !! 65194); [apply quiet_V3_parseEddystone |].
  destruct (manufacturerData event !! 1177); [apply quiet_V3_parseRuuviTag |].
  quieten.
Qed.

(** ** The registry *)

Lemma discoveredDevices_log (msg : string) (pg : Page) :
  discoveredDevices (log msg pg) = discoveredDevices pg.
Proof. reflexivity. Qed.

Lemma discoveredDevices_log_all (msgs : list string) (pg : Page) :
  discoveredDevices (log_all msgs pg) = discoveredDevices pg.
Proof.
  revert pg. induction msgs as [|msg msgs IH]; intros pg; [reflexivity |].
  cbn [log_all fold_left]. fold (log_all msgs (log msg pg)). now rewrite IH.
Qed.

(** Logging leaves the records, the cards and [resultsDiv] as they are. *)
Lemma same_cards_log (msg : string) (pg : Page) : same_cards pg (log msg pg).
Proof. now repeat split. Qed.

Lemma same_cards_trans (pg1 pg2 pg3 : Page) :
  same_cards pg1 pg2 -> same_cards pg2 pg3 -> same_cards pg1 pg3.
Proof. unfold same_cards. intros (? & ? & ?) (? & ? & ?). repeat split; congruence. Qed.

Lemma same_cards_log_all (msgs : list string) (pg : Page) :
  same_cards pg (log_all msgs pg).
Proof.
  revert pg. induction msgs as [|msg msgs IH]; intros pg; [now repeat split |].
  cbn [log_all fold_left]. fold (log_all msgs (log msg pg)).
  eapply same_cards_trans; [apply same_cards_log | apply IH].
Qed.

Lemma V2_unusable_same_cards (event : AdvertisementEvent) (pg : Page) :
  same_cards pg (snd (V2.unusable event pg)).
Proof.
  unfold V2.unusable.
  destruct (serviceData event !! 65194) as [data|]; [| now repeat split].
  destruct (V2.parseEddystone data) as [msgs [tlmData|e]]; cbn [snd];
    [| apply same_cards_log_all].
  destruct (_ && _); cbn [snd]; [| apply same_cards_log_all].
  eapply same_cards_trans; [apply same_cards_log_all | apply same_cards_log].
Qed.

Lemma has_device_true (deviceId : string) (pg : Page) :
  has_device deviceId pg = true <-> is_Some (discoveredDevices pg !! deviceId).
Proof. unfold has_device. apply bool_decide_eq_true. Qed.

Lemma has_device_false (deviceId : string) (pg : Page) :
  has_device deviceId pg = false <-> discoveredDevices pg !! deviceId = None.
Proof.
  unfold has_device. rewrite bool_decide_eq_false, <- eq_None_not_Some. tauto.
Qed.

(** A device that has a record: the card is refreshed, nothing else. *)
Lemma update_UI_known (event : AdvertisementEvent) (beaconData : Beacon)
    (pg : Page) (existing : Entry) :
  discoveredDevices pg !! dev_id (device event) = Some existing ->
  update_UI event (negb (has_device (dev_id (device event)) pg)) beaconData pg
  = (Returns tt, updateBeaconCardRSSI (cardElement existing) (rssi event) pg).
Proof.
  intros H. unfold update_UI.
  assert (Hhas : has_device (dev_id (device event)) pg = true)
    by (apply has_device_true; eauto).
  rewrite Hhas. cbn [negb]. now rewrite H.
Qed.

(** A device without a record: one record is added, for a new card. *)
Lemma update_UI_new (event : AdvertisementEvent) (beaconData : Beacon) (pg : Page) :
  discoveredDevices pg !! dev_id (device event) = None ->
  exists pg',
    update_UI event (negb (has_device (dev_id (device event)) pg)) beaconData pg
    = (Returns tt, pg')
    /\ discoveredDevices pg'
       = <[dev_id (device event) :=
             {| entry_device := device event;
                cardElement := List.length (elements pg);
                entry_type := type beaconData |}]> (discoveredDevices pg)
    /\ elements pg'
       = elements pg ++ [{| data_device_id := dev_id (device event);
                            card_beacon := beaconData;
                            rssi_value := rssi event |}]
    /\ resultsDiv pg' = List.length (elements pg) :: resultsDiv pg.
Proof.
  intros H. unfold update_UI.
  assert (Hhas : has_device (dev_id (device event)) pg = false)
    by (now apply has_device_false).
  rewrite Hhas. cbn [negb]. eexists. split; [reflexivity |].
  repeat split.
Qed.

(** What one advertisement does, by the outcome of its classification. *)
Section Handling.

Variable event : AdvertisementEvent.
Variable pg : Page.

Lemma V1_handle_beacon (msgs : list string) (beaconData : Beacon) :
  V1.classify event = (msgs, Returns (Some beaconData)) ->
  V1.handleAdvertisement event pg
  = update_UI event (negb (has_device (dev_id (device event)) pg)) beaconData pg.
Proof.
  intros H. unfold V1.handleAdvertisement.
  rewrite H, (quiet_V1_classify event _ _ H). reflexivity.
Qed.

Lemma V2_handle_beacon (msgs : list string) (beaconData : Beacon) :
  V2.classify event = (msgs, Returns (Some beaconData)) ->
  V2.handleAdvertisement event pg
  = update_UI event (negb (has_device (dev_id (device event)) pg)) beaconData pg.
Proof.
  intros H. unfold V2.handleAdvertisement.
  rewrite H, (quiet_V2_classify event _ _ H). reflexivity.
Qed.

Lemma V3_handle_beacon (msgs : list string) (beaconData : Beacon) :
  V3.classify event = (msgs, Returns (Some beaconData)) ->
  V3.handleAdvertisement event pg
  = update_UI event (negb (has_device (dev_id (device event)) pg)) beaconData pg.
Proof.
  intros H. unfold V3.handleAdvertisement.
  rewrite H, (quiet_V3_classify event _ _ H). reflexivity.
Qed.

(** Without a beacon the map is not touched: the handler returns or raises
    after, at most, some logging. *)
Lemma V1_handle_nothing :
  (forall beaconData, snd (V1.classify event) <> Returns (Some beaconData)) ->
  discoveredDevices (snd (V1.handleAdvertisement event pg)) = discoveredDevices pg.
Proof.
  intros H. unfold V1.handleAdvertisement.
  destruct (V1.classify event) as [msgs [[b|]|e]]; cbn [snd] in *;
    [now destruct (H b) | |]; apply discoveredDevices_log_all.
Qed.

Lemma V2_unusable_keeps_map (pg' : Page) :
  discoveredDevices (snd (V2.unusable event pg')) = discoveredDevices pg'.
Proof.
  unfold V2.unusable.
  destruct (serviceData event !! 65194) as [data|]; [| reflexivity].
  destruct (V2.parseEddystone data) as [msgs [tlmData|e]]; cbn [snd];
    [| apply discoveredDevices_log_all].
  destruct (_ && _); cbn [snd]; rewrite ?discoveredDevices_log;
    apply discoveredDevices_log_all.
Qed.

Lemma V2_handle_nothing :
  (forall beaconData, snd (V2.classify event) <> Returns (Some beaconData)) ->
  discoveredDevices (snd (V2.handleAdvertisement event pg)) = discoveredDevices pg.
Proof.
  intros H. unfold V2.handleAdvertisement.
  destruct (V2.classify event) as [msgs [[b|]|e]]; cbn [snd] in *;
    [now destruct (H b) | |].
  - rewrite V2_unusable_keeps_map. apply discoveredDevices_log_all.
  - apply discoveredDevices_log_all.
Qed.

Lemma V3_handle_nothing :
  (forall beaconData, snd (V3.classify event) <> Returns (Some beaconData)) ->
  discoveredDevices (snd (V3.handleAdvertisement event pg)) = discoveredDevices pg.
Proof.
  intros H. unfold V3.handleAdvertisement.
  destruct (V3.classify event) as [msgs [[b|]|e]]; cbn [snd] in *;
    [now destruct (H b) | |]; apply discoveredDevices_log_all.
Qed.

End Handling.

(** Claim C3. When the device of an advertisement has a record and the
    advertisement classifies as a beacon of whatever kind, the handler of
    each revision returns after refreshing the RSSI text of the card of that
    record: the map (so the record and its [type]) is as before, the
    children of [resultsDiv] and the debug window are as before, the card of
    the record has the new RSSI and its other parts are as before, and the
    other cards are as before. *)
Theorem known_device_rssi_only (event : AdvertisementEvent) (pg : Page)
    (existing : Entry) :
  discoveredDevices pg !! dev_id (device event) = Some existing ->
  let after := updateBeaconCardRSSI (cardElement existing) (rssi event) pg in
  (forall msgs beaconData,
     V1.classify event = (msgs, Returns (Some beaconData)) ->
     V1.handleAdvertisement event pg = (Returns tt, after))
  /\ (forall msgs beaconData,
     V2.classify event = (msgs, Returns (Some beaconData)) ->
     V2.handleAdvertisement event pg = (Returns tt, after))
  /\ (forall msgs beaconData,
     V3.classify event = (msgs, Returns (Some beaconData)) ->
     V3.handleAdvertisement event pg = (Returns tt, after))
  /\ discoveredDevices after = discoveredDevices pg
  /\ discoveredDevices after !! dev_id (device event) = Some existing
  /\ resultsDiv after = resultsDiv pg
  /\ debugLog after = debugLog pg
  /\ (forall card, elements pg !! cardElement existing = Some card ->
        elements after !! cardElement existing
        = Some {| data_device_id := data_device_id card;
                  card_beacon := card_beacon card;
                  rssi_value := rssi event |})
  /\ (forall ref, ref <> cardElement existing ->
        elements after !! ref = elements pg !! ref).
Proof.
  intros Hknown after.
  split; [| split; [| split]].
  - intros msgs b H. rewrite (V1_handle_beacon event pg msgs b H).
    now apply update_UI_known.
  - intros msgs b H. rewrite (V2_handle_beacon event pg msgs b H).
    now apply update_UI_known.
  - intros msgs b H. rewrite (V3_handle_beacon event pg msgs b H).
    now apply update_UI_known.
  - repeat split; try exact Hknown.
    + intros card Hcard. unfold after, updateBeaconCardRSSI; cbn [elements].
      rewrite list_lookup_alter_eq, Hcard. reflexivity.
    + intros ref Hne. unfold after, updateBeaconCardRSSI; cbn [elements].
      now rewrite list_lookup_alter_ne.
Qed.

Lemma known_device_rssi_only_example :
  discoveredDevices page_after_first !! dev_id (device second_sight)
  = Some {| entry_device := {| dev_id := "device-A" |};
            cardElement := 0; entry_type := "iBeacon" |}
  /\ V3.classify second_sight
     = ([], Returns (Some (EddystoneURL "http://www.example.com/")))
  /\ V3.handleAdvertisement second_sight page_after_first
     = (Returns tt, updateBeaconCardRSSI 0 (-75) page_after_first)
  /\ elements (updateBeaconCardRSSI 0 (-75) page_after_first) !! 0%nat
     = Some {| data_device_id := "device-A";
               card_beacon := IBeacon "01020304-0506-0708-090A-0B0C0D0E0F10" 1 2;
               rssi_value := -75 |}.
Proof.
  assert (Hknown :
    discoveredDevices page_after_first !! dev_id (device second_sight)
    = Some {| entry_device := {| dev_id := "device-A" |};
              cardElement := 0; entry_type := "iBeacon" |})
    by (vm_compute; reflexivity).
  assert (Hclass : V3.classify second_sight
     = ([], Returns (Some (EddystoneURL "http://www.example.com/"))))
    by (vm_compute; reflexivity).
  destruct (known_device_rssi_only second_sight page_after_first _ Hknown)
    as (_ & _ & H3 & _ & _ & _ & _ & Hcard & _).
  split; [exact Hknown |]. split; [exact Hclass |].
  split; [exact (H3 _ _ Hclass) |].
  exact (Hcard _ eq_refl).
Defined.

(** ** The session *)

Lemma registry_step_update_UI (event : AdvertisementEvent) (b : Beacon) (pg : Page) :
  let pg' := snd (update_UI event (negb (has_device (dev_id (device event)) pg)) b pg) in
  if negb (has_device (dev_id (device event)) pg)
  then exists entry,
         discoveredDevices pg'
         = <[dev_id (device event) := entry]> (discoveredDevices pg)
  else discoveredDevices pg' = discoveredDevices pg.
Proof.
  destruct (has_device (dev_id (device event)) pg) eqn:Hhas; cbn [negb].
  - destruct (proj1 (has_device_true _ _) Hhas) as [existing Hex].
    pose proof (update_UI_known event b pg existing Hex) as H.
    rewrite Hhas in H. cbn [negb] in H. now rewrite H.
  - pose proof (proj1 (has_device_false _ _) Hhas) as Hnone.
    destruct (update_UI_new event b pg Hnone) as (pg' & H & Hmap & _).
    rewrite Hhas in H. cbn [negb] in H. rewrite H. eexists. exact Hmap.
Qed.

Lemma classified_spec (classify : AdvertisementEvent -> Logged (option Beacon))
    (event : AdvertisementEvent) :
  if classified classify event
  then exists msgs b, classify event = (msgs, Returns (Some b))
  else forall b, snd (classify event) <> Returns (Some b).
Proof.
  unfold classified. destruct (classify event) as [msgs [[b|]|e]]; cbn [snd];
    eauto; intros b'; discriminate.
Qed.

Lemma V1_registry_step : registry_step V1.classify V1.handleAdvertisement.
Proof.
  intros event pg pg' deviceId. unfold pg', step.
  pose proof (classified_spec V1.classify event) as Hc.
  destruct (classified V1.classify event); cbn [andb].
  - destruct Hc as (msgs & b & Hc). rewrite (V1_handle_beacon event pg msgs b Hc).
    apply registry_step_update_UI.
  - now apply V1_handle_nothing.
Qed.

Lemma V2_registry_step : registry_step V2.classify V2.handleAdvertisement.
Proof.
  intros event pg pg' deviceId. unfold pg', step.
  pose proof (classified_spec V2.classify event) as Hc.
  destruct (classified V2.classify event); cbn [andb].
  - destruct Hc as (msgs & b & Hc). rewrite (V2_handle_beacon event pg msgs b Hc).
    apply registry_step_update_UI.
  - now apply V2_handle_nothing.
Qed.

Lemma V3_registry_step : registry_step V3.classify V3.handleAdvertisement.
Proof.
  intros event pg pg' deviceId. unfold pg', step.
  pose proof (classified_spec V3.classify event) as Hc.
  destruct (classified V3.classify event); cbn [andb].
  - destruct Hc as (msgs & b & Hc). rewrite (V3_handle_beacon event pg msgs b Hc).
    apply registry_step_update_UI.
  - now apply V3_handle_nothing.
Qed.

Lemma classified_ids_app
    (classify : AdvertisementEvent -> Logged (option Beacon))
    (events events' : list AdvertisementEvent) :
  classified_ids classify (events ++ events')
  = classified_ids classify events ∪ classified_ids classify events'.
Proof.
  induction events as [|event events IH]; cbn [app classified_ids].
  - now rewrite union_empty_l_L.
  - now rewrite IH, (assoc_L (∪)).
Qed.

(** The two buttons leave the map as it is. *)
Lemma startScan_request_keeps_map (bluetooth : bool) (w : Window) :
  discoveredDevices (page (startScan_request bluetooth w))
  = discoveredDevices (page w).
Proof. unfold startScan_request. now destruct bluetooth. Qed.

Lemma startScan_resume_keeps_map (filters : string) (answer : Answer)
    (w : Window) :
  discoveredDevices (page (startScan_resume filters answer w))
  = discoveredDevices (page w).
Proof.
  destruct answer as [scan | name message]; cbn; [reflexivity |].
  now destruct (String.eqb name "NotFoundError").
Qed.

Lemma stopScan_keeps_map (bluetooth : bool) (stop : option string)
    (w : Window) :
  discoveredDevices (page (snd (stopScan bluetooth stop w)))
  = discoveredDevices (page w).
Proof.
  unfold stopScan. destruct bluetooth; cbn [negb]; [| reflexivity].
  cbn [with_page bleScan page].
  now destruct (bleScan w) as [scan|]; [destruct stop |].
Qed.

Section Session.

Variable classify : AdvertisementEvent -> Logged (option Beacon).
Variable handle : AdvertisementEvent -> Page -> Outcome unit * Page.
Hypothesis handle_step : registry_step classify handle.

Lemma dom_step (pg : Page) (event : AdvertisementEvent) :
  dom (discoveredDevices (step handle pg event))
  = (if classified classify event then {[ dev_id (device event) ]} else ∅)
    ∪ dom (discoveredDevices pg).
Proof.
  pose proof (handle_step event pg) as H. cbv zeta in H.
  destruct (classified classify event); cbn [andb] in H.
  - destruct (has_device (dev_id (device event)) pg) eqn:Hhas; cbn [negb] in H.
    + rewrite H. apply has_device_true, elem_of_dom in Hhas.
      symmetry. apply subseteq_union_1_L. now apply singleton_subseteq_l.
    + destruct H as [entry ->]. apply dom_insert_L.
  - rewrite H. now rewrite union_empty_l_L.
Qed.

Lemma dom_run (events : list AdvertisementEvent) (pg : Page) :
  dom (discoveredDevices (run handle events pg))
  = classified_ids classify events ∪ dom (discoveredDevices pg).
Proof.
  revert pg. induction events as [|event events IH]; intros pg.
  - cbn [run fold_left classified_ids]. now rewrite union_empty_l_L.
  - cbn [run fold_left classified_ids]. fold (run handle events (step handle pg event)).
    rewrite IH, dom_step, (assoc_L (∪)).
    f_equal. apply (comm_L (∪)).
Qed.

Lemma size_run (events : list AdvertisementEvent) :
  size (discoveredDevices (run handle events initial_page))
  = size (classified_ids classify events).
Proof.
  rewrite <- size_dom, dom_run. cbn [initial_page discoveredDevices].
  rewrite dom_empty_L. now rewrite union_empty_r_L.
Qed.

Lemma size_run_from : counts_from_the_start classify handle.
Proof. intros events pg. now rewrite <- size_dom, dom_run. Qed.

(** Whatever happens on the page: the devices of the map are those it had
    and those of the classified advertisements that reached the handler. *)
Lemma dom_acts (bluetooth : bool) (filters : string) (actions : list Action)
    (w : Window) :
  dom (discoveredDevices (page (acts bluetooth filters handle actions w)))
  = classified_ids classify (delivered bluetooth filters handle actions w)
    ∪ dom (discoveredDevices (page w)).
Proof.
  revert w. induction actions as [|a actions IH]; intros w.
  - cbn [acts fold_left delivered classified_ids]. now rewrite union_empty_l_L.
  - change (acts bluetooth filters handle (a :: actions) w)
      with (acts bluetooth filters handle actions
              (act bluetooth filters handle w a)).
    cbn [delivered]. rewrite IH, classified_ids_app.
    assert (Ha :
      dom (discoveredDevices (page (act bluetooth filters handle w a)))
      = classified_ids classify
          match a with
          | Advertisement event => if listening w then [event] else []
          | _ => []
          end
        ∪ dom (discoveredDevices (page w))).
    { destruct a as [|answer|stop|event]; cbn [act classified_ids];
        rewrite ?union_empty_l_L.
      - destruct (startDisabled w); [reflexivity |].
        now rewrite startScan_request_keeps_map.
      - destruct (requested w); [reflexivity |].
        now rewrite startScan_resume_keeps_map.
      - destruct (stopDisabled w); [reflexivity |].
        now rewrite stopScan_keeps_map.
      - destruct (listening w); cbn [classified_ids with_page page].
        + rewrite dom_step, union_empty_r_L. reflexivity.
        + now rewrite union_empty_l_L. }
    rewrite Ha, (assoc_L (∪)). f_equal. apply (comm_L (∪)).
Qed.

Lemma size_acts : counts_all_sessions classify handle.
Proof.
  intros bluetooth filters actions w Hempty.
  rewrite <- size_dom, dom_acts, Hempty, dom_empty_L.
  now rewrite union_empty_r_L.
Qed.

Lemma step_grows : grows_by_first_sights classify handle.
Proof.
  intros pg event pg'. pose proof (handle_step event pg) as H. cbv zeta in H.
  fold pg' in H.
  destruct (classified classify event) eqn:Hc; cbn [andb] in H.
  - destruct (has_device (dev_id (device event)) pg) eqn:Hhas; cbn [negb] in H.
    + rewrite H. split; [reflexivity | now left].
    + apply has_device_false in Hhas. destruct H as [entry ->]. split.
      * now apply insert_subseteq.
      * right. repeat split; try assumption. now apply map_size_insert_None.
  - rewrite H. split; [reflexivity | now left].
Qed.

End Session.

(** Claim C9 as it is stated fails on [two_sessions]: the scan is stopped
    and started again, the second session hears one device, and the map
    holds two records, the one of the first session with it. *)
Lemma records_outlive_the_session :
  delivered_in_session true V3_filters V3.handleAdvertisement two_sessions
    loaded []
  = [other_sight]
  /\ size (classified_ids V3.classify [other_sight]) = 1%nat
  /\ size (discoveredDevices
             (page (acts true V3_filters V3.handleAdvertisement two_sessions
                      loaded)))
     = 2%nat
  /\ ~ counts_the_session V1.classify V1.handleAdvertisement
  /\ ~ counts_the_session V2.classify V2.handleAdvertisement
  /\ ~ counts_the_session V3.classify V3.handleAdvertisement.
Proof.
  do 3 (split; [vm_compute; reflexivity |]).
  repeat match goal with |- _ /\ _ => split end;
    intros H; specialize (H V3_filters two_sessions);
    vm_compute in H; discriminate H.
Qed.

(** Claim C9, amended. The size of [discoveredDevices] counts the devices
    classified since the page was loaded, not those of one scanning
    session: nothing in the script removes a record, [stopScan] and
    [startScan] leave the map as it is, and a later session starts with the
    records of the earlier ones. From a page without record, after any
    sequence of clicks, ends of requests and advertisements, the size is the
    number of distinct device identifiers among the classified
    advertisements that reached the handler, in all the sessions together;
    from a page with records, after any sequence of advertisements, it is
    the number of distinct identifiers among those records and the
    advertisements classified since. One advertisement keeps every record
    and the size, or adds the one record of a device classified for the
    first time. *)
Theorem registry_size_is_distinct_classified :
  (counts_all_sessions V1.classify V1.handleAdvertisement
   /\ counts_all_sessions V2.classify V2.handleAdvertisement
   /\ counts_all_sessions V3.classify V3.handleAdvertisement)
  /\ (counts_from_the_start V1.classify V1.handleAdvertisement
      /\ counts_from_the_start V2.classify V2.handleAdvertisement
      /\ counts_from_the_start V3.classify V3.handleAdvertisement)
  /\ (grows_by_first_sights V1.classify V1.handleAdvertisement
      /\ grows_by_first_sights V2.classify V2.handleAdvertisement
      /\ grows_by_first_sights V3.classify V3.handleAdvertisement)
  /\ (forall bluetooth filters stop answer w,
        discoveredDevices (page (snd (stopScan bluetooth stop w)))
        = discoveredDevices (page w)
        /\ discoveredDevices (page (startScan_request bluetooth w))
           = discoveredDevices (page w)
        /\ discoveredDevices (page (startScan_resume filters answer w))
           = discoveredDevices (page w)).
Proof.
  split; [| split; [| split]].
  - split; [| split].
    + apply size_acts, V1_registry_step.
    + apply size_acts, V2_registry_step.
    + apply size_acts, V3_registry_step.
  - split; [| split].
    + apply size_run_from, V1_registry_step.
    + apply size_run_from, V2_registry_step.
    + apply size_run_from, V3_registry_step.
  - split; [| split].
    + apply step_grows, V1_registry_step.
    + apply step_grows, V2_registry_step.
    + apply step_grows, V3_registry_step.
  - intros bluetooth filters stop answer w.
    split; [apply stopScan_keeps_map |].
    split; [apply startScan_request_keeps_map
           | apply startScan_resume_keeps_map].
Qed.

(** The two sessions of [two_sessions]: both advertisements reach the
    handler, and the map has the two records. *)
Lemma registry_size_is_distinct_classified_example :
  discoveredDevices (page loaded) = ∅
  /\ delivered true V3_filters V3.handleAdvertisement two_sessions loaded
     = [first_sight; other_sight]
  /\ size (discoveredDevices
             (page (acts true V3_filters V3.handleAdvertisement two_sessions
                      loaded)))
     = 2%nat
  /\ size (discoveredDevices
             (run V3.handleAdvertisement [second_sight; other_sight]
                page_after_first))
     = 2%nat.
Proof.
  destruct registry_size_is_distinct_classified as ((_ & _ & H) & (_ & _ & H') & _).
  split; [reflexivity |]. split; [vm_compute; reflexivity |].
  split.
  - rewrite (H true V3_filters two_sessions loaded eq_refl).
    vm_compute. reflexivity.
  - rewrite (H' [second_sight; other_sight] page_after_first).
    vm_compute. reflexivity.
Defined.

(** ** The order of the classification *)

(** Claim C2 as it is stated fails on [apple_and_eddystone]: the chain of
    every revision stops at the Apple entry, with no beacon and no record,
    although the Eddystone decoder would decode the frame. *)
Lemma apple_entry_hides_eddystone :
  iBeacon_prefix (view_of [x02; x15; x00; x00; x00]) = ret false
  /\ V3.parseEddystone (view_of example2)
     = ret (Some (EddystoneURL "http://www.example.com/"))
  /\ V1.classify apple_and_eddystone = ret None
  /\ V2.classify apple_and_eddystone = ret None
  /\ V3.classify apple_and_eddystone = ret None
  /\ V3.handleAdvertisement apple_and_eddystone initial_page
     = (Returns tt, initial_page)
  /\ ~ falls_through_to_eddystone V1.classify V1.parseEddystone
  /\ ~ falls_through_to_eddystone V2.classify V2.parseEddystone
  /\ ~ falls_through_to_eddystone V3.classify V3.parseEddystone.
Proof.
  do 6 (split; [vm_compute; reflexivity |]).
  repeat match goal with |- _ /\ _ => split end;
    intros H;
    specialize (H apple_and_eddystone (view_of [x02; x15; x00; x00; x00])
                  (view_of example2));
    vm_compute in H; specialize (H eq_refl eq_refl eq_refl); discriminate H.
Qed.

(** Claim C2, amended. The presence of key 0x004C alone decides. With the
    key present and a payload that is not an iBeacon, the classification of
    every revision yields no beacon, whatever the service data contain, and
    no record is made or changed. Revisions 1 and 3 then return with the
    page as it was. Revision 2 alone looks at the service data again: it
    gives an entry for 0xFEAA to its Eddystone decoder; an exception of the
    decoder leaves the handler, a telemetry frame of a device without
    record is logged with the telemetry note, and in every case the
    records, the cards and the children of [resultsDiv] stay as they were;
    without an entry for 0xFEAA, revision 2 returns with the page as it
    was. With the key absent, an entry for 0xFEAA goes to the Eddystone
    decoder, and its result is the result of the classification. *)
Theorem apple_key_decides (event : AdvertisementEvent) :
  (forall apple,
     manufacturerData event !! 0x004C = Some apple ->
     iBeacon_prefix apple = ret false ->
     V1.classify event = ret None
     /\ V2.classify event = ret None
     /\ V3.classify event = ret None
     /\ forall pg,
          V1.handleAdvertisement event pg = (Returns tt, pg)
          /\ V3.handleAdvertisement event pg = (Returns tt, pg)
          /\ same_cards pg (snd (V2.handleAdvertisement event pg))
          /\ (forall data,
                serviceData event !! 0xfeaa = Some data ->
                V2.handleAdvertisement event pg
                = match V2.parseEddystone data with
                  | (msgs, Throws e) => (Throws e, log_all msgs pg)
                  | (msgs, Returns tlmData) =>
                      (Returns tt,
                       if V2.is_TLM tlmData
                          && negb (has_device (dev_id (device event))
                                     (log_all msgs pg))
                       then log (tlm_note (dev_id (device event)))
                              (log_all msgs pg)
                       else log_all msgs pg)
                  end)
          /\ (serviceData event !! 0xfeaa = None ->
              V2.handleAdvertisement event pg = (Returns tt, pg)))
  /\ (manufacturerData event !! 0x004C = None ->
      forall eddystone,
        serviceData event !! 0xfeaa = Some eddystone ->
        V1.classify event = V1.parseEddystone eddystone
        /\ V2.classify event = V2.parseEddystone eddystone
        /\ V3.classify event = V3.parseEddystone eddystone).
Proof.
  split.
  - intros apple Happle Hnot.
    assert (H1 : V1.classify event = ret None)
      by (unfold V1.classify; now rewrite Happle, Hnot).
    assert (H2 : V2.classify event = ret None)
      by (unfold V2.classify; now rewrite Happle, Hnot).
    assert (H3 : V3.classify event = ret None)
      by (unfold V3.classify; now rewrite Happle, Hnot).
    split; [exact H1 |]. split; [exact H2 |]. split; [exact H3 |].
    intros pg.
    assert (HV2 : V2.handleAdvertisement event pg = V2.unusable event pg)
      by (unfold V2.handleAdvertisement; now rewrite H2).
    split; [unfold V1.handleAdvertisement; now rewrite H1 |].
    split; [unfold V3.handleAdvertisement; now rewrite H3 |].
    split; [rewrite HV2; apply V2_unusable_same_cards |].
    split.
    + intros data Hdata. rewrite HV2. unfold V2.unusable. rewrite Hdata.
      destruct (V2.parseEddystone data) as [msgs [tlmData|e]]; [| reflexivity].
      now destruct (V2.is_TLM tlmData
                    && negb (has_device (dev_id (device event)) (log_all msgs pg))).
    + intros Hnone. rewrite HV2. unfold V2.unusable. now rewrite Hnone.
  - intros Happle eddystone Heddy.
    unfold V1.classify, V2.classify, V3.classify.
    now rewrite Happle, Heddy.
Qed.

(** The Apple entry next to the frame of Example 2: no revision decodes the
    frame or touches the page. Next to a telemetry frame, revision 2 logs
    its note; next to an entry without a byte, it raises. The frame of
    Example 2 alone goes to the decoder. *)
Lemma apple_key_decides_example :
  manufacturerData apple_and_eddystone !! 0x004C
  = Some (view_of [x02; x15; x00; x00; x00])
  /\ iBeacon_prefix (view_of [x02; x15; x00; x00; x00]) = ret false
  /\ V3.classify apple_and_eddystone = ret None
  /\ V1.handleAdvertisement apple_and_eddystone initial_page
     = (Returns tt, initial_page)
  /\ V2.handleAdvertisement apple_and_eddystone initial_page
     = (Returns tt, initial_page)
  /\ V3.handleAdvertisement apple_and_eddystone initial_page
     = (Returns tt, initial_page)
  /\ V2.handleAdvertisement apple_and_tlm initial_page
     = (Returns tt, log (tlm_note "device-E-0123456789") initial_page)
  /\ V2.handleAdvertisement apple_and_empty_frame initial_page
     = (Throws RangeError, initial_page)
  /\ manufacturerData second_sight !! 0x004C = None
  /\ serviceData second_sight !! 0xfeaa = Some (view_of example2)
  /\ V3.classify second_sight = V3.parseEddystone (view_of example2).
Proof.
  destruct (apple_key_decides apple_and_eddystone) as [H _].
  destruct (H _ eq_refl eq_refl) as (_ & _ & H3 & Hpg).
  destruct (Hpg initial_page) as (Hh1 & Hh3 & _ & Hh2 & _).
  specialize (Hh2 _ eq_refl).
  destruct (apple_key_decides apple_and_tlm) as [Htlm _].
  destruct (Htlm (view_of [x12; x19; x00]) eq_refl eq_refl) as (_ & _ & _ & Htlm').
  destruct (Htlm' initial_page) as (_ & _ & _ & Hnote & _).
  specialize (Hnote _ eq_refl).
  destruct (apple_key_decides apple_and_empty_frame) as [Hempty _].
  destruct (Hempty _ eq_refl eq_refl) as (_ & _ & _ & Hempty').
  destruct (Hempty' initial_page) as (_ & _ & _ & Hraise & _).
  specialize (Hraise _ eq_refl).
  destruct (apple_key_decides second_sight) as [_ Hfree].
  destruct (Hfree eq_refl _ eq_refl) as (_ & _ & Hfree3).
  split; [reflexivity |]. split; [reflexivity |]. split; [exact H3 |].
  split; [exact Hh1 |]. split; [exact Hh2 |]. split; [exact Hh3 |].
  split; [exact Hnote |]. split; [exact Hraise |].
  split; [reflexivity |]. split; [reflexivity |]. exact Hfree3.
Defined.

(** Claim C8 as it is stated fails on [apple_and_battery]: the Apple entry
    is no iBeacon, so the advertisement matches none of the rules 1 to 3,
    and yet the battery service is not announced: the chain of revision 3
    stops at the Apple entry, with no beacon and no record. *)
Lemma apple_entry_hides_gatt_service :
  iBeacon_prefix (view_of [x02; x15; x00; x00; x00]) = ret false
  /\ serviceData apple_and_battery !! 0xfeaa = None
  /\ manufacturerData apple_and_battery !! 0x0499 = None
  /\ serviceData apple_and_battery !! 0x180F = Some (view_of [x64])
  /\ V3.classify apple_and_battery = ret None
  /\ V3.handleAdvertisement apple_and_battery initial_page
     = (Returns tt, initial_page)
  /\ ~ gatt_fallback_as_claimed V3.classify.
Proof.
  do 6 (split; [vm_compute; reflexivity |]).
  intros H. destruct (H apple_and_battery) as (H0 & _).
  - intros apple Happle. vm_compute in Happle. injection Happle as <-.
    vm_compute. reflexivity.
  - reflexivity.
  - reflexivity.
  - assert (Hservice : is_Some (serviceData apple_and_battery !! 0x180F))
      by (eexists; vm_compute; reflexivity).
    specialize (H0 Hservice). vm_compute in H0. discriminate H0.
Qed.

(** Claim C8, amended. The fallback is reached by the absence of the three
    keys. When none of the keys 0x004C, 0xFEAA and 0x0499 is present, the
    chain of revision 3 announces the first of the services 0x180F, 0x181A,
    0x180D that the service data contain, in that order, whether or not the
    later ones are present too, and yields no beacon when there is none of
    them. An advertisement with key 0x004C whose payload is not an iBeacon
    is stopped at rule 1: nothing is announced and the page stays as it
    was, whatever services it carries. *)
Theorem gatt_fallback_priority (event : AdvertisementEvent) :
  (manufacturerData event !! 0x004C = None ->
   serviceData event !! 0xfeaa = None ->
   manufacturerData event !! 0x0499 = None ->
   (is_Some (serviceData event !! 0x180F) ->
    V3.classify event = ret (Some (GattService "Batteriedienst (0x180F)")))
   /\ (serviceData event !! 0x180F = None ->
       is_Some (serviceData event !! 0x181A) ->
       V3.classify event = ret (Some (GattService "Umgebungssensor (0x181A)")))
   /\ (serviceData event !! 0x180F = None ->
       serviceData event !! 0x181A = None ->
       is_Some (serviceData event !! 0x180D) ->
       V3.classify event = ret (Some (GattService "Herzfrequenzmesser (0x180D)")))
   /\ (serviceData event !! 0x180F = None ->
       serviceData event !! 0x181A = None ->
       serviceData event !! 0x180D = None ->
       V3.classify event = ret None))
  /\ (forall apple,
        manufacturerData event !! 0x004C = Some apple ->
        iBeacon_prefix apple = ret false ->
        V3.classify event = ret None
        /\ forall pg, V3.handleAdvertisement event pg = (Returns tt, pg)).
Proof.
  split.
  - intros Happle Heddy Hruuvi. unfold V3.classify, V3.has.
    rewrite Happle, Heddy, Hruuvi.
    repeat split; intros;
      repeat match goal with
             | H : ?x = None |- context [?x] => rewrite H
             | H : is_Some ?x |- context [?x] =>
                 let v := fresh in destruct H as [v H]; rewrite H
             end; reflexivity.
  - intros apple Happle Hnot.
    assert (H3 : V3.classify event = ret None)
      by (unfold V3.classify; now rewrite Happle, Hnot).
    split; [exact H3 |]. intros pg.
    unfold V3.handleAdvertisement. now rewrite H3.
Qed.

Lemma gatt_fallback_priority_example :
  manufacturerData three_services !! 0x004C = None
  /\ serviceData three_services !! 0xfeaa = None
  /\ manufacturerData three_services !! 0x0499 = None
  /\ is_Some (serviceData three_services !! 0x180F)
  /\ is_Some (serviceData three_services !! 0x181A)
  /\ is_Some (serviceData three_services !! 0x180D)
  /\ V3.classify three_services
     = ret (Some (GattService "Batteriedienst (0x180F)"))
  /\ manufacturerData apple_and_battery !! 0x004C
     = Some (view_of [x02; x15; x00; x00; x00])
  /\ iBeacon_prefix (view_of [x02; x15; x00; x00; x00]) = ret false
  /\ V3.classify apple_and_battery = ret None
  /\ V3.handleAdvertisement apple_and_battery initial_page
     = (Returns tt, initial_page).
Proof.
  destruct (gatt_fallback_priority three_services) as [Hfree _].
  destruct (Hfree eq_refl eq_refl eq_refl) as (H & _).
  destruct (gatt_fallback_priority apple_and_battery) as [_ Happle].
  destruct (Happle _ eq_refl eq_refl) as [Hnone Hpage].
  assert (H0 : is_Some (serviceData three_services !! 0x180F))
    by (eexists; vm_compute; reflexivity).
  split; [reflexivity |]. split; [reflexivity |]. split; [reflexivity |].
  split; [exact H0 |].
  split; [eexists; vm_compute; reflexivity |].
  split; [eexists; vm_compute; reflexivity |].
  split; [exact (H H0) |].
  split; [reflexivity |]. split; [reflexivity |].
  split; [exact Hnone | exact (Hpage initial_page)].
Defined.

(** * Binary64 arithmetic *)

(** ** Digits *)

Lemma digits2_pos_bounds (p : positive) :
  2 ^ (Z.pos (digits2_pos p) - 1) <= Z.pos p < 2 ^ Z.pos (digits2_pos p).
Proof.
  induction p as [p IH|p IH|]; cbn [digits2_pos].
  - rewrite Pos2Z.inj_succ, (Pos2Z.inj_xI p).
    replace (Z.succ (Z.pos (digits2_pos p)) - 1)
      with (Z.succ (Z.pos (digits2_pos p) - 1)) by lia.
    rewrite !Z.pow_succ_r by lia.
    generalize dependent (2 ^ (Z.pos (digits2_pos p) - 1)).
    generalize (2 ^ Z.pos (digits2_pos p)). lia.
  - rewrite Pos2Z.inj_succ, (Pos2Z.inj_xO p).
    replace (Z.succ (Z.pos (digits2_pos p)) - 1)
      with (Z.succ (Z.pos (digits2_pos p) - 1)) by lia.
    rewrite !Z.pow_succ_r by lia.
    generalize dependent (2 ^ (Z.pos (digits2_pos p) - 1)).
    generalize (2 ^ Z.pos (digits2_pos p)). lia.
  - change (2 ^ (1 - 1)) with 1. change (2 ^ 1) with 2. lia.
Qed.

(** The number of binary digits of a positive number is fixed by the powers
    of two around it. *)
Lemma Zdigits2_unique (m d : Z) :
  2 ^ (d - 1) <= m < 2 ^ d -> 0 < d -> Zdigits2 m = d.
Proof.
  intros Hm Hd.
  assert (0 < m) by (pose proof (Z.pow_pos_nonneg 2 (d - 1)); lia).
  destruct m as [|p|p]; try lia. cbn [Zdigits2].
  pose proof (digits2_pos_bounds p) as Hp.
  destruct (Z.lt_trichotomy (Z.pos (digits2_pos p)) d) as [Hlt|[Heq|Hgt]];
    [| exact Heq |].
  - assert (2 ^ Z.pos (digits2_pos p) <= 2 ^ (d - 1))
      by (apply Z.pow_le_mono_r; lia). lia.
  - assert (2 ^ d <= 2 ^ (Z.pos (digits2_pos p) - 1))
      by (apply Z.pow_le_mono_r; lia). lia.
Qed.

(** ** Shifting with a location *)

Lemma iter_pos_nat {A} (f : A -> A) (p : positive) (x : A) :
  SpecFloat.iter_pos f p x = Nat.iter (Pos.to_nat p) f x.
Proof.
  revert x. induction p as [p IH|p IH|]; intros x; cbn [SpecFloat.iter_pos].
  - rewrite !IH, Pos2Nat.inj_xI.
    replace (S (2 * Pos.to_nat p)) with (Pos.to_nat p + (Pos.to_nat p + 1))%nat by lia.
    rewrite !Nat.iter_add. reflexivity.
  - rewrite !IH, Pos2Nat.inj_xO.
    replace (2 * Pos.to_nat p)%nat with (Pos.to_nat p + Pos.to_nat p)%nat by lia.
    rewrite Nat.iter_add. reflexivity.
  - reflexivity.
Qed.

Lemma shr_nat (mrs : shr_record) (e n : Z) :
  0 <= n -> shr mrs e n = (Nat.iter (Z.to_nat n) shr_1 mrs, e + n).
Proof.
  intros Hn. destruct n as [|p|p]; try lia; cbn [shr].
  - now rewrite Z.add_0_r.
  - now rewrite iter_pos_nat.
Qed.

Lemma holds_of_loc (m r D : Z) : holds (shr_record_of_loc m (locate r D)) m r D.
Proof.
  unfold holds, locate. destruct (r =? 0); [now split |].
  destruct (2 * r ?= D); now split.
Qed.

Lemma shr_1_nonneg (m : Z) (rb sb : bool) :
  0 <= m ->
  shr_1 (Build_shr_record m rb sb) = Build_shr_record (m / 2) (Z.odd m) (rb || sb).
Proof.
  intros Hm. rewrite <- Z.div2_div.
  destruct m as [|[p|p|]|p]; try lia; reflexivity.
Qed.

Lemma shr_1_holds (mrs : shr_record) (m r D : Z) :
  0 <= m -> 0 <= r < D ->
  holds mrs m r D ->
  holds (shr_1 mrs) (m / 2) (m mod 2 * D + r) (2 * D).
Proof.
  intros Hm Hr [Hmrs Hloc]. destruct mrs as [m' rb sb]. cbn [shr_m] in Hmrs. subst m'.
  rewrite shr_1_nonneg by assumption. split; [reflexivity |].
  rewrite Zmod_odd. unfold locate in *. cbn [loc_of_shr_record] in *.
  destruct (Z.odd m).
  - destruct (Z.eqb_spec (1 * D + r) 0) as [H|_]; [lia |].
    destruct (Z.eqb_spec r 0) as [Hr0|Hr0].
    + destruct rb, sb; try discriminate Hloc. cbn [orb].
      replace (2 * (1 * D + r) ?= 2 * D) with Eq; [reflexivity |].
      symmetry. apply Z.compare_eq_iff. lia.
    + replace (2 * (1 * D + r) ?= 2 * D) with Gt
        by (symmetry; apply Z.compare_gt_iff; lia).
      destruct rb, sb; try discriminate Hloc; reflexivity.
  - replace (0 * D + r) with r by lia.
    destruct (Z.eqb_spec r 0) as [Hr0|Hr0].
    + destruct rb, sb; try discriminate Hloc. reflexivity.
    + replace (2 * r ?= 2 * D) with Lt
        by (symmetry; apply Z.compare_lt_iff; lia).
      destruct rb, sb; try discriminate Hloc; reflexivity.
Qed.

Lemma shr_iter_holds (k : nat) (mrs : shr_record) (m r D : Z) :
  0 <= m -> 0 <= r < D ->
  holds mrs m r D ->
  holds (Nat.iter k shr_1 mrs) (m / 2 ^ Z.of_nat k)
    (m mod 2 ^ Z.of_nat k * D + r) (2 ^ Z.of_nat k * D).
Proof.
  intros Hm Hr H. induction k as [|k IH].
  - cbn [Nat.iter]. change (2 ^ Z.of_nat 0) with 1.
    rewrite Z.div_1_r, Z.mod_1_r. replace (0 * D + r) with r by lia.
    now replace (1 * D) with D by lia.
  - cbn [Nat.iter].
    assert (Hpow : 0 < 2 ^ Z.of_nat k) by (apply Z.pow_pos_nonneg; lia).
    pose proof (Z.mod_pos_bound m (2 ^ Z.of_nat k) Hpow) as Hmod.
    assert (Hdiv : 0 <= m / 2 ^ Z.of_nat k) by (apply Z.div_pos; lia).
    apply shr_1_holds in IH; [| assumption | nia].
    rewrite Nat2Z.inj_succ, Z.pow_succ_r by lia.
    replace (m / (2 * 2 ^ Z.of_nat k)) with (m / 2 ^ Z.of_nat k / 2)
      by (rewrite Z.div_div by lia; f_equal; lia).
    replace (m mod (2 * 2 ^ Z.of_nat k))
      with (m mod 2 ^ Z.of_nat k + 2 ^ Z.of_nat k * ((m / 2 ^ Z.of_nat k) mod 2))
      by (rewrite (Z.mul_comm 2), Z.rem_mul_r by lia; reflexivity).
    replace ((m mod 2 ^ Z.of_nat k
              + 2 ^ Z.of_nat k * ((m / 2 ^ Z.of_nat k) mod 2)) * D + r)
      with ((m / 2 ^ Z.of_nat k) mod 2 * (2 ^ Z.of_nat k * D)
            + (m mod 2 ^ Z.of_nat k * D + r)) by ring.
    replace (2 * 2 ^ Z.of_nat k * D) with (2 * (2 ^ Z.of_nat k * D)) by ring.
    exact IH.
Qed.

(** ** Rounding to nearest, ties to even *)

Lemma round_nearest_even_locate (m r D : Z) :
  0 <= r < D ->
  let m1 := round_nearest_even m (locate r D) in
  (m1 = m \/ m1 = m + 1)
  /\ Z.abs (2 * m1 * D - 2 * (m * D + r)) <= D
  /\ (r = 0 -> m1 = m).
Proof.
  intros Hr m1. unfold m1, locate.
  destruct (Z.eqb_spec r 0) as [Hr0|Hr0]; cbn [round_nearest_even].
  - repeat split; [now left | lia].
  - destruct (Z.compare_spec (2 * r) D) as [H|H|H].
    + destruct (Z.even m); repeat split; try lia; auto.
    + repeat split; try lia; auto.
    + repeat split; try lia; auto.
Qed.

(** ** Rounding a mantissa of 53 bits or more *)

Lemma fexp_normal (e : Z) : -1074 <= e - 53 -> fexp 53 1024 e = e - 53.
Proof. unfold fexp, emin. lia. Qed.

Lemma shr_fexp_shift (m e d : Z) (l : location) :
  2 ^ (d - 1) <= m < 2 ^ d -> 53 <= d -> -1074 <= e + d - 53 ->
  shr_fexp 53 1024 m e l
  = (Nat.iter (Z.to_nat (d - 53)) shr_1 (shr_record_of_loc m l), e + (d - 53)).
Proof.
  intros Hm Hd He. unfold shr_fexp.
  rewrite (Zdigits2_unique m d) by (assumption || lia).
  rewrite fexp_normal by lia.
  replace (d + e - 53 - e) with (d - 53) by lia.
  apply shr_nat. lia.
Qed.

Lemma pow2_split (d k : Z) : 0 <= k <= d -> 2 ^ d = 2 ^ (d - k) * 2 ^ k.
Proof.
  intros H. rewrite <- Z.pow_add_r by lia. f_equal. lia.
Qed.

(** The value [mx + r/D] (in units of [2^ex]), with [mx] of [d >= 53]
    bits, is rounded to a mantissa [m] of 53 bits: the exponent grows by the
    [d - 53] bits dropped (one more when the rounding carries into bit 54),
    the result is within half a unit of its last place of the value, and
    it is the value when that fits in 53 bits. *)
Lemma binary_round_aux_normal (sx : bool) (mx ex r D d : Z) :
  2 ^ (d - 1) <= mx < 2 ^ d -> 53 <= d -> 0 <= r < D ->
  -1074 <= ex + d - 53 -> ex + d - 53 < 971 ->
  exists (m : positive) (e : Z),
    binary_round_aux 53 1024 sx mx ex (locate r D) = S754_finite sx m e
    /\ (e = ex + (d - 53) \/ e = ex + (d - 53) + 1)
    /\ 2 ^ 52 <= Z.pos m < 2 ^ 53
    /\ Z.abs (2 * D * (Z.pos m * 2 ^ (e - ex)) - 2 * (mx * D + r))
       <= D * 2 ^ (d - 53)
    /\ (r = 0 -> mx mod 2 ^ (d - 53) = 0 ->
        e = ex + (d - 53) /\ Z.pos m * 2 ^ (d - 53) = mx).
Proof.
  intros Hmx Hd Hr Hlo Hhi.
  set (k := d - 53) in *.
  assert (Hk : 0 <= k) by (unfold k; lia).
  assert (Hpk : 0 < 2 ^ k) by (apply Z.pow_pos_nonneg; lia).
  assert (Hmx0 : 0 <= mx)
    by (pose proof (Z.pow_pos_nonneg 2 (d - 1)); lia).
  (* the first shift *)
  unfold binary_round_aux.
  rewrite (shr_fexp_shift mx ex d) by assumption. fold k.
  pose proof (shr_iter_holds (Z.to_nat k) _ mx r D Hmx0 Hr (holds_of_loc mx r D))
    as [Hm Hloc].
  rewrite Z2Nat.id in Hm, Hloc by assumption.
  set (mrs := Nat.iter (Z.to_nat k) shr_1 (shr_record_of_loc mx (locate r D))) in *.
  rewrite Hm, Hloc. clearbody mrs. clear Hm Hloc mrs.
  set (mk := mx / 2 ^ k). set (rk := mx mod 2 ^ k * D + r). set (Dk := 2 ^ k * D).
  assert (Hsplit : mx = 2 ^ k * mk + mx mod 2 ^ k) by (apply Z.div_mod; lia).
  pose proof (Z.mod_pos_bound mx (2 ^ k) Hpk) as Hmod.
  assert (Hrk : 0 <= rk < Dk) by (unfold rk, Dk; nia).
  assert (Hmk : 2 ^ 52 <= mk < 2 ^ 53).
  { rewrite (pow2_split (d - 1) k), (pow2_split d k) in Hmx by (unfold k; lia).
    replace (d - 1 - k) with 52 in Hmx by (unfold k; lia).
    replace (d - k) with 53 in Hmx by (unfold k; lia).
    unfold mk. split.
    - apply Z.div_le_lower_bound; lia.
    - apply Z.div_lt_upper_bound; lia. }
  (* the rounding *)
  destruct (round_nearest_even_locate mk rk Dk Hrk) as (Hm1 & Hnear & Hexact).
  set (m1 := round_nearest_even mk (locate rk Dk)) in *. clearbody m1.
  assert (Hvalue : mk * Dk + rk = mx * D + r) by (unfold rk, Dk; nia).
  destruct (Z.eq_dec m1 (2 ^ 53)) as [Hcarry|Hfit].
  - (* the carry into bit 54 *)
    subst m1. exists (Z.to_pos (2 ^ 52)), (ex + k + 1).
    split; [| split; [now right | split; [split; vm_compute; congruence |]]].
    + rewrite (shr_fexp_shift (2 ^ 53) (ex + k) 54) by (first [lia | split; [now vm_compute | now vm_compute]]).
      change (Z.to_nat (54 - 53)) with 1%nat. cbn [Nat.iter].
      change (shr_m (shr_1 (shr_record_of_loc (2 ^ 53) loc_Exact)))
        with (Z.pos (Z.to_pos (2 ^ 52))). cbv iota beta.
      destruct (Z.leb_spec (ex + k + (54 - 53)) (1024 - 53)); [| lia].
      f_equal; lia.
    + split.
      * replace (ex + k + 1 - ex) with (k + 1) by lia.
        rewrite Z.pow_add_r by lia. change (2 ^ 1) with 2.
        change (Z.pos (Z.to_pos (2 ^ 52))) with (2 ^ 52).
        change (2 ^ 53) with (2 ^ 52 * 2) in Hnear. unfold Dk in *. nia.
      * intros Hr0 Hmod0. assert (rk = 0) by (unfold rk; nia).
        specialize (Hexact ltac:(assumption)). lia.
  - (* 53 bits after the rounding *)
    assert (Hm1r : 2 ^ 52 <= m1 < 2 ^ 53) by lia.
    assert (Hpos : 0 < m1) by (pose proof (Z.pow_pos_nonneg 2 52); lia).
    exists (Z.to_pos m1), (ex + k).
    rewrite Z2Pos.id by assumption.
    split; [| split; [now left | split; [assumption |]]].
    + rewrite (shr_fexp_shift m1 (ex + k) 53) by (assumption || lia).
      change (Z.to_nat (53 - 53)) with 0%nat. cbn [Nat.iter shr_record_of_loc shr_m].
      destruct m1 as [|p|p]; try lia. cbv iota beta.
      destruct (Z.leb_spec (ex + k + (53 - 53)) (1024 - 53)); [| lia].
      cbn [Z.to_pos]. f_equal; lia.
    + split.
      * replace (ex + k - ex) with k by lia. unfold Dk in *. nia.
      * intros Hr0 Hmod0. assert (rk = 0) by (unfold rk; nia).
        specialize (Hexact ltac:(assumption)). split; [reflexivity | nia].
Qed.

(** ** Numbers that fit in 53 bits *)

Lemma pos_iter_xO (p q : positive) :
  Z.pos (Pos.iter xO p q) = Z.pos p * 2 ^ Z.pos q.
Proof.
  induction q as [|q IH] using Pos.peano_ind.
  - cbn [Pos.iter]. rewrite (Pos2Z.inj_xO p). change (2 ^ 1) with 2. lia.
  - rewrite Pos.iter_succ, (Pos2Z.inj_xO (Pos.iter xO p q)), IH, Pos2Z.inj_succ.
    rewrite Z.pow_succ_r by lia. lia.
Qed.

(** [shl_align] brings a mantissa of fewer than 53 bits up to 53 bits. *)
Lemma shl_align_short (p : positive) (e d : Z) :
  2 ^ (d - 1) <= Z.pos p < 2 ^ d -> 0 < d <= 53 ->
  exists mz : positive,
    shl_align p e (e + d - 53) = (mz, e + d - 53)
    /\ Z.pos mz = Z.pos p * 2 ^ (53 - d).
Proof.
  intros Hp Hd. unfold shl_align.
  replace (e + d - 53 - e) with (d - 53) by lia.
  destruct (d - 53) as [|q|q] eqn:Hq; try lia.
  - exists p. split; [f_equal; lia |].
    replace (53 - d) with 0 by lia. change (2 ^ 0) with 1. lia.
  - exists (Pos.iter xO p q). split; [reflexivity |].
    rewrite pos_iter_xO. f_equal. f_equal. lia.
Qed.

Lemma pow2_bounds_scale (v d k : Z) :
  0 <= k -> 0 < d -> 2 ^ (d - 1) <= v < 2 ^ d ->
  2 ^ (d + k - 1) <= v * 2 ^ k < 2 ^ (d + k).
Proof.
  intros Hk Hd Hv.
  replace (d + k - 1) with (d - 1 + k) by lia.
  rewrite !Z.pow_add_r by lia.
  assert (0 < 2 ^ k) by (apply Z.pow_pos_nonneg; lia). nia.
Qed.

Lemma binary_round_exact (s : bool) (p : positive) (e d : Z) :
  2 ^ (d - 1) <= Z.pos p < 2 ^ d -> 0 < d ->
  (53 < d -> Z.pos p mod 2 ^ (d - 53) = 0) ->
  -1074 <= e + d - 53 -> e + d - 53 < 971 ->
  represents (binary_round 53 1024 s p e) s (Z.pos p) e d.
Proof.
  intros Hp Hd Hfit Hlo Hhi. unfold binary_round.
  change (Z.pos (digits2_pos p)) with (Zdigits2 (Z.pos p)).
  rewrite (Zdigits2_unique (Z.pos p) d) by assumption.
  rewrite fexp_normal by lia.
  destruct (Z.le_gt_cases d 53) as [Hshort|Hlong].
  - replace (d + e - 53) with (e + d - 53) by lia.
    destruct (shl_align_short p e d Hp ltac:(lia)) as (mz & -> & Hmz).
    assert (Hmzb : 2 ^ (53 - 1) <= Z.pos mz < 2 ^ 53).
    { rewrite Hmz. pose proof (pow2_bounds_scale (Z.pos p) d (53 - d)) as H.
      replace (d + (53 - d) - 1) with (53 - 1) in H by lia.
      replace (d + (53 - d)) with 53 in H by lia. apply H; lia || assumption. }
    destruct (binary_round_aux_normal s (Z.pos mz) (e + d - 53) 0 1 53
                Hmzb ltac:(lia) ltac:(lia) ltac:(lia) ltac:(lia))
      as (m & e' & Heq & _ & Hm & _ & Hexact).
    change (locate 0 1) with loc_Exact in Heq.
    destruct (Hexact eq_refl) as [-> Hval].
    { change (2 ^ (53 - 53)) with 1. apply Z.mod_1_r. }
    exists m. split; [rewrite Heq; f_equal; lia |]. split; [assumption |].
    change (2 ^ (53 - 53)) with 1 in Hval.
    rewrite Z.max_r, Z.max_l by lia. change (2 ^ 0) with 1. lia.
  - unfold shl_align. destruct (d + e - 53 - e) as [|q|q] eqn:Hq; try lia.
    destruct (binary_round_aux_normal s (Z.pos p) e 0 1 d
                Hp ltac:(lia) ltac:(lia) ltac:(lia) ltac:(lia))
      as (m & e' & Heq & _ & Hm & _ & Hexact).
    change (locate 0 1) with loc_Exact in Heq.
    destruct (Hexact eq_refl (Hfit Hlong)) as [-> Hval].
    exists m. split; [rewrite Heq; f_equal; lia |]. split; [assumption |].
    rewrite Z.max_l, Z.max_r by lia. change (2 ^ 0) with 1. lia.
Qed.

(** An integer below [2^53] in magnitude is a binary64 number. *)
Lemma of_int_represents (v d : Z) :
  2 ^ (d - 1) <= Z.abs v < 2 ^ d -> 0 < d <= 53 ->
  represents (of_int v) (v <? 0) (Z.abs v) 0 d.
Proof.
  intros Hv Hd. unfold of_int, binary_normalize.
  assert (0 < Z.abs v) by (pose proof (Z.pow_pos_nonneg 2 (d - 1)); lia).
  destruct v as [|p|p]; try lia; apply binary_round_exact; try assumption; lia.
Qed.

Lemma of_int_pos_represents (v d : Z) :
  2 ^ (d - 1) <= v < 2 ^ d -> 0 < d <= 53 ->
  represents (of_int v) false v 0 d.
Proof.
  intros Hv Hd.
  assert (0 < v) by (pose proof (Z.pow_pos_nonneg 2 (d - 1)); lia).
  pose proof (of_int_represents v d) as H'.
  rewrite (Z.abs_eq v) in H' by lia.
  replace (v <? 0) with false in H' by (symmetry; apply Z.ltb_ge; lia).
  now apply H'.
Qed.

(** Every positive number has its number of binary digits. *)
Lemma digits_exist (v : Z) :
  0 < v -> exists d, 0 < d /\ 2 ^ (d - 1) <= v < 2 ^ d.
Proof.
  intros Hv. destruct v as [|p|p]; try lia.
  exists (Z.pos (digits2_pos p)). split; [lia | apply digits2_pos_bounds].
Qed.

Lemma digits_mono (v d b : Z) :
  0 < d -> 0 <= b -> 2 ^ (d - 1) <= v -> v < 2 ^ b -> d <= b.
Proof.
  intros Hd Hb Hlo Hhi.
  destruct (Z.le_gt_cases d b) as [|Hgt]; [assumption |].
  assert (2 ^ b <= 2 ^ (d - 1)) by (apply Z.pow_le_mono_r; lia). lia.
Qed.

(** ** Division and multiplication *)

Lemma represents_short (x : spec_float) (s : bool) (v d : Z) :
  represents x s v 0 d -> d <= 53 ->
  exists m : positive,
    x = S754_finite s m (d - 53)
    /\ 2 ^ 52 <= Z.pos m < 2 ^ 53
    /\ Z.pos m = v * 2 ^ (53 - d).
Proof.
  intros (m & Hx & Hm & Hv) Hd. exists m.
  rewrite Z.max_r, Z.max_l in Hv by lia. change (2 ^ 0) with 1 in Hv.
  split; [rewrite Hx; f_equal; lia |]. split; [assumption | lia].
Qed.

Lemma abs_le_cancel (w x b : Z) : 0 < w -> Z.abs (w * x) <= w * b -> Z.abs x <= b.
Proof.
  intros Hw H. rewrite Z.abs_mul, (Z.abs_eq w) in H by lia.
  apply Z.mul_le_mono_pos_l in H; assumption.
Qed.

(** The quotient of two numbers of at most 53 bits is the binary64 number
    within half a unit in the last place of the exact quotient [a / b]. *)
Lemma fdiv_near (x y : spec_float) (sx sy : bool) (a b da db : Z) :
  represents x sx a 0 da -> represents y sy b 0 db ->
  0 < da <= 53 -> 0 < db <= 53 -> da - db <= 51 ->
  0 < a -> 0 < b -> Z.even (b * 2 ^ (53 - db)) = true ->
  exists (m : positive) (E : Z),
    fdiv x y = S754_finite (xorb sx sy) m (- E)
    /\ 0 <= E
    /\ 2 ^ 52 <= Z.pos m < 2 ^ 53
    /\ Z.abs (2 * Z.pos m * b - 2 * a * 2 ^ E) <= b.
Proof.
  intros Hx Hy Hda Hdb Hdd Ha Hb Heven.
  destruct (represents_short x sx a da Hx ltac:(lia)) as (mx & -> & Hmx & Hax).
  destruct (represents_short y sy b db Hy ltac:(lia)) as (my & -> & Hmy & Hby).
  rewrite <- Hby in Heven.
  unfold fdiv, SFdiv, SFdiv_core_binary.
  rewrite !(Zdigits2_unique _ 53) by (assumption || lia).
  rewrite fexp_normal by lia.
  replace (Z.min (53 + (da - 53) - (53 + (db - 53)) - 53) (da - 53 - (db - 53)))
    with (da - db - 53) by lia.
  replace (da - 53 - (db - 53) - (da - db - 53)) with 53 by lia. cbv iota.
  rewrite Z.shiftl_mul_pow2 by lia.
  pose proof (Z_div_mod (Z.pos mx * 2 ^ 53) (Z.pos my) ltac:(lia)) as Hqr.
  destruct (Z.div_eucl (Z.pos mx * 2 ^ 53) (Z.pos my)) as [q r].
  destruct Hqr as [Hqr Hr].
  unfold new_location. rewrite Heven.
  change (new_location_even (Z.pos my) r) with (locate r (Z.pos my)).
  assert (Hq : 2 ^ 52 <= q < 2 ^ 54).
  { change (2 ^ 54) with (2 ^ 53 * 2) in *. change (2 ^ 53) with (2 ^ 52 * 2) in *.
    nia. }
  assert (Hd : exists dq, (dq = 53 \/ dq = 54) /\ 2 ^ (dq - 1) <= q < 2 ^ dq).
  { destruct (Z.lt_ge_cases q (2 ^ 53)); [exists 53 | exists 54];
      (split; [tauto | split; simpl Z.sub; lia]). }
  destruct Hd as (dq & Hdq & Hqd).
  destruct (binary_round_aux_normal (xorb sx sy) q (da - db - 53) r (Z.pos my) dq
              Hqd ltac:(lia) Hr ltac:(lia) ltac:(lia))
    as (m & e & -> & He & Hm & Hnear & _).
  exists m, (- e). rewrite Z.opp_involutive.
  split; [reflexivity |]. split; [lia |]. split; [assumption |].
  (* the bound, in units of the result *)
  set (E := - e) in *. set (j := e - (da - db - 53)) in *.
  assert (Hj : 0 <= dq - 53 <= j) by (unfold j; lia).
  assert (HE : 0 <= E) by (unfold E; lia).
  assert (Hpow : 2 ^ (53 - da) * 2 ^ 53 = 2 ^ (53 - db) * (2 ^ E * 2 ^ j)).
  { rewrite <- !Z.pow_add_r by lia. f_equal. unfold E, j. lia. }
  assert (HJ : 2 ^ (dq - 53) <= 2 ^ j) by (apply Z.pow_le_mono_r; lia).
  assert (Hp1 : 0 < 2 ^ (53 - db)) by (apply Z.pow_pos_nonneg; lia).
  assert (Hp2 : 0 < 2 ^ j) by (apply Z.pow_pos_nonneg; lia).
  apply (abs_le_cancel (2 ^ (53 - db) * 2 ^ j));
    [apply Z.mul_pos_pos; assumption |].
  replace (2 ^ (53 - db) * 2 ^ j * (2 * Z.pos m * b - 2 * a * 2 ^ E))
    with (2 * Z.pos my * (Z.pos m * 2 ^ j) - 2 * (q * Z.pos my + r)).
  - eapply Z.le_trans; [exact Hnear |]. rewrite Hby.
    replace (2 ^ (53 - db) * 2 ^ j * b) with (b * 2 ^ (53 - db) * 2 ^ j) by ring.
    apply Z.mul_le_mono_nonneg_l; [apply Z.mul_nonneg_nonneg; lia | exact HJ].
  - replace (q * Z.pos my + r) with (Z.pos mx * 2 ^ 53) by lia.
    rewrite Hax, Hby.
    replace (a * 2 ^ (53 - da) * 2 ^ 53) with (a * (2 ^ (53 - da) * 2 ^ 53)) by ring.
    rewrite Hpow. ring.
Qed.

(** The product of a number [a] of [da] bits and a number [mc * 2^-Ec]
    below one is the binary64 number within half a unit in the last place
    of the exact product. *)
Lemma fmul_near (x : spec_float) (sx sc : bool) (mc : positive) (a da Ec : Z) :
  represents x sx a 0 da ->
  0 < da <= 53 -> da + 1 <= Ec -> Ec <= 1000 -> 0 < a ->
  2 ^ 52 <= Z.pos mc < 2 ^ 53 ->
  exists (m : positive) (E : Z),
    fmul x (S754_finite sc mc (- Ec)) = S754_finite (xorb sx sc) m (- E)
    /\ 0 <= E
    /\ 2 ^ 52 <= Z.pos m < 2 ^ 53
    /\ Z.abs (2 * Z.pos m * 2 ^ Ec - 2 * (a * Z.pos mc) * 2 ^ E) <= 2 ^ Ec.
Proof.
  intros Hx Hda HEc HEc' Ha Hmc.
  destruct (represents_short x sx a da Hx ltac:(lia)) as (mx & -> & Hmx & Hax).
  unfold fmul, SFmul. rewrite Pos2Z.inj_mul.
  assert (Hp : 2 ^ 104 <= Z.pos mx * Z.pos mc < 2 ^ 106).
  { change (2 ^ 104) with (2 ^ 52 * 2 ^ 52). change (2 ^ 106) with (2 ^ 53 * 2 ^ 53).
    nia. }
  assert (Hd : exists d, (d = 105 \/ d = 106)
                         /\ 2 ^ (d - 1) <= Z.pos mx * Z.pos mc < 2 ^ d).
  { destruct (Z.lt_ge_cases (Z.pos mx * Z.pos mc) (2 ^ 105));
      [exists 105 | exists 106]; (split; [tauto | split; simpl Z.sub; lia]). }
  destruct Hd as (d & Hd & Hpd).
  destruct (binary_round_aux_normal (xorb sx sc) (Z.pos mx * Z.pos mc)
              (da - 53 + - Ec) 0 1 d Hpd ltac:(lia) ltac:(lia) ltac:(lia) ltac:(lia))
    as (m & e & Heq & He & Hm & Hnear & _).
  change (locate 0 1) with loc_Exact in Heq. rewrite Heq.
  exists m, (- e). rewrite Z.opp_involutive.
  split; [reflexivity |]. split; [lia |]. split; [assumption |].
  set (E := - e) in *. set (j := e - (da - 53 + - Ec)) in *.
  assert (Hj : 0 <= d - 53 <= j) by (unfold j; lia).
  assert (HE : 0 <= E) by (unfold E; lia).
  assert (Hpow : 2 ^ (53 - da) * 2 ^ Ec = 2 ^ E * 2 ^ j).
  { rewrite <- !Z.pow_add_r by lia. f_equal. unfold E, j. lia. }
  assert (HJ : 2 ^ (d - 53) <= 2 ^ j) by (apply Z.pow_le_mono_r; lia).
  assert (Hp1 : 0 < 2 ^ (53 - da)) by (apply Z.pow_pos_nonneg; lia).
  assert (Hp2 : 0 < 2 ^ j) by (apply Z.pow_pos_nonneg; lia).
  assert (Hp3 : 0 < 2 ^ E) by (apply Z.pow_pos_nonneg; lia).
  assert (Hp4 : 0 < 2 ^ Ec) by (apply Z.pow_pos_nonneg; lia).
  apply (abs_le_cancel (2 ^ (53 - da) * 2 ^ j));
    [apply Z.mul_pos_pos; assumption |].
  replace (2 ^ (53 - da) * 2 ^ j
           * (2 * Z.pos m * 2 ^ Ec - 2 * (a * Z.pos mc) * 2 ^ E))
    with (2 ^ E * 2 ^ j
          * (2 * 1 * (Z.pos m * 2 ^ j) - 2 * (Z.pos mx * Z.pos mc * 1 + 0))).
  - assert (Hp5 : 0 < 2 ^ E * 2 ^ j) by (apply Z.mul_pos_pos; assumption).
    rewrite Z.abs_mul, (Z.abs_eq (2 ^ E * 2 ^ j)) by (apply Z.lt_le_incl, Hp5).
    rewrite <- Hpow.
    replace (2 ^ (53 - da) * 2 ^ j * 2 ^ Ec)
      with (2 ^ (53 - da) * 2 ^ Ec * 2 ^ j) by ring.
    apply Z.mul_le_mono_nonneg_l; [rewrite Hpow; apply Z.lt_le_incl, Hp5 |].
    lia.
  - rewrite Hax.
    replace (2 ^ E * 2 ^ j
             * (2 * 1 * (Z.pos m * 2 ^ j)
                - 2 * (a * 2 ^ (53 - da) * Z.pos mc * 1 + 0)))
      with (2 ^ j
            * (2 * Z.pos m * (2 ^ E * 2 ^ j)
               - 2 * (a * Z.pos mc) * 2 ^ E * 2 ^ (53 - da))) by ring.
    rewrite <- Hpow. ring.
Qed.

(** ** [toFixed] on a number near a multiple of [10^-f] *)

Lemma toFixed_finite (s : bool) (m : positive) (E : Z) (f : nat) (n : Z) :
  0 <= E ->
  Z.pos m < 10 ^ 21 * 2 ^ E ->
  2 * 2 ^ E * n <= 2 * Z.pos m * 10 ^ Z.of_nat f + 2 ^ E < 2 * 2 ^ E * (n + 1) ->
  toFixed (S754_finite s m (- E)) f
  = Some ((if s then "-" else "") +:+ fixed_digits n f).
Proof.
  intros HE Hsmall Hn. unfold toFixed.
  rewrite (Z.max_r (- E) 0) by lia. rewrite Z.opp_involutive, (Z.max_l E 0) by lia.
  change (2 ^ 0) with 1. rewrite Z.mul_1_r.
  destruct (Z.leb_spec (10 ^ 21 * 2 ^ E) (Z.pos m)); [lia |].
  do 3 f_equal. symmetry.
  assert (0 < 2 ^ E) by (apply Z.pow_pos_nonneg; lia).
  apply Z.div_unique with (2 * Z.pos m * 10 ^ Z.of_nat f + 2 ^ E - 2 * 2 ^ E * n); lia.
Qed.

Lemma fixed_finite (s : bool) (m : positive) (E : Z) (f : nat) (n : Z) :
  0 <= E ->
  Z.pos m < 10 ^ 21 * 2 ^ E ->
  2 * 2 ^ E * n <= 2 * Z.pos m * 10 ^ Z.of_nat f + 2 ^ E < 2 * 2 ^ E * (n + 1) ->
  fixed (S754_finite s m (- E)) f = (if s then "-" else "") +:+ fixed_digits n f.
Proof.
  intros. unfold fixed. now rewrite (toFixed_finite s m E f n).
Qed.

(** ** The decoded numbers *)

(** A tenth of a 32-bit count, to one decimal place: the count with a point
    before its last digit. *)
Lemma tlm_uptime_exact (ticks : Z) :
  0 <= ticks < 2 ^ 32 ->
  tlm_uptime ticks = fixed_digits ticks 1.
Proof.
  intros Hticks. unfold tlm_uptime.
  destruct (Z.eq_dec ticks 0) as [->|Hne]; [reflexivity |].
  destruct (digits_exist ticks ltac:(lia)) as (d & Hd & Hbits).
  pose proof (digits_mono ticks d 32 Hd ltac:(lia) ltac:(lia) ltac:(lia)) as Hd32.
  assert (Hx : represents (of_int ticks) false ticks 0 d)
    by (apply of_int_pos_represents; lia).
  assert (Hy : represents (of_int 10) false 10 0 4)
    by (apply (of_int_pos_represents 10 4); [split; vm_compute; congruence | lia]).
  destruct (fdiv_near _ _ false false ticks 10 d 4 Hx Hy) as (m & E & -> & HE & Hm & Hnear);
    try lia; [reflexivity |].
  cbn [xorb].
  assert (HpE : 0 < 2 ^ E) by (apply Z.pow_pos_nonneg; lia).
  change (2 ^ 32) with 4294967296 in *. change (2 ^ 52) with 4503599627370496 in *.
  change (2 ^ 53) with 9007199254740992 in *.
  assert (Hbig : 2 ^ 20 < 2 ^ E) by (change (2 ^ 20) with 1048576; nia).
  change (2 ^ 20) with 1048576 in Hbig.
  apply (fixed_finite false m E 1 ticks HE).
  - change (10 ^ 21) with 1000000000000000000000. nia.
  - change (10 ^ Z.of_nat 1) with 10. lia.
Qed.

(** A hundredth of the pressure count, to two decimal places: the count
    with a point before its last two digits. *)
Lemma ruuvi_pressure_exact (raw : Z) :
  0 <= raw < 65536 ->
  ruuvi_pressure raw = fixed_digits (raw + 50000) 2.
Proof.
  intros Hraw. unfold ruuvi_pressure.
  set (a := raw + 50000). assert (Ha : 50000 <= a < 115536) by (unfold a; lia).
  clearbody a. clear raw Hraw.
  destruct (digits_exist a ltac:(lia)) as (d & Hd & Hbits).
  assert (Hd17 : d <= 17) by (apply (digits_mono a d 17); lia).
  assert (Hx : represents (of_int a) false a 0 d)
    by (apply of_int_pos_represents; lia).
  assert (Hy : represents (of_int 100) false 100 0 7)
    by (apply (of_int_pos_represents 100 7); [split; vm_compute; congruence | lia]).
  destruct (fdiv_near _ _ false false a 100 d 7 Hx Hy) as (m & E & -> & HE & Hm & Hnear);
    try lia; [reflexivity |].
  cbn [xorb].
  assert (HpE : 0 < 2 ^ E) by (apply Z.pow_pos_nonneg; lia).
  change (2 ^ 52) with 4503599627370496 in *.
  change (2 ^ 53) with 9007199254740992 in *.
  assert (Hbig : 1048576 < 2 ^ E) by nia.
  apply (fixed_finite false m E 2 a HE).
  - change (10 ^ 21) with 1000000000000000000000. nia.
  - change (10 ^ Z.of_nat 2) with 100. lia.
Qed.

(** The literals are the binary64 numbers nearest to 0.005 and 0.0025:
    a thousand times the mantissa is [5 * 2^60 + 120]. *)
Lemma lit_0_005_nearest :
  lit_0_005 = fdiv (of_int 5) (of_int 1000)
  /\ lit_0_0025 = fdiv (of_int 25) (of_int 10000)
  /\ 1000 * 5764607523034235 = 5 * 2 ^ 60 + 120.
Proof. repeat split; vm_compute; reflexivity. Qed.

(** The product of a count of at most 16 bits and 0.005 (or 0.0025), to two
    decimal places: hundredths [n] such that [n / 100] is within 0.005 of
    the exact product; [scale] is 1 for 0.005 and 2 for 0.0025. *)
Lemma scaled_count_hundredths (s : bool) (m : positive) (a E scale : Z) :
  0 < a < 65536 -> 0 <= E -> (scale = 1 \/ scale = 2) ->
  2 ^ 52 <= Z.pos m < 2 ^ 53 ->
  Z.abs (2 * Z.pos m * (scale * 2 ^ 60) - 2 * (a * 5764607523034235) * 2 ^ E)
    <= scale * 2 ^ 60 ->
  exists n,
    fixed (S754_finite s m (- E)) 2 = (if s then "-" else "") +:+ fixed_digits n 2
    /\ 0 <= n
    /\ Z.abs (2 * scale * n - a) <= scale.
Proof.
  intros Ha HE Hscale Hm Hnear.
  assert (HpE : 0 < 2 ^ E) by (apply Z.pow_pos_nonneg; lia).
  remember (2 ^ E) as P eqn:HeqP.
  change (2 ^ 60) with 1152921504606846976 in *.
  change (2 ^ 52) with 4503599627370496 in *.
  change (2 ^ 53) with 9007199254740992 in *.
  (* the mantissa against the exact product, in thousandths *)
  assert (HaP : 0 <= a * P <= 65535 * P) by nia.
  assert (Hlo : 10 * (a * P) <= 2000 * scale * Z.pos m + 1000 * scale) by lia.
  assert (Hhi : 68719476736 * (2000 * scale * Z.pos m - 10 * (a * P) - 1000 * scale) <= P)
    by lia.
  assert (HP : 1099511627776 <= P) by lia.
  pose proof (Z.div_mod (2 * Z.pos m * 100 + P) (2 * P) ltac:(lia)) as Hdm.
  pose proof (Z.mod_pos_bound (2 * Z.pos m * 100 + P) (2 * P) ltac:(lia)) as Hmod.
  set (n := (2 * Z.pos m * 100 + P) / (2 * P)) in *.
  set (rest := (2 * Z.pos m * 100 + P) mod (2 * P)) in *.
  clearbody n rest.
  assert (Hn : 2 * P * n <= 2 * Z.pos m * 100 + P < 2 * P * (n + 1)) by lia.
  exists n. split; [| split].
  - apply fixed_finite; [assumption | |]; rewrite <- HeqP.
    + change (10 ^ 21) with 1000000000000000000000. nia.
    + change (10 ^ Z.of_nat 2) with 100. lia.
  - nia.
  - assert (Hup : 0 <= 2 * scale * n + scale - a).
    { assert (- 100 * scale < P * (2 * scale * n + scale - a)) by nia. nia. }
    assert (Hdn : 2 * scale * n - a - scale <= 0).
    { assert (1099511627776 * (P * (2 * scale * n - a - scale)) < 1099511627776 * P)
        by nia.
      nia. }
    lia.
Qed.

(** The temperature of a RuuviTag: hundredths [n] within half a hundredth
    of the count times 0.005, with the sign of the count. *)
Lemma ruuvi_temperature_near (raw : Z) :
  -32768 <= raw < 32768 ->
  exists n,
    ruuvi_temperature raw = (if raw <? 0 then "-" else "") +:+ fixed_digits n 2
    /\ 0 <= n /\ Z.abs (2 * n - Z.abs raw) <= 1.
Proof.
  intros Hraw. unfold ruuvi_temperature.
  destruct (Z.eq_dec raw 0) as [->|Hne].
  { exists 0. repeat split; try reflexivity; lia. }
  destruct (digits_exist (Z.abs raw) ltac:(lia)) as (d & Hd & Hbits).
  assert (Hd16 : d <= 16) by (apply (digits_mono (Z.abs raw) d 16); lia).
  pose proof (of_int_represents raw d Hbits ltac:(lia)) as Hx.
  assert (Hmc : 2 ^ 52 <= Z.pos 5764607523034235 < 2 ^ 53)
    by (split; vm_compute; congruence).
  destruct (fmul_near (of_int raw) (raw <? 0) false 5764607523034235
              (Z.abs raw) d 60 Hx ltac:(lia) ltac:(lia) ltac:(lia) ltac:(lia) Hmc)
    as (m & E & Heq & HE & Hm & Hnear).
  change lit_0_005 with (S754_finite false 5764607523034235 (Z.opp 60)).
  rewrite Heq, xorb_false_r.
  apply (scaled_count_hundredths _ m (Z.abs raw) E 1); lia.
Qed.

(** The humidity of a RuuviTag: hundredths [n] within half a hundredth of
    the count times 0.0025. *)
Lemma ruuvi_humidity_near (raw : Z) :
  0 <= raw < 65536 ->
  exists n,
    ruuvi_humidity raw = fixed_digits n 2
    /\ 0 <= n /\ Z.abs (4 * n - raw) <= 2.
Proof.
  intros Hraw. unfold ruuvi_humidity.
  destruct (Z.eq_dec raw 0) as [->|Hne].
  { exists 0. repeat split; try reflexivity; lia. }
  destruct (digits_exist raw ltac:(lia)) as (d & Hd & Hbits).
  assert (Hd16 : d <= 16) by (apply (digits_mono raw d 16); lia).
  pose proof (of_int_pos_represents raw d Hbits ltac:(lia)) as Hx.
  assert (Hmc : 2 ^ 52 <= Z.pos 5764607523034235 < 2 ^ 53)
    by (split; vm_compute; congruence).
  destruct (fmul_near (of_int raw) false false 5764607523034235 raw d 61 Hx
              ltac:(lia) ltac:(lia) ltac:(lia) ltac:(lia) Hmc)
    as (m & E & Heq & HE & Hm & Hnear).
  change lit_0_0025 with (S754_finite false 5764607523034235 (Z.opp 61)).
  rewrite Heq. cbn [xorb].
  destruct (scaled_count_hundredths false m raw E 2) as (n & Hn & Hn0 & Hn4);
    try lia.
  exists n. split; [exact Hn |]. split; [assumption | lia].
Qed.

(** ** The telemetry temperature *)

Lemma float_eqb_eq (x y : spec_float) : float_eqb x y = true -> x = y.
Proof.
  destruct x as [s|s| |s m e], y as [s'|s'| |s' m' e']; cbn [float_eqb];
    try discriminate; try reflexivity.
  - intros H. apply Bool.eqb_prop in H. now subst.
  - intros H. apply Bool.eqb_prop in H. now subst.
  - intros H. apply andb_prop in H as [H He]. apply andb_prop in H as [Hs Hm].
    apply Bool.eqb_prop in Hs. apply Pos.eqb_eq in Hm. apply Z.eqb_eq in He.
    now subst.
Qed.

Lemma all_from_spec (check : Z -> bool) (n : nat) (from z : Z) :
  all_from check from n = true ->
  from <= z < from + Z.of_nat n -> check z = true.
Proof.
  revert from. induction n as [|n IH]; intros from Hall Hz; [lia |].
  cbn [all_from] in Hall. apply andb_prop in Hall as [Hhere Hrest].
  destruct (Z.eq_dec z from) as [->|Hne]; [assumption |].
  apply (IH (from + 1)); [assumption | lia].
Qed.

Lemma tlm_sums_exact : all_from sum_is_exact 0 256 = true.
Proof. vm_compute. reflexivity. Qed.

Lemma tlm_sum_exact (tempInt tempFrac : Z) :
  -128 <= tempInt < 128 -> 0 <= tempFrac < 256 ->
  fadd (of_int tempInt) (fdiv (of_int tempFrac) (of_int 256))
  = binary_normalize 53 1024 (256 * tempInt + tempFrac) (-8) false.
Proof.
  intros Hi Hf. apply float_eqb_eq.
  pose proof (all_from_spec sum_is_exact 256 0 tempFrac tlm_sums_exact
                ltac:(lia)) as H.
  unfold sum_is_exact in H.
  exact (all_from_spec _ 256 (-128) tempInt H ltac:(lia)).
Qed.

(** The temperature of a telemetry frame: the exact value
    [(256 * tempInt + tempFrac) / 256] in hundredths, rounded half away from
    zero, with the sign of the value. *)
Lemma tlm_temperature_exact (tempInt tempFrac : Z) :
  -128 <= tempInt < 128 -> 0 <= tempFrac < 256 ->
  let value := 256 * tempInt + tempFrac in
  tlm_temperature tempInt tempFrac
  = (if value <? 0 then "-" else "")
    +:+ fixed_digits ((2 * Z.abs value * 100 + 256) / (2 * 256)) 2.
Proof.
  intros Hi Hf value. unfold tlm_temperature.
  rewrite tlm_sum_exact by assumption. fold value.
  assert (Hv : -32768 <= value < 32768) by (unfold value; lia).
  clearbody value. clear tempInt tempFrac Hi Hf.
  destruct (Z.eq_dec value 0) as [->|Hne]; [reflexivity |].
  destruct (digits_exist (Z.abs value) ltac:(lia)) as (d & Hd & Hbits).
  assert (Hd16 : d <= 16) by (apply (digits_mono (Z.abs value) d 16); lia).
  assert (Hx : represents (binary_normalize 53 1024 value (-8) false)
                 (value <? 0) (Z.abs value) (-8) d).
  { unfold binary_normalize.
    destruct value as [|p|p]; try lia;
      apply binary_round_exact; try assumption; lia. }
  destruct Hx as (m & -> & Hm & Hval).
  rewrite Z.max_r, Z.max_l in Hval by lia. change (2 ^ 0) with 1 in Hval.
  replace (-8 + d - 53) with (- (61 - d)) by lia.
  assert (HK : 0 < 2 ^ (53 - d)) by (apply Z.pow_pos_nonneg; lia).
  assert (HE : 2 ^ (61 - d) = 256 * 2 ^ (53 - d)).
  { replace (61 - d) with (8 + (53 - d)) by lia. now rewrite Z.pow_add_r by lia. }
  pose proof (Z.div_mod (2 * Z.abs value * 100 + 256) (2 * 256) ltac:(lia)) as Hdm.
  pose proof (Z.mod_pos_bound (2 * Z.abs value * 100 + 256) (2 * 256) ltac:(lia)) as Hmod.
  set (n := (2 * Z.abs value * 100 + 256) / (2 * 256)) in *.
  set (rest := (2 * Z.abs value * 100 + 256) mod (2 * 256)) in *.
  clearbody n rest.
  apply fixed_finite; [lia | |]; rewrite HE.
  - change (10 ^ 21) with 1000000000000000000000.
    change (2 ^ 53) with 9007199254740992 in Hm. nia.
  - change (10 ^ Z.of_nat 2) with 100. nia.
Qed.

(** ** Decimal numerals *)

Lemma digits_of_acc (fuel : nat) (n : Z) (acc : string) :
  digits_of fuel 10 n acc = digits_of fuel 10 n "" +:+ acc.
Proof.
  revert n acc. induction fuel as [|fuel IH]; intros n acc; [reflexivity |].
  cbn [digits_of]. destruct (n / 10 =? 0); [reflexivity |].
  rewrite IH, (IH _ (String _ "")), append_assoc. reflexivity.
Qed.

(** More fuel than digits changes nothing. *)
Lemma digits_of_fuel (fuel fuel' : nat) (n : Z) (acc : string) :
  0 <= n < 2 ^ Z.of_nat (S fuel) -> 0 <= n < 2 ^ Z.of_nat (S fuel') ->
  digits_of (S fuel) 10 n acc = digits_of (S fuel') 10 n acc.
Proof.
  revert fuel' n acc. induction fuel as [|fuel IH]; intros fuel' n acc Hn Hn';
    cbn [digits_of]; destruct (Z.eqb_spec (n / 10) 0) as [|Hq]; try reflexivity;
    assert (H1 : 1 <= n / 10)
      by (pose proof (Z.div_pos n 10 ltac:(lia) ltac:(lia)); lia);
    rewrite Nat2Z.inj_succ, Z.pow_succ_r in Hn, Hn' by lia;
    assert (Hlt : n / 10 < 2 ^ Z.of_nat fuel')
      by (apply Z.div_lt_upper_bound; lia).
  - change (2 ^ Z.of_nat 0) with 1 in Hn.
    assert (n / 10 < 1) by (apply Z.div_lt_upper_bound; lia). lia.
  - assert (Hlt' : n / 10 < 2 ^ Z.of_nat (S fuel))
      by (apply Z.div_lt_upper_bound; lia).
    destruct fuel' as [|fuel'];
      [change (2 ^ Z.of_nat 0) with 1 in Hlt; lia |].
    apply IH; lia.
Qed.

Lemma Number_toString_fuel (n : Z) (fuel : nat) :
  0 <= n < 2 ^ Z.of_nat (S fuel) ->
  Number_toString 10 n = digits_of (S fuel) 10 n "".
Proof.
  intros Hn. unfold Number_toString. apply digits_of_fuel; [| assumption].
  split; [lia |]. rewrite Nat2Z.inj_succ.
  destruct (Z.eq_dec n 0) as [->|Hne]; [reflexivity |].
  rewrite Z2Nat.id by apply Z.log2_nonneg.
  apply Z.log2_spec. lia.
Qed.

Lemma Number_toString_digit (n : Z) :
  0 <= n < 10 -> Number_toString 10 n = String (digit_char n) "".
Proof.
  intros Hn. rewrite (Number_toString_fuel n 3) by (change (2 ^ Z.of_nat 4) with 16; lia).
  cbn [digits_of]. rewrite Z.mod_small, Z.div_small by lia. reflexivity.
Qed.

Lemma Number_toString_step (n : Z) :
  10 <= n ->
  Number_toString 10 n
  = Number_toString 10 (n / 10) +:+ String (digit_char (n mod 10)) "".
Proof.
  intros Hn.
  assert (Hlog : n < 2 ^ Z.succ (Z.log2 n)) by (apply Z.log2_spec; lia).
  pose proof (Z.log2_nonneg n) as Hlog0.
  rewrite (Number_toString_fuel n (Z.to_nat (Z.log2 n)))
    by (rewrite Nat2Z.inj_succ, Z2Nat.id; lia).
  cbn [digits_of].
  destruct (Z.eqb_spec (n / 10) 0) as [Hq|Hq].
  { assert (n / 10 >= 1) by (apply Z.le_ge, Z.div_le_lower_bound; lia). lia. }
  rewrite digits_of_acc. f_equal.
  rewrite Z.pow_succ_r in Hlog by assumption.
  assert (Hlt : n / 10 < 2 ^ Z.log2 n) by (apply Z.div_lt_upper_bound; lia).
  assert (H1 : 1 <= n / 10) by (apply Z.div_le_lower_bound; lia).
  destruct (Z.to_nat (Z.log2 n)) as [|fuel] eqn:Hfuel.
  { assert (Z.log2 n = 0) as H0 by lia. rewrite H0 in Hlt.
    change (2 ^ 0) with 1 in Hlt. lia. }
  symmetry. apply Number_toString_fuel.
  rewrite <- Hfuel, Z2Nat.id by assumption. lia.
Qed.

Lemma length_append (s t : string) :
  String.length (s +:+ t) = (String.length s + String.length t)%nat.
Proof.
  induction s as [|c s IH]; [reflexivity |].
  rewrite append_cons. cbn [String.length]. now rewrite IH.
Qed.

Lemma Number_toString_nonempty (n : Z) :
  0 <= n -> (1 <= String.length (Number_toString 10 n))%nat.
Proof.
  intros Hn. destruct (Z.lt_ge_cases n 10).
  - rewrite Number_toString_digit by lia. cbn. lia.
  - rewrite Number_toString_step, length_append by lia. cbn. lia.
Qed.

Lemma substring_append_l (s t : string) :
  substring 0 (String.length s) (s +:+ t) = s.
Proof.
  induction s as [|c s IH].
  - destruct t; reflexivity.
  - rewrite append_cons. cbn [String.length substring]. now rewrite IH.
Qed.

Lemma substring_append_r (s t : string) :
  substring (String.length s) (String.length t) (s +:+ t) = t.
Proof.
  induction s as [|c s IH].
  - cbn [String.length]. change ("" +:+ t) with t.
    induction t as [|c t IHt]; [reflexivity |].
    cbn [String.length substring]. now rewrite IHt.
  - rewrite append_cons. cbn [String.length substring]. exact IH.
Qed.

(** Cutting a string of integer digits [s] and fraction digits [t]. *)
Lemma cut_point (s t : string) (f : nat) :
  String.length t = f -> (1 <= String.length s)%nat -> (0 < f)%nat ->
  (let m := s +:+ t in
   let m := if (String.length m <=? f)%nat then padStart (S f) "0"%char m else m in
   let k := String.length m in
   substring 0 (k - f) m +:+ "." +:+ substring (k - f) f m)
  = s +:+ "." +:+ t.
Proof.
  intros Ht Hs Hf. cbv zeta.
  rewrite length_append.
  destruct (Nat.leb_spec (String.length s + String.length t) f); [lia |].
  rewrite length_append.
  replace (String.length s + String.length t - f)%nat with (String.length s) by lia.
  rewrite substring_append_l. rewrite <- Ht at 1. now rewrite substring_append_r.
Qed.

(** [toFixed] writes the hundredths [n] as the numeral of [n / 100], and
    the tenths [n] as the numeral of [n / 10]. *)
Lemma fixed_digits_2 (n : Z) : 0 <= n -> fixed_digits n 2 = Spec.numeral 2 n.
Proof.
  intros Hn. unfold fixed_digits, Spec.numeral. change (10 ^ Z.of_nat 2) with 100.
  pose proof (Z.mod_pos_bound n 100 ltac:(lia)) as Hmod.
  pose proof (Z.div_mod n 100 ltac:(lia)) as Hdm.
  destruct (Z.lt_ge_cases n 10) as [H10|H10].
  { rewrite Z.div_small, Z.mod_small by lia.
    destruct (Z.eqb_spec n 0) as [->|Hne]; [reflexivity |].
    rewrite Number_toString_digit by lia. reflexivity. }
  destruct (Z.eqb_spec n 0) as [|_]; [lia |].
  destruct (Z.lt_ge_cases n 100) as [H100|H100].
  { rewrite Z.div_small, Z.mod_small by lia.
    rewrite Number_toString_step by lia.
    rewrite (Number_toString_digit (n / 10))
      by (split; [apply Z.div_pos | apply Z.div_lt_upper_bound]; lia).
    reflexivity. }
  (* three digits or more *)
  assert (Hq : 10 <= n / 10) by (apply Z.div_le_lower_bound; lia).
  assert (Hfrac : Number_toString 10 n
                  = Number_toString 10 (n / 100)
                    +:+ padStart 2 "0"%char (Number_toString 10 (n mod 100))).
  { rewrite (Number_toString_step n), (Number_toString_step (n / 10)) by lia.
    rewrite Z.div_div by lia. change (10 * 10) with 100.
    rewrite append_assoc. f_equal.
    replace ((n / 10) mod 10) with ((n mod 100) / 10)
      by (rewrite (Z.mul_comm 10 10) at 1; change (10 * 10) with 100;
          pose proof (Z.rem_mul_r n 10 10 ltac:(lia) ltac:(lia)) as Hr;
          change (10 * 10) with 100 in Hr; rewrite Hr;
          rewrite Z.mul_comm, Z.div_add by lia;
          rewrite (Z.div_small (n mod 10)) by (apply Z.mod_pos_bound; lia); lia).
    replace (n mod 10) with ((n mod 100) mod 10)
      by (pose proof (Z.rem_mul_r n 10 10 ltac:(lia) ltac:(lia)) as Hr;
          change (10 * 10) with 100 in Hr; rewrite Hr;
          rewrite Z.mul_comm, Z.mod_add by lia; apply Z.mod_mod; lia).
    generalize dependent (n mod 100). intros r Hr _.
    destruct (Z.lt_ge_cases r 10).
    - rewrite Z.div_small, Z.mod_small by lia.
      rewrite Number_toString_digit by lia. reflexivity.
    - rewrite Number_toString_step by lia.
      rewrite (Number_toString_digit (r / 10))
        by (split; [apply Z.div_pos | apply Z.div_lt_upper_bound]; lia).
      reflexivity. }
  rewrite Hfrac.
  apply (cut_point (Number_toString 10 (n / 100))
           (padStart 2 "0"%char (Number_toString 10 (n mod 100))) 2); [| | lia].
  - generalize dependent (n mod 100). intros r Hr _ _.
    destruct (Z.lt_ge_cases r 10).
    + rewrite Number_toString_digit by lia. reflexivity.
    + rewrite Number_toString_step by lia.
      rewrite (Number_toString_digit (r / 10))
        by (split; [apply Z.div_pos | apply Z.div_lt_upper_bound]; lia).
      reflexivity.
  - apply Number_toString_nonempty. apply Z.div_pos; lia.
Qed.

Lemma fixed_digits_1 (n : Z) : 0 <= n -> fixed_digits n 1 = Spec.numeral 1 n.
Proof.
  intros Hn. unfold fixed_digits, Spec.numeral. change (10 ^ Z.of_nat 1) with 10.
  pose proof (Z.mod_pos_bound n 10 ltac:(lia)) as Hmod.
  destruct (Z.lt_ge_cases n 10) as [H10|H10].
  { rewrite Z.div_small, Z.mod_small by lia.
    destruct (Z.eqb_spec n 0) as [->|Hne]; [reflexivity |].
    rewrite Number_toString_digit by lia. reflexivity. }
  destruct (Z.eqb_spec n 0) as [|_]; [lia |].
  rewrite (Number_toString_step n) by lia.
  rewrite (Number_toString_digit (n mod 10)) by lia.
  apply (cut_point (Number_toString 10 (n / 10))
           (padStart 1 "0"%char (String (digit_char (n mod 10)) "")) 1);
    [reflexivity | | lia].
  apply Number_toString_nonempty. apply Z.div_pos; lia.
Qed.

(** ** The telemetry frame and the RuuviTag record, field by field *)

Lemma half_away_exact (n den : Z) :
  0 <= n -> 0 < den -> (2 * Z.abs (n * den) * 1 + den) / (2 * den) = n.
Proof.
  intros Hn Hden. rewrite Z.abs_eq by nia.
  symmetry. apply Z.div_unique with den; nia.
Qed.

Lemma tlm_uptime_spec (ticks : Z) :
  0 <= ticks < 2 ^ 32 -> tlm_uptime ticks = Spec.to_decimals 1 ticks 10.
Proof.
  intros Hticks. rewrite tlm_uptime_exact, fixed_digits_1 by lia.
  unfold Spec.to_decimals, Spec.half_away.
  replace (ticks <? 0) with false by (symmetry; apply Z.ltb_ge; lia).
  change (10 ^ Z.of_nat 1) with 10. rewrite Z.abs_eq by lia.
  replace ((2 * ticks * 10 + 10) / (2 * 10)) with ticks
    by (apply Z.div_unique with 10; lia).
  reflexivity.
Qed.

Lemma tlm_temperature_spec (tempInt tempFrac : Z) :
  -128 <= tempInt < 128 -> 0 <= tempFrac < 256 ->
  tlm_temperature tempInt tempFrac
  = Spec.to_decimals 2 (256 * tempInt + tempFrac) 256.
Proof.
  intros Hi Hf. rewrite tlm_temperature_exact by assumption. cbv zeta.
  unfold Spec.to_decimals, Spec.half_away. change (10 ^ Z.of_nat 2) with 100.
  rewrite fixed_digits_2; [reflexivity |].
  apply Z.div_pos; lia.
Qed.

Lemma ruuvi_pressure_spec (raw : Z) :
  0 <= raw < 65536 ->
  ruuvi_pressure raw = Spec.to_decimals 2 (raw + 50000) 100.
Proof.
  intros Hraw. rewrite ruuvi_pressure_exact, fixed_digits_2 by lia.
  unfold Spec.to_decimals, Spec.half_away.
  replace (raw + 50000 <? 0) with false by (symmetry; apply Z.ltb_ge; lia).
  change (10 ^ Z.of_nat 2) with 100. rewrite Z.abs_eq by lia.
  replace ((2 * (raw + 50000) * 100 + 100) / (2 * 100)) with (raw + 50000)
    by (apply Z.div_unique with 100; lia).
  reflexivity.
Qed.

Lemma ruuvi_temperature_spec (raw : Z) :
  -32768 <= raw < 32768 ->
  Spec.is_rounding 2 (5 * raw) 1000 (ruuvi_temperature raw).
Proof.
  intros Hraw. destruct (ruuvi_temperature_near raw Hraw) as (n & Htext & Hn & Hnear).
  exists n. split; [assumption |]. split.
  - rewrite Htext, fixed_digits_2 by assumption.
    replace (5 * raw <? 0) with (raw <? 0); [reflexivity |].
    destruct (Z.ltb_spec raw 0), (Z.ltb_spec (5 * raw) 0); lia.
  - change (10 ^ Z.of_nat 2) with 100. lia.
Qed.

Lemma ruuvi_humidity_spec (raw : Z) :
  0 <= raw < 65536 ->
  Spec.is_rounding 2 (25 * raw) 10000 (ruuvi_humidity raw).
Proof.
  intros Hraw. destruct (ruuvi_humidity_near raw Hraw) as (n & Htext & Hn & Hnear).
  exists n. split; [assumption |]. split.
  - rewrite Htext, fixed_digits_2 by assumption.
    replace (25 * raw <? 0) with false by (symmetry; apply Z.ltb_ge; lia).
    reflexivity.
  - change (10 ^ Z.of_nat 2) with 100. lia.
Qed.

(** Claim C6. For every Eddystone payload of length at least 14 whose byte
    0 is 0x20, revisions 2 and 3 of [parseEddystone] return the telemetry
    record with the battery voltage read as the big-endian 16-bit number at
    bytes 2-3, the temperature (signed byte 4 plus byte 5 over 256)
    formatted to two decimal places, the packet count read as the big-endian
    32-bit number at bytes 6-9, and a tenth of the big-endian 32-bit number
    at bytes 10-13 formatted to one decimal place. *)
Theorem parseEddystone_TLM_fields (data : DataView) :
  view_ok data ->
  (14 <= byteLength data)%nat ->
  Spec.byte_at (view_bytes data) 0 = 0x20 ->
  let payload := view_bytes data in
  let tlm :=
    EddystoneTLM (Spec.uint16_be payload 2)
      (Spec.to_decimals 2
         (256 * Spec.int8_at payload 4 + Spec.byte_at payload 5) 256)
      (Spec.uint32_be payload 6)
      (Spec.to_decimals 1 (Spec.uint32_be payload 10) 10) in
  V2.parseEddystone data = ret (Some tlm)
  /\ V3.parseEddystone data = ret (Some tlm).
Proof.
  intros Hok Hlen Hframe. cbv zeta.
  set (payload := view_bytes data) in *.
  assert (Hne : byteLength (dv_of data) <> 0%nat)
    by (pose proof (dv_length data Hok); lia).
  assert (Hframe' : Spec.byte_at (view_bytes (dv_of data)) 0 = 32)
    by (rewrite byte_at_dv by (assumption || lia); exact Hframe).
  fold payload. rewrite <- tlm_temperature_spec, <- tlm_uptime_spec.
  2: apply uint32_be_range.
  2: { unfold Spec.int8_at. pose proof (byte_at_range payload 4).
       destruct (128 <=? Spec.byte_at payload 4) eqn:E;
         [apply Z.leb_le in E | apply Z.leb_gt in E]; lia. }
  2: apply byte_at_range.
  fold (TLM_of payload).
  split.
  - rewrite V2_parseEddystone_frame by assumption. cbv zeta. rewrite Hframe'.
    cbn [Z.eqb Pos.eqb].
    destruct (Nat.ltb_spec (byteLength data) 14); [lia | reflexivity].
  - rewrite V3_parseEddystone_frame by assumption. cbv zeta. rewrite Hframe'.
    cbn [Z.eqb Pos.eqb].
    destruct (Nat.ltb_spec (byteLength data) 14); [lia | reflexivity].
Qed.

Lemma parseEddystone_TLM_example3 :
  view_ok (view_of example3)
  /\ (14 <= byteLength (view_of example3))%nat
  /\ Spec.byte_at (view_bytes (view_of example3)) 0 = 0x20
  /\ V2.parseEddystone (view_of example3)
     = ret (Some (EddystoneTLM 3000 "21.50" 100 "3600.0"))
  /\ V3.parseEddystone (view_of example3)
     = ret (Some (EddystoneTLM 3000 "21.50" 100 "3600.0")).
Proof.
  assert (Hok : view_ok (view_of example3)) by (unfold view_ok; simpl; lia).
  assert (Hlen : (14 <= byteLength (view_of example3))%nat) by (simpl; lia).
  destruct (parseEddystone_TLM_fields (view_of example3) Hok Hlen eq_refl)
    as [H2 H3].
  split; [exact Hok |]. split; [exact Hlen |]. split; [reflexivity |].
  split; [exact H2 | exact H3].
Defined.

(** Property X5. The fields of a RuuviTag record of format 5, for a payload
    of at least 24 bytes on a valid view: the temperature is the signed
    16-bit number at bytes 1-2 times 0.005, the humidity the 16-bit number
    at bytes 3-4 times 0.0025, both
    formatted to two decimal places by a rounding to a nearest hundredth
    (binary64 multiplication decides which one when two are nearest); the
    pressure is the 16-bit number at bytes 5-6 plus 50000, over 100, to two
    decimal places; the battery voltage is the 16-bit number at bytes 7-8
    without its low five bits, plus 1600. *)
Lemma parseRuuviTag_format5 (data : DataView) :
  view_ok data ->
  (24 <= byteLength data)%nat ->
  Spec.byte_at (view_bytes data) 0 = 0x05 ->
  let payload := view_bytes data in
  exists temperature humidity,
    V3.parseRuuviTag data
    = ret (Some (RuuviTag temperature humidity
                   (Spec.to_decimals 2 (Spec.uint16_be payload 5 + 50000) 100)
                   (Spec.uint16_be payload 7 / 32 + 1600)))
    /\ Spec.is_rounding 2 (5 * Spec.int16_be payload 1) 1000 temperature
    /\ Spec.is_rounding 2 (25 * Spec.uint16_be payload 3) 10000 humidity.
Proof.
  intros Hok Hlen Hformat. cbv zeta.
  set (payload := view_bytes data) in *.
  assert (Hne : byteLength (dv_of data) <> 0%nat)
    by (pose proof (dv_length data Hok); lia).
  exists (ruuvi_temperature (Spec.int16_be payload 1)),
         (ruuvi_humidity (Spec.uint16_be payload 3)).
  pose proof (uint16_be_range payload 1) as Ht.
  pose proof (uint16_be_range payload 3) as Hh.
  pose proof (uint16_be_range payload 5) as Hp.
  split; [| split].
  - rewrite V3_parseRuuviTag_frame by assumption. cbv zeta.
    rewrite byte_at_dv by (assumption || lia). fold payload.
    rewrite Hformat. cbn [Z.eqb Pos.eqb].
    destruct (Nat.ltb_spec (byteLength data) 24); [lia |].
    unfold Ruuvi_of. fold payload.
    rewrite ruuvi_pressure_spec by assumption.
    rewrite Z.shiftr_div_pow2 by lia. reflexivity.
  - apply ruuvi_temperature_spec. unfold Spec.int16_be.
    destruct (32768 <=? Spec.uint16_be payload 1) eqn:E;
      [apply Z.leb_le in E | apply Z.leb_gt in E]; lia.
  - now apply ruuvi_humidity_spec.
Qed.

Lemma parseRuuviTag_example4 :
  V3.parseRuuviTag (view_of example4)
  = ret (Some (RuuviTag "2.00" "50.00" "550.00" 1600)).
Proof. vm_compute. reflexivity. Qed.

(** Without the format byte 5, or with it in fewer than 24 bytes, a payload
    of at least one byte gives no result. *)
Lemma parseRuuviTag_no_result (data : DataView) :
  view_ok data ->
  (1 <= byteLength data)%nat ->
  Spec.byte_at (view_bytes data) 0 <> 0x05 \/ (byteLength data < 24)%nat ->
  exists msgs, V3.parseRuuviTag data = (msgs, Returns None).
Proof.
  intros Hok Hlen Hcase.
  assert (Hne : byteLength (dv_of data) <> 0%nat)
    by (pose proof (dv_length data Hok); lia).
  rewrite V3_parseRuuviTag_frame by assumption. cbv zeta.
  rewrite byte_at_dv by (assumption || lia).
  destruct (Z.eqb_spec (Spec.byte_at (view_bytes data) 0) 5) as [E|E].
  - destruct (Nat.ltb_spec (byteLength data) 24); [now eexists |].
    destruct Hcase; [contradiction | lia].
  - now eexists.
Qed.

(** Claim C5, at the payload where it fails. A RuuviTag entry without
    payload bytes has a length below 24, and [parseRuuviTag] raises a
    [RangeError] at [dv.getUint8(0)] instead of returning no result; the
    exception leaves [handleAdvertisement]. *)
Theorem parseRuuviTag_empty_raises (pg : Page) :
  (byteLength (view_of []) < 24)%nat
  /\ V3.parseRuuviTag (view_of []) = throw RangeError
  /\ V3.classify (manufacturer_packet "tag" (-70) 0x0499 []) = throw RangeError
  /\ V3.handleAdvertisement (manufacturer_packet "tag" (-70) 0x0499 []) pg
     = (Throws RangeError, pg).
Proof.
  split; [cbn; lia |]. split; [reflexivity |]. split; reflexivity.
Qed.

(** * Further properties *)

(** ** The Eddystone frames on a valid view *)

(** Property X1. For every Eddystone payload of at least 18 bytes whose byte
    0 is 0x00, revisions 2 and 3 of [parseEddystone] return the UID record
    whose namespace is bytes 2 to 11 and whose instance is bytes 12 to 17,
    each in upper-case hexadecimal, two digits per byte. *)
Theorem parseEddystone_UID_fields (data : DataView) :
  view_ok data ->
  (18 <= byteLength data)%nat ->
  Spec.byte_at (view_bytes data) 0 = 0x00 ->
  let payload := view_bytes data in
  let uid :=
    EddystoneUID (Spec.hex_upper (take 10 (drop 2 payload)))
      (Spec.hex_upper (take 6 (drop 12 payload))) in
  V2.parseEddystone data = ret (Some uid)
  /\ V3.parseEddystone data = ret (Some uid).
Proof.
  intros Hok Hlen Hframe. cbv zeta.
  assert (Hne : byteLength (dv_of data) <> 0%nat)
    by (pose proof (dv_length data Hok); lia).
  assert (Hframe' : Spec.byte_at (view_bytes (dv_of data)) 0 = 0)
    by (rewrite byte_at_dv by (assumption || lia); exact Hframe).
  fold (UID_of (view_bytes data)). split.
  - rewrite V2_parseEddystone_frame by assumption. cbv zeta. rewrite Hframe'.
    cbn [Z.eqb]. destruct (Nat.ltb_spec (byteLength data) 18); [lia | reflexivity].
  - rewrite V3_parseEddystone_frame by assumption. cbv zeta. rewrite Hframe'.
    cbn [Z.eqb]. destruct (Nat.ltb_spec (byteLength data) 18); [lia | reflexivity].
Qed.

Lemma parseEddystone_UID_example :
  view_ok (view_of uid_frame)
  /\ (18 <= byteLength (view_of uid_frame))%nat
  /\ Spec.byte_at (view_bytes (view_of uid_frame)) 0 = 0x00
  /\ V2.parseEddystone (view_of uid_frame)
     = ret (Some (EddystoneUID "0102030405060708090A" "A1B2C3D4E5F6"))
  /\ V3.parseEddystone (view_of uid_frame)
     = ret (Some (EddystoneUID "0102030405060708090A" "A1B2C3D4E5F6")).
Proof.
  assert (Hok : view_ok (view_of uid_frame)) by (unfold view_ok; simpl; lia).
  assert (Hlen : (18 <= byteLength (view_of uid_frame))%nat) by (simpl; lia).
  destruct (parseEddystone_UID_fields (view_of uid_frame) Hok Hlen eq_refl)
    as [H2 H3].
  split; [exact Hok |]. split; [exact Hlen |]. split; [reflexivity |].
  split; [exact H2 | exact H3].
Defined.

(** The view the decoders make shows the payload and, behind it, the rest
    of the buffer. *)
Lemma dv_bytes_split (data : DataView) :
  view_ok data ->
  view_bytes (dv_of data)
  = view_bytes data ++ drop (byteOffset data + byteLength data) (buffer data).
Proof.
  intros Hok. rewrite dv_bytes by assumption. unfold view_bytes.
  rewrite <- drop_drop. now rewrite take_drop.
Qed.

(** Property X2. [parseEddystone] hands [decodeEddystoneUrl] the view it has
    made with [new DataView(data.buffer, data.byteOffset)], which runs to
    the end of the buffer, and the loop of [decodeEddystoneUrl] runs to the
    end of that view. So for a URL frame of at least four bytes the URL is
    the scheme of byte 2, what the bytes of the payload from offset 3 on
    stand for, and then what the bytes of the buffer behind the payload
    stand for, in every revision. *)
Theorem parseEddystone_URL_reads_to_buffer_end (data : DataView) :
  view_ok data ->
  (4 <= byteLength data)%nat ->
  Spec.byte_at (view_bytes data) 0 = 0x10 ->
  let payload := view_bytes data in
  let behind := drop (byteOffset data + byteLength data) (buffer data) in
  let url table :=
    Spec.scheme (Spec.byte_at payload 2)
    +:+ Spec.expand_all table (drop 3 payload ++ behind) in
  V1.parseEddystone data = ret (Some (EddystoneURL (url V1.expansions)))
  /\ V2.parseEddystone data = ret (Some (EddystoneURL (url V2.expansions)))
  /\ V3.parseEddystone data = ret (Some (EddystoneURL (url V3.expansions))).
Proof.
  intros Hok Hlen Hframe. cbv zeta.
  pose proof (dv_length data Hok) as Hdv.
  assert (Hne : byteLength (dv_of data) <> 0%nat) by lia.
  assert (Hframe' : Spec.byte_at (view_bytes (dv_of data)) 0 = 16)
    by (rewrite byte_at_dv by (assumption || lia); exact Hframe).
  assert (Hrest : forall table,
             URL_of table (view_bytes (dv_of data))
             = EddystoneURL
                 (Spec.scheme (Spec.byte_at (view_bytes data) 2)
                  +:+ Spec.expand_all table
                        (drop 3 (view_bytes data)
                         ++ drop (byteOffset data + byteLength data) (buffer data)))).
  { intros table. unfold URL_of. rewrite byte_at_dv by (assumption || lia).
    rewrite dv_bytes_split by assumption.
    rewrite drop_app_le by (rewrite view_bytes_length by assumption; lia).
    reflexivity. }
  split; [| split].
  - unfold V1.parseEddystone.
    rewrite new_DataView_ok, bind_ret by assumption.
    rewrite (getUint8_data (dv_of data) (dv_ok data Hok)), bind_ret by lia.
    rewrite Hframe'. cbn [Z.eqb Pos.eqb]. unfold V1.decodeEddystoneUrl.
    rewrite decodeEddystoneUrl_with_spec, bind_ret;
      [| apply dv_ok; assumption | lia].
    fold (URL_of V1.expansions (view_bytes (dv_of data))). now rewrite Hrest.
  - rewrite V2_parseEddystone_frame by assumption. cbv zeta. rewrite Hframe'.
    cbn [Z.eqb Pos.eqb].
    destruct (Nat.ltb_spec (byteLength data) 4); [lia |]. now rewrite Hrest.
  - rewrite V3_parseEddystone_frame by assumption. cbv zeta. rewrite Hframe'.
    cbn [Z.eqb Pos.eqb].
    destruct (Nat.ltb_spec (byteLength data) 4); [lia |]. now rewrite Hrest.
Qed.

(** The payload is the four bytes of [http://a]; the letter [b] and the
    code of [.com/] stand behind it in the buffer. *)
Lemma parseEddystone_URL_in_buffer_example :
  view_ok url_in_buffer
  /\ (4 <= byteLength url_in_buffer)%nat
  /\ Spec.byte_at (view_bytes url_in_buffer) 0 = 0x10
  /\ view_bytes url_in_buffer = [x10; x00; x02; x61]
  /\ V3.parseEddystone url_in_buffer
     = ret (Some (EddystoneURL "http://ab.com/")).
Proof.
  assert (Hok : view_ok url_in_buffer) by (unfold view_ok; simpl; lia).
  assert (Hlen : (4 <= byteLength url_in_buffer)%nat) by (simpl; lia).
  destruct (parseEddystone_URL_reads_to_buffer_end url_in_buffer Hok Hlen eq_refl)
    as (_ & _ & H3).
  split; [exact Hok |]. split; [exact Hlen |]. split; [reflexivity |].
  split; [reflexivity | exact H3].
Defined.

Ltac split_ifs :=
  repeat match goal with
         | |- context [if ?c then _ else _] => destruct c eqn:?
         end.

(** Property X3. When [parseEddystone] raises, on a view inside its buffer.
    Revision 3 never does. Revision 2 raises a [RangeError] exactly when no
    byte is left from the start of the view to the end of the buffer.
    Revision 1 raises then too, and also on a URL frame (frame type 0x10)
    with fewer than three bytes to the end of the buffer. In every other
    case the decoder returns, without a message. *)
Theorem parseEddystone_raises_exactly (data : DataView) :
  view_ok data ->
  let dv := dv_of data in
  let frameType := Spec.byte_at (view_bytes dv) 0 in
  (exists msgs result, V3.parseEddystone data = (msgs, Returns result))
  /\ (if (byteLength dv =? 0)%nat
      then V2.parseEddystone data = throw RangeError
      else exists result, V2.parseEddystone data = ret result)
  /\ (if ((byteLength dv =? 0)%nat
          || (frameType =? 0x10) && (byteLength dv <? 3)%nat)%bool
      then V1.parseEddystone data = throw RangeError
      else exists result, V1.parseEddystone data = ret result).
Proof.
  intros Hok. cbv zeta. split; [| split].
  - now apply V3_parseEddystone_total.
  - destruct (Nat.eqb_spec (byteLength (dv_of data)) 0) as [H|H].
    + now apply V2_parseEddystone_empty.
    + rewrite V2_parseEddystone_frame by assumption. cbv zeta.
      split_ifs; now eexists.
  - unfold V1.parseEddystone.
    rewrite new_DataView_ok, bind_ret by assumption.
    destruct (Nat.eqb_spec (byteLength (dv_of data)) 0) as [H|H]; cbn [orb].
    + unfold getUint8, read. now rewrite H.
    + rewrite (getUint8_data (dv_of data) (dv_ok data Hok)), bind_ret by lia.
      destruct (Spec.byte_at (view_bytes (dv_of data)) 0 =? 16); cbn [andb];
        [| now eexists].
      unfold V1.decodeEddystoneUrl.
      destruct (Nat.ltb_spec (byteLength (dv_of data)) 3) as [H3|H3].
      * unfold decodeEddystoneUrl_with, getUint8, read.
        destruct (Nat.leb_spec (2 + 1) (byteLength (dv_of data))); [lia |].
        reflexivity.
      * rewrite decodeEddystoneUrl_with_spec, bind_ret;
          [now eexists | now apply dv_ok | assumption].
Qed.

Lemma parseEddystone_raises_exactly_example :
  view_ok (view_of [x10; x00])
  /\ (exists msgs result,
        V3.parseEddystone (view_of [x10; x00]) = (msgs, Returns result))
  /\ (exists result, V2.parseEddystone (view_of [x10; x00]) = ret result)
  /\ V1.parseEddystone (view_of [x10; x00]) = throw RangeError.
Proof.
  assert (Hok : view_ok (view_of [x10; x00])) by (unfold view_ok; simpl; lia).
  exact (conj Hok (parseEddystone_raises_exactly (view_of [x10; x00]) Hok)).
Defined.

(** Property X4. A frame that [parseEddystone] does not decode, on a view
    with at least one byte to the end of its buffer: a UID frame of fewer
    than 18 bytes, a URL frame of fewer than 4 and a telemetry frame of
    fewer than 14 give no result and no message in revisions 2 and 3; a
    frame of another type gives no result, and revision 3 logs the type in
    hexadecimal. *)
Theorem parseEddystone_short_or_unknown (data : DataView) :
  view_ok data ->
  byteLength (dv_of data) <> 0%nat ->
  let frameType := Spec.byte_at (view_bytes (dv_of data)) 0 in
  let len := byteLength data in
  ((frameType = 0x00 /\ (len < 18)%nat) \/ (frameType = 0x10 /\ (len < 4)%nat)
   \/ (frameType = 0x20 /\ (len < 14)%nat) ->
   V2.parseEddystone data = ret None /\ V3.parseEddystone data = ret None)
  /\ (frameType <> 0x00 -> frameType <> 0x10 -> frameType <> 0x20 ->
      V2.parseEddystone data = ret None
      /\ V3.parseEddystone data
         = (["Unbekannter Eddystone-Frame-Typ: 0x"
             +:+ Number_toString 16 frameType], Returns None)).
Proof.
  intros Hok Hne. cbv zeta.
  rewrite V2_parseEddystone_frame, V3_parseEddystone_frame by assumption.
  cbv zeta. split.
  - intros [[-> H] | [[-> H] | [-> H]]]; cbn [Z.eqb Pos.eqb];
      apply Nat.ltb_lt in H; rewrite H; split; reflexivity.
  - intros H0 H1 H2.
    apply Z.eqb_neq in H0, H1, H2. rewrite H0, H1, H2. split; reflexivity.
Qed.

Lemma parseEddystone_short_or_unknown_example :
  view_ok (view_of [x30; x00; x01])
  /\ byteLength (dv_of (view_of [x30; x00; x01])) <> 0%nat
  /\ V2.parseEddystone (view_of [x30; x00; x01]) = ret None
  /\ V3.parseEddystone (view_of [x30; x00; x01])
     = (["Unbekannter Eddystone-Frame-Typ: 0x30"], Returns None).
Proof.
  assert (Hok : view_ok (view_of [x30; x00; x01])) by (unfold view_ok; simpl; lia).
  assert (Hne : byteLength (dv_of (view_of [x30; x00; x01])) <> 0%nat)
    by (simpl; lia).
  destruct (parseEddystone_short_or_unknown _ Hok Hne) as [_ H].
  destruct H as [H2 H3]; [vm_compute; discriminate ..|].
  split; [exact Hok |]. split; [exact Hne |]. split; [exact H2 | exact H3].
Defined.

(** ** The RuuviTag payloads on a valid view *)

Lemma parseRuuviTag_format5_example :
  view_ok (view_of example4)
  /\ (24 <= byteLength (view_of example4))%nat
  /\ Spec.byte_at (view_bytes (view_of example4)) 0 = 0x05
  /\ exists temperature humidity,
       V3.parseRuuviTag (view_of example4)
       = ret (Some (RuuviTag temperature humidity "550.00" 1600))
       /\ Spec.is_rounding 2 (5 * 400) 1000 temperature
       /\ Spec.is_rounding 2 (25 * 20000) 10000 humidity.
Proof.
  assert (Hok : view_ok (view_of example4)) by (unfold view_ok; simpl; lia).
  assert (Hlen : (24 <= byteLength (view_of example4))%nat) by (simpl; lia).
  exact (conj Hok (conj Hlen (conj eq_refl
           (parseRuuviTag_format5 (view_of example4) Hok Hlen eq_refl)))).
Defined.

(** Property X6. A payload that [parseRuuviTag] does not decode, on a view
    with at least one byte to the end of its buffer: with the format byte 5
    and fewer than 24 bytes it gives no result and no message; with another
    format byte it gives no result and logs the format in hexadecimal. *)
Theorem parseRuuviTag_short_or_unknown (data : DataView) :
  view_ok data ->
  byteLength (dv_of data) <> 0%nat ->
  let format := Spec.byte_at (view_bytes (dv_of data)) 0 in
  (format = 0x05 -> (byteLength data < 24)%nat ->
   V3.parseRuuviTag data = ret None)
  /\ (format <> 0x05 ->
      V3.parseRuuviTag data
      = (["Unbekanntes RuuviTag-Format: 0x" +:+ Number_toString 16 format],
         Returns None)).
Proof.
  intros Hok Hne. cbv zeta.
  rewrite V3_parseRuuviTag_frame by assumption. cbv zeta. split.
  - intros -> H. cbn [Z.eqb Pos.eqb]. apply Nat.ltb_lt in H. now rewrite H.
  - intros H. apply Z.eqb_neq in H. now rewrite H.
Qed.

Lemma parseRuuviTag_short_or_unknown_example :
  view_ok (view_of [xab; x01])
  /\ byteLength (dv_of (view_of [xab; x01])) <> 0%nat
  /\ V3.parseRuuviTag (view_of [xab; x01])
     = (["Unbekanntes RuuviTag-Format: 0xab"], Returns None).
Proof.
  assert (Hok : view_ok (view_of [xab; x01])) by (unfold view_ok; simpl; lia).
  assert (Hne : byteLength (dv_of (view_of [xab; x01])) <> 0%nat) by (simpl; lia).
  destruct (parseRuuviTag_short_or_unknown _ Hok Hne) as [_ H].
  split; [exact Hok |]. split; [exact Hne |].
  apply H. vm_compute. discriminate.
Defined.

(** ** The chain of the classification, once more *)


(** The update of the page after a classification never raises: a device
    that [discoveredDevices.has] finds has a record to [get]. *)
Lemma update_UI_returns (event : AdvertisementEvent) (b : Beacon) (pg : Page) :
  fst (update_UI event (negb (has_device (dev_id (device event)) pg)) b pg)
  = Returns tt.
Proof.
  destruct (discoveredDevices pg !! dev_id (device event)) as [existing|] eqn:E.
  - now rewrite (update_UI_known event b pg existing E).
  - destruct (update_UI_new event b pg E) as (pg' & -> & _). reflexivity.
Qed.




Lemma V3_classify_outcome (event : AdvertisementEvent) :
  views_ok event ->
  (empty_RuuviTag_entry event /\ V3.classify event = throw RangeError)
  \/ (~ empty_RuuviTag_entry event
      /\ exists msgs result, V3.classify event = (msgs, Returns result)).
Proof.
  intros [Hm Hs]. unfold V3.classify, empty_RuuviTag_entry.
  destruct (manufacturerData event !! 76) as [apple|] eqn:Happle.
  { right. split; [intros (H & _); discriminate H |].
    destruct (iBeacon_rule_total apple (Hm _ _ Happle)) as [-> | [-> [b ->]]];
      now eexists _, _. }
  destruct (serviceData event !! 65194) as [eddystone|] eqn:Heddy.
  { right. split; [intros (_ & H & _); discriminate H |].
    apply V3_parseEddystone_total. exact (Hs _ _ Heddy). }
  destruct (manufacturerData event !! 1177) as [tag|] eqn:Htag.
  { pose proof (Hm _ _ Htag) as Hok.
    destruct (Nat.eq_dec (byteLength (dv_of tag)) 0%nat) as [He|He].
    - left. split; [| now apply V3_parseRuuviTag_empty].
      split; [reflexivity |]. split; [reflexivity |]. now exists tag.
    - right. split.
      + intros (_ & _ & tag' & Heq & H0). injection Heq as <-. contradiction.
      + rewrite V3_parseRuuviTag_frame by assumption. cbv zeta.
        split_ifs; now eexists _, _. }
  right. split; [intros (_ & _ & tag & H & _); discriminate H |].
  split_ifs; now eexists _, _.
Qed.

(** Property X8. When [handleAdvertisement] of revision 3 raises, for an
    advertisement whose views lie inside their buffers: exactly when the
    chain reaches a RuuviTag entry (no key 0x004C, no key 0xFEAA, key 0x0499
    present) whose view has no byte to the end of its buffer. Then a
    [RangeError] leaves the handler and the page is as it was; every other
    advertisement is handled to the end. *)
Theorem V3_handler_raises_exactly (event : AdvertisementEvent) (pg : Page) :
  views_ok event ->
  (empty_RuuviTag_entry event ->
   V3.handleAdvertisement event pg = (Throws RangeError, pg))
  /\ (~ empty_RuuviTag_entry event ->
      fst (V3.handleAdvertisement event pg) = Returns tt).
Proof.
  intros Hok.
  destruct (V3_classify_outcome event Hok)
    as [[Hempty Hc] | [Hnot (msgs & result & Hc)]].
  - split; [intros _ | tauto].
    unfold V3.handleAdvertisement. now rewrite Hc.
  - split; [tauto | intros _].
    destruct result as [b|].
    + rewrite (V3_handle_beacon event pg msgs b Hc). apply update_UI_returns.
    + unfold V3.handleAdvertisement. now rewrite Hc.
Qed.

Lemma views_ok_manufacturer_packet (deviceId : string) (rssi company : Z)
    (payload : list byte) :
  views_ok (manufacturer_packet deviceId rssi company payload).
Proof.
  split; intros key data H; cbn in H.
  - apply lookup_singleton_Some in H as [_ <-]. unfold view_ok. simpl. lia.
  - now rewrite lookup_empty in H.
Qed.

Lemma V3_handler_raises_exactly_example :
  views_ok unknown_tag
  /\ ~ empty_RuuviTag_entry unknown_tag
  /\ fst (V3.handleAdvertisement unknown_tag initial_page) = Returns tt.
Proof.
  assert (Hok : views_ok unknown_tag) by apply views_ok_manufacturer_packet.
  assert (Hnot : ~ empty_RuuviTag_entry unknown_tag).
  { intros (_ & _ & data & Hdata & Hlen). vm_compute in Hdata.
    injection Hdata as <-. vm_compute in Hlen. discriminate Hlen. }
  destruct (V3_handler_raises_exactly unknown_tag initial_page Hok) as [_ H].
  split; [exact Hok |]. split; [exact Hnot | exact (H Hnot)].
Defined.



(** ** The expansion tables of the revisions *)

Lemma expand_V1_V3 (b : byte) :
  Spec.expand V3.expansions b
  = Spec.expand V1.expansions b
    +:+ (if (10 <=? u8 b) && (u8 b <=? 13) then "/" else "").
Proof. destruct b; reflexivity. Qed.

Lemma expand_all_V1_V3 (bs : list byte) :
  Forall (fun b => ~ 10 <= u8 b <= 13) bs ->
  Spec.expand_all V3.expansions bs = Spec.expand_all V1.expansions bs.
Proof.
  induction 1 as [|b bs Hb _ IH]; [reflexivity |].
  cbn [Spec.expand_all]. rewrite IH, expand_V1_V3.
  destruct (Z.leb_spec 10 (u8 b)), (Z.leb_spec (u8 b) 13); cbn [andb];
    try lia; now rewrite append_empty_r.
Qed.

(** Property X10. The URL decoders of the revisions, on a valid view of at
    least three bytes: revisions 2 and 3 decode alike; revision 1 decodes as
    they do when no byte from offset 3 on is one of the codes 10 to 13; for
    each of those four codes revisions 2 and 3 give the text of revision 1
    ([.net], [.info], [.biz], [.gov]) followed by a slash. *)
Theorem url_tables_differ_at_10_to_13 (dataView : DataView) :
  view_ok dataView ->
  (3 <= byteLength dataView)%nat ->
  V2.decodeEddystoneUrl dataView = V3.decodeEddystoneUrl dataView
  /\ (Forall (fun b => ~ 10 <= u8 b <= 13) (drop 3 (view_bytes dataView)) ->
      V1.decodeEddystoneUrl dataView = V3.decodeEddystoneUrl dataView)
  /\ (forall b, 10 <= u8 b <= 13 ->
      Spec.expand V3.expansions b = Spec.expand V1.expansions b +:+ "/").
Proof.
  intros Hok Hlen. split; [reflexivity |]. split.
  - intros Hall. unfold V1.decodeEddystoneUrl, V3.decodeEddystoneUrl.
    rewrite !decodeEddystoneUrl_with_spec by assumption.
    now rewrite expand_all_V1_V3.
  - intros b Hb. rewrite expand_V1_V3.
    destruct (Z.leb_spec 10 (u8 b)), (Z.leb_spec (u8 b) 13); cbn [andb];
      try lia; reflexivity.
Qed.

Lemma url_tables_differ_example :
  view_ok (view_of [x10; x00; x03; x61; x0a])
  /\ (3 <= byteLength (view_of [x10; x00; x03; x61; x0a]))%nat
  /\ V1.decodeEddystoneUrl (view_of [x10; x00; x03; x61; x0a]) = ret "https://a.net"
  /\ V3.decodeEddystoneUrl (view_of [x10; x00; x03; x61; x0a]) = ret "https://a.net/"
  /\ Spec.expand V3.expansions x0a = Spec.expand V1.expansions x0a +:+ "/".
Proof.
  assert (Hok : view_ok (view_of [x10; x00; x03; x61; x0a]))
    by (unfold view_ok; simpl; lia).
  assert (Hlen : (3 <= byteLength (view_of [x10; x00; x03; x61; x0a]))%nat)
    by (simpl; lia).
  destruct (url_tables_differ_at_10_to_13 _ Hok Hlen) as (_ & _ & H).
  split; [exact Hok |]. split; [exact Hlen |].
  split; [reflexivity |]. split; [reflexivity |].
  apply H. vm_compute. split; discriminate.
Defined.

(** ** Hexadecimal text, once more *)

Lemma hex_digit_value_HEXDIGIT (d : Z) :
  0 <= d < 16 -> hex_digit_value (Spec.HEXDIGIT d) = d.
Proof.
  intros Hd.
  assert (H : In d [0; 1; 2; 3; 4; 5; 6; 7; 8; 9; 10; 11; 12; 13; 14; 15])
    by (cbn [In]; lia).
  cbn [In] in H.
  repeat (destruct H as [<- | H]; [reflexivity |]). destruct H.
Qed.

Lemma u8_inj (b b' : byte) : u8 b = u8 b' -> b = b'.
Proof.
  unfold u8. intros H. apply N2Z.inj in H.
  assert (Some b = Some b') as [= ->]; [| reflexivity].
  now rewrite <- (Byte.of_to_N b), <- (Byte.of_to_N b'), H.
Qed.

Lemma HEX_inj (b b' : byte) : Spec.HEX b = Spec.HEX b' -> b = b'.
Proof.
  unfold Spec.HEX. intros [= Hhi Hlo]. apply u8_inj.
  pose proof (u8_range b) as Hb. pose proof (u8_range b') as Hb'.
  apply (f_equal hex_digit_value) in Hhi, Hlo.
  rewrite !hex_digit_value_HEXDIGIT in Hhi, Hlo
    by (try apply Z.mod_pos_bound; try (split; [apply Z.div_pos | apply Z.div_lt_upper_bound]); lia).
  rewrite (Z.div_mod (u8 b) 16), (Z.div_mod (u8 b') 16) by lia. lia.
Qed.

Lemma hex_upper_cons (b : byte) (bs : list byte) :
  Spec.hex_upper (b :: bs) = Spec.HEX b +:+ Spec.hex_upper bs.
Proof. reflexivity. Qed.

Lemma hex_upper_app (bs cs : list byte) :
  Spec.hex_upper (bs ++ cs) = Spec.hex_upper bs +:+ Spec.hex_upper cs.
Proof.
  induction bs as [|b bs IH]; [reflexivity |].
  cbn [app]. now rewrite !hex_upper_cons, IH, append_assoc.
Qed.

Lemma hex_upper_length (bs : list byte) :
  String.length (Spec.hex_upper bs) = (2 * List.length bs)%nat.
Proof.
  induction bs as [|b bs IH]; [reflexivity |].
  rewrite hex_upper_cons. unfold Spec.HEX. rewrite !append_cons.
  cbn [String.length List.length]. change ("" +:+ Spec.hex_upper bs) with (Spec.hex_upper bs).
  lia.
Qed.

Lemma hex_upper_inj (bs bs' : list byte) :
  Spec.hex_upper bs = Spec.hex_upper bs' -> bs = bs'.
Proof.
  revert bs'. induction bs as [|b bs IH]; intros [|b' bs'] H.
  - reflexivity.
  - discriminate H.
  - discriminate H.
  - rewrite !hex_upper_cons in H. unfold Spec.HEX in H.
    rewrite !append_cons in H. injection H as Hhi Hlo Hrest.
    change ("" +:+ ?s) with s in Hrest.
    f_equal; [| now apply IH].
    apply HEX_inj. unfold Spec.HEX. now rewrite Hhi, Hlo.
Qed.

(** Property X11. [bytesToHex] writes two characters per byte, and different
    byte strings get different texts: the namespace and the instance of a
    UID record determine the bytes they were read from. *)
Theorem bytesToHex_injective (bs bs' : list byte) :
  String.length (bytesToHex bs) = (2 * List.length bs)%nat
  /\ (bytesToHex bs = bytesToHex bs' -> bs = bs').
Proof.
  rewrite !bytesToHex_spec. split; [apply hex_upper_length | apply hex_upper_inj].
Qed.

Lemma without_app (c : ascii) (s t : string) :
  without c (s +:+ t) = without c s +:+ without c t.
Proof.
  induction s as [|c' s IH]; [reflexivity |].
  rewrite append_cons. cbn [without]. rewrite IH.
  now destruct (Ascii.eqb c c').
Qed.

Lemma HEXDIGIT_not_hyphen (d : Z) : Ascii.eqb "-" (Spec.HEXDIGIT d) = false.
Proof.
  unfold Spec.HEXDIGIT. generalize (Z.to_nat d). intros n.
  do 16 (destruct n as [|n]; [reflexivity |]). reflexivity.
Qed.

Lemma without_hyphen_hex_upper (bs : list byte) :
  without "-" (Spec.hex_upper bs) = Spec.hex_upper bs.
Proof.
  induction bs as [|b bs IH]; [reflexivity |].
  rewrite hex_upper_cons. unfold Spec.HEX. rewrite !append_cons.
  change ("" +:+ ?s) with s. cbn [without].
  now rewrite !HEXDIGIT_not_hyphen, IH.
Qed.

Lemma uuid_without_hyphens (bs : list byte) :
  without "-" (Spec.uuid_8_4_4_4_12 bs) = Spec.hex_upper (take 16 bs).
Proof.
  unfold Spec.uuid_8_4_4_4_12.
  rewrite !without_app, !without_hyphen_hex_upper.
  change (without "-" "-") with "".
  repeat change ("" +:+ ?s) with s.
  rewrite <- !hex_upper_app, !app_assoc. f_equal.
  now rewrite !take_take_drop.
Qed.

(** Property X12. For 16 bytes [bytesToUuid] gives 36 characters; without
    its hyphens the text is what [bytesToHex] gives for the same bytes; and
    different UUIDs get different texts. *)
Theorem bytesToUuid_injective (bs bs' : list byte) :
  List.length bs = 16%nat ->
  List.length bs' = 16%nat ->
  String.length (bytesToUuid bs) = 36%nat
  /\ without "-" (bytesToUuid bs) = bytesToHex bs
  /\ (bytesToUuid bs = bytesToUuid bs' -> bs = bs').
Proof.
  intros Hlen Hlen'.
  assert (Hstrip : forall l, List.length l = 16%nat ->
                     without "-" (bytesToUuid l) = bytesToHex l).
  { intros l Hl. rewrite bytesToUuid_spec, bytesToHex_spec by assumption.
    rewrite uuid_without_hyphens. now rewrite firstn_all2 by lia. }
  split; [| split].
  - rewrite bytesToUuid_spec by assumption. unfold Spec.uuid_8_4_4_4_12.
    rewrite !length_append, !hex_upper_length, !length_take, !length_drop.
    rewrite Hlen. reflexivity.
  - now apply Hstrip.
  - intros H. apply (f_equal (without "-")) in H.
    rewrite !Hstrip, !bytesToHex_spec in H by assumption.
    now apply hex_upper_inj.
Qed.

Lemma bytesToUuid_injective_example :
  List.length (take 16 (drop 2 example1)) = 16%nat
  /\ String.length (bytesToUuid (take 16 (drop 2 example1))) = 36%nat
  /\ without "-" (bytesToUuid (take 16 (drop 2 example1)))
     = "0102030405060708090A0B0C0D0E0F10".
Proof.
  destruct (bytesToUuid_injective (take 16 (drop 2 example1))
              (take 16 (drop 2 example1)) eq_refl eq_refl) as (H1 & H2 & _).
  split; [reflexivity |]. split; [exact H1 | exact H2].
Defined.

(** ** One card per device *)

Lemma classified_false (classify : AdvertisementEvent -> Logged (option Beacon))
    (event : AdvertisementEvent) :
  classified classify event = false ->
  forall b, snd (classify event) <> Returns (Some b).
Proof.
  intros H. pose proof (classified_spec classify event) as Hc.
  now rewrite H in Hc.
Qed.

Lemma V1_handler : handler_of V1.classify V1.handleAdvertisement.
Proof.
  split; [intros event pg msgs b; apply V1_handle_beacon |].
  intros event pg H. pose proof (classified_false _ _ H) as Hc.
  unfold V1.handleAdvertisement.
  destruct (V1.classify event) as [msgs [[b|]|e]]; cbn [snd] in *;
    [now destruct (Hc b) | |]; apply same_cards_log_all.
Qed.

Lemma V2_handler : handler_of V2.classify V2.handleAdvertisement.
Proof.
  split; [intros event pg msgs b; apply V2_handle_beacon |].
  intros event pg H. pose proof (classified_false _ _ H) as Hc.
  unfold V2.handleAdvertisement.
  destruct (V2.classify event) as [msgs [[b|]|e]]; cbn [snd] in *;
    [now destruct (Hc b) | |].
  - eapply same_cards_trans;
      [apply same_cards_log_all | apply V2_unusable_same_cards].
  - apply same_cards_log_all.
Qed.

Lemma V3_handler : handler_of V3.classify V3.handleAdvertisement.
Proof.
  split; [intros event pg msgs b; apply V3_handle_beacon |].
  intros event pg H. pose proof (classified_false _ _ H) as Hc.
  unfold V3.handleAdvertisement.
  destruct (V3.classify event) as [msgs [[b|]|e]]; cbn [snd] in *;
    [now destruct (Hc b) | |]; apply same_cards_log_all.
Qed.

Lemma one_card_same_cards (pg pg' : Page) :
  same_cards pg pg' -> one_card_per_device pg -> one_card_per_device pg'.
Proof.
  unfold one_card_per_device. intros (Hm & He & Hr) H.
  now rewrite Hm, He, Hr.
Qed.

Lemma one_card_known (pg : Page) (deviceId : string) (existing : Entry) (r : Z) :
  one_card_per_device pg ->
  one_card_per_device (updateBeaconCardRSSI (cardElement existing) r pg).
Proof.
  intros (Hdiv & Hsize & Hrec). unfold one_card_per_device.
  cbn [updateBeaconCardRSSI discoveredDevices elements resultsDiv].
  rewrite length_alter. split; [assumption |]. split; [assumption |].
  intros d entry Hd. destruct (Hrec d entry Hd) as (Hdev & card & Hcard & Hid & Hty).
  split; [assumption |].
  destruct (Nat.eq_dec (cardElement entry) (cardElement existing)) as [E|E].
  - exists (set_rssi r card). rewrite E, list_lookup_alter_eq, <- E, Hcard.
    now repeat split.
  - exists card. rewrite list_lookup_alter_ne by congruence. now repeat split.
Qed.

Lemma one_card_new (pg pg' : Page) (event : AdvertisementEvent) (b : Beacon) :
  one_card_per_device pg ->
  discoveredDevices pg !! dev_id (device event) = None ->
  discoveredDevices pg'
  = <[dev_id (device event) :=
        {| entry_device := device event;
           cardElement := List.length (elements pg);
           entry_type := type b |}]> (discoveredDevices pg) ->
  elements pg'
  = elements pg ++ [{| data_device_id := dev_id (device event);
                       card_beacon := b; rssi_value := rssi event |}] ->
  resultsDiv pg' = List.length (elements pg) :: resultsDiv pg ->
  one_card_per_device pg'.
Proof.
  intros (Hdiv & Hsize & Hrec) Hnew Hm He Hr. unfold one_card_per_device.
  rewrite Hm, He, Hr, length_app. cbn [List.length].
  replace (List.length (elements pg) + 1)%nat
    with (S (List.length (elements pg))) by lia.
  split; [| split].
  - rewrite seq_S, rev_app_distr, Hdiv. reflexivity.
  - rewrite map_size_insert_None by assumption. now rewrite Hsize.
  - intros d entry Hd.
    destruct (decide (dev_id (device event) = d)) as [<- | Hne].
    + rewrite lookup_insert_eq in Hd. injection Hd as <-. cbn.
      split; [reflexivity |].
      exists {| data_device_id := dev_id (device event); card_beacon := b;
                rssi_value := rssi event |}.
      split; [| split; reflexivity].
      now rewrite lookup_app_r, Nat.sub_diag by lia.
    + rewrite lookup_insert_ne in Hd by assumption.
      destruct (Hrec d entry Hd) as (Hdev & card & Hcard & Hid & Hty).
      split; [assumption |]. exists card.
      rewrite lookup_app_l by (now apply lookup_lt_Some in Hcard).
      now repeat split.
Qed.

Lemma one_card_initial : one_card_per_device initial_page.
Proof.
  split; [reflexivity |]. split; [reflexivity |].
  intros d entry H. cbn in H. now rewrite lookup_empty in H.
Qed.

Lemma run_snoc (handle : AdvertisementEvent -> Page -> Outcome unit * Page)
    (events : list AdvertisementEvent) (event : AdvertisementEvent) (pg : Page) :
  run handle (events ++ [event]) pg = step handle (run handle events pg) event.
Proof. unfold run. now rewrite fold_left_app. Qed.

Lemma sightings_snoc (classify : AdvertisementEvent -> Logged (option Beacon))
    (deviceId : string) (events : list AdvertisementEvent)
    (event : AdvertisementEvent) :
  sightings classify deviceId (events ++ [event])
  = sightings classify deviceId events
    ++ (if classified classify event
           && bool_decide (dev_id (device event) = deviceId)
        then [event] else []).
Proof. unfold sightings. now rewrite List.filter_app. Qed.

Section Cards.

Variable classify : AdvertisementEvent -> Logged (option Beacon).
Variable handle : AdvertisementEvent -> Page -> Outcome unit * Page.
Hypothesis handler : handler_of classify handle.

Lemma one_card_step (pg : Page) (event : AdvertisementEvent) :
  one_card_per_device pg -> one_card_per_device (step handle pg event).
Proof.
  intros Hinv. destruct handler as [Hbeacon Hnothing]. unfold step.
  pose proof (classified_spec classify event) as Hc.
  destruct (classified classify event) eqn:Hcl.
  - destruct Hc as (msgs & b & Hc). rewrite (Hbeacon event pg msgs b Hc).
    destruct (discoveredDevices pg !! dev_id (device event)) as [existing|] eqn:E.
    + rewrite (update_UI_known event b pg existing E). cbn [snd].
      now apply (one_card_known pg (dev_id (device event))).
    + destruct (update_UI_new event b pg E) as (pg' & -> & Hm & He & Hr).
      cbn [snd]. now apply (one_card_new pg pg' event b).
  - eapply one_card_same_cards; [apply Hnothing; assumption | assumption].
Qed.

Lemma one_card_run (events : list AdvertisementEvent) (pg : Page) :
  one_card_per_device pg -> one_card_per_device (run handle events pg).
Proof.
  revert pg. induction events as [|event events IH]; intros pg Hinv;
    [assumption |].
  cbn [run fold_left]. fold (run handle events (step handle pg event)).
  now apply IH, one_card_step.
Qed.

(** What the page shows of one device after the advertisements [events]. *)
Lemma shows_step (events : list AdvertisementEvent) (pg : Page)
    (event : AdvertisementEvent) :
  one_card_per_device pg ->
  (forall deviceId, shown classify deviceId events pg) ->
  forall deviceId,
    shown classify deviceId (events ++ [event]) (step handle pg event).
Proof.
  intros (_ & _ & Hrec) IH d. destruct handler as [Hbeacon Hnothing].
  unfold shown, step. rewrite sightings_snoc.
  pose proof (IH d) as IHd. unfold shown in IHd.
  pose proof (classified_spec classify event) as Hc.
  destruct (classified classify event) eqn:Hcl; cbn [andb].
  - destruct Hc as (msgs & b & Hc). rewrite (Hbeacon event pg msgs b Hc).
    destruct (discoveredDevices pg !! dev_id (device event)) as [existing|] eqn:E.
    + rewrite (update_UI_known event b pg existing E). cbn [snd].
      cbn [updateBeaconCardRSSI discoveredDevices elements].
      destruct (decide (dev_id (device event) = d)) as [<- | Hne].
      * rewrite bool_decide_eq_true_2 by reflexivity.
        destruct (sightings classify (dev_id (device event)) events)
          as [|first later]; [congruence |].
        destruct IHd as (entry & card & msgs0 & Hentry & Hcard & Hfirst & Hty & _).
        rewrite E in Hentry. injection Hentry as <-.
        cbn [app]. exists existing, (set_rssi (rssi event) card), msgs0.
        rewrite list_lookup_alter_eq, Hcard, last_last. now repeat split.
      * rewrite bool_decide_eq_false_2, app_nil_r by assumption.
        destruct (sightings classify d events) as [|first later];
          [assumption |].
        destruct IHd as (entry & card & msgs0 & Hentry & Hcard & Hrest).
        exists entry, card, msgs0. split; [assumption |]. split; [| assumption].
        rewrite list_lookup_alter_ne; [assumption |].
        intros Heq.
        destruct (Hrec _ _ E) as (_ & card1 & Hcard1 & Hid1 & _).
        destruct (Hrec _ _ Hentry) as (_ & card2 & Hcard2 & Hid2 & _).
        rewrite Heq in Hcard1. congruence.
    + destruct (update_UI_new event b pg E) as (pg' & -> & Hm & He & _).
      cbn [snd]. rewrite Hm, He.
      destruct (decide (dev_id (device event) = d)) as [<- | Hne].
      * rewrite bool_decide_eq_true_2 by reflexivity.
        destruct (sightings classify (dev_id (device event)) events)
          as [|first later].
        -- cbn [app]. eexists _, _, msgs. rewrite lookup_insert_eq.
           split; [reflexivity |]. cbn [cardElement].
           rewrite lookup_app_r, Nat.sub_diag by lia.
           split; [reflexivity |]. now repeat split.
        -- destruct IHd as (entry & _ & _ & Hentry & _). congruence.
      * rewrite bool_decide_eq_false_2, app_nil_r by assumption.
        rewrite lookup_insert_ne by assumption.
        destruct (sightings classify d events) as [|first later];
          [assumption |].
        destruct IHd as (entry & card & msgs0 & Hentry & Hcard & Hrest).
        exists entry, card, msgs0. split; [assumption |]. split; [| assumption].
        rewrite lookup_app_l by (now apply lookup_lt_Some in Hcard). assumption.
  - rewrite app_nil_r. destruct (Hnothing event pg Hcl) as (-> & -> & _).
    assumption.
Qed.

Lemma shows_run (events : list AdvertisementEvent) :
  forall deviceId,
    shown classify deviceId events (run handle events initial_page).
Proof.
  induction events as [|event events IH] using rev_ind; intros d.
  - unfold shown. cbn. apply lookup_empty.
  - rewrite run_snoc. apply shows_step; [| assumption].
    apply (one_card_run events), one_card_initial.
Qed.

End Cards.

(** Property X13. After any sequence of advertisements, from the empty
    page, every revision keeps one card per device: the children of
    [resultsDiv] are the cards, the newest first; there are as many cards
    as records; and the record of a device refers to the card that was made
    for that device and has the type of the card's content. *)
Theorem one_card_per_device_always (events : list AdvertisementEvent) :
  one_card_per_device (run V1.handleAdvertisement events initial_page)
  /\ one_card_per_device (run V2.handleAdvertisement events initial_page)
  /\ one_card_per_device (run V3.handleAdvertisement events initial_page).
Proof.
  split; [| split].
  - apply (one_card_run V1.classify), one_card_initial. apply V1_handler.
  - apply (one_card_run V2.classify), one_card_initial. apply V2_handler.
  - apply (one_card_run V3.classify), one_card_initial. apply V3_handler.
Qed.

(** Property X14. After any sequence of advertisements, from the empty
    page, the card of a device shows the beacon of the first classified
    advertisement of that device, whatever the later ones decode to, and the
    RSSI of the last classified one; a device without classified
    advertisement has no record. This holds in every revision. *)
Theorem card_shows_first_beacon_last_rssi
    (events : list AdvertisementEvent) (deviceId : string) :
  shown V1.classify deviceId events (run V1.handleAdvertisement events initial_page)
  /\ shown V2.classify deviceId events (run V2.handleAdvertisement events initial_page)
  /\ shown V3.classify deviceId events (run V3.handleAdvertisement events initial_page).
Proof.
  split; [| split].
  - apply shows_run, V1_handler.
  - apply shows_run, V2_handler.
  - apply shows_run, V3_handler.
Qed.

(** ** The debug window *)

Lemma split_lines_nonempty (s : string) : split_lines s <> [].
Proof.
  induction s as [|c s IH]; cbn [split_lines]; [discriminate |].
  destruct (Ascii.eqb c newline); [discriminate |].
  destruct (split_lines s); discriminate.
Qed.

Lemma split_lines_single (s : string) :
  Forall (fun line => lacks newline line = true) (split_lines s).
Proof.
  induction s as [|c s IH]; cbn [split_lines]; [now repeat constructor |].
  destruct (Ascii.eqb c newline) eqn:E; [now constructor |].
  destruct (split_lines s) as [|line lines].
  { constructor; [| constructor]. cbn [lacks]. now rewrite E. }
  inversion IH as [|? ? Hline Hlines]; subst.
  constructor; [| assumption]. cbn [lacks]. now rewrite E, Hline.
Qed.

(** The lines of a text have no character that the text has not. *)
Lemma split_lines_lacks (c : ascii) (s : string) :
  lacks c s = true ->
  Forall (fun line => lacks c line = true) (split_lines s).
Proof.
  induction s as [|c' s IH]; intros H; [now repeat constructor |].
  cbn [lacks] in H. apply andb_prop in H as [Hc H]. specialize (IH H).
  cbn [split_lines]. destruct (Ascii.eqb c' newline); [now constructor |].
  destruct (split_lines s) as [|line lines].
  { constructor; [| constructor]. cbn [lacks]. now rewrite Hc. }
  inversion IH as [|? ? Hline Hlines]; subst.
  constructor; [| assumption]. cbn [lacks]. now rewrite Hc, Hline.
Qed.

Lemma split_lines_line (line rest : string) :
  lacks newline line = true ->
  split_lines (line +:+ String newline rest) = line :: split_lines rest.
Proof.
  induction line as [|c line IH]; intros H.
  - change ("" +:+ String newline rest) with (String newline rest).
    cbn [split_lines]. now rewrite Ascii.eqb_refl.
  - cbn [lacks] in H. apply andb_prop in H as [Hc H].
    apply negb_true_iff in Hc. rewrite append_cons. cbn [split_lines].
    now rewrite Hc, IH.
Qed.

Lemma split_lines_one (line : string) :
  lacks newline line = true -> split_lines line = [line].
Proof.
  induction line as [|c line IH]; intros H; [reflexivity |].
  cbn [lacks] in H. apply andb_prop in H as [Hc H].
  apply negb_true_iff in Hc. cbn [split_lines]. now rewrite Hc, IH.
Qed.

(** Lines that were split off can be joined and split again. *)
Lemma split_join_lines (lines : list string) :
  lines <> [] ->
  Forall (fun line => lacks newline line = true) lines ->
  split_lines (join_lines lines) = lines.
Proof.
  induction lines as [|line lines IH]; intros Hne Hall; [contradiction |].
  inversion Hall as [|? ? Hline Hlines]; subst.
  destruct lines as [|line' lines].
  - cbn [join_lines]. now apply split_lines_one.
  - change (join_lines (line :: line' :: lines))
      with (line +:+ String newline (join_lines (line' :: lines))).
    rewrite split_lines_line by assumption. f_equal. now apply IH.
Qed.

(** Property X15. After a call of [log] the debug window holds at most 100
    lines, whatever it held before and whatever the message is, a message
    of several lines included. *)
Theorem log_keeps_100_lines (timestamp message value : string) :
  (List.length (split_lines (log_value timestamp message value)) <= 100)%nat.
Proof.
  unfold log_value. cbv zeta.
  generalize
    (normalize_newlines (stamped timestamp message +:+ String newline "" +:+ value)).
  intros text.
  destruct (Nat.ltb_spec 100 (List.length (split_lines text))) as [H|H];
    [| assumption].
  rewrite split_join_lines.
  - rewrite length_take. lia.
  - destruct (split_lines text); [simpl in H; lia | discriminate].
  - apply Forall_take, split_lines_single.
Qed.

Lemma lacks_app (c : ascii) (s t : string) :
  lacks c (s +:+ t) = lacks c s && lacks c t.
Proof.
  induction s as [|c' s IH]; [reflexivity |].
  rewrite append_cons. cbn [lacks]. now rewrite IH, andb_assoc.
Qed.

Lemma single_line_stamped (timestamp message : string) :
  single_line timestamp = true -> single_line message = true ->
  single_line (stamped timestamp message) = true.
Proof.
  unfold single_line. intros Ht Hm.
  apply andb_prop in Ht as [Ht Ht']. apply andb_prop in Hm as [Hm Hm'].
  unfold stamped. rewrite !lacks_app, Ht, Ht', Hm, Hm'. reflexivity.
Qed.

Lemma join_lines_lacks (c : ascii) (lines : list string) :
  Ascii.eqb newline c = false ->
  Forall (fun line => lacks c line = true) lines ->
  lacks c (join_lines lines) = true.
Proof.
  intros Hc. induction lines as [|line lines IH]; intros Hall; [reflexivity |].
  inversion Hall as [|? ? Hline Hlines]; subst.
  destruct lines as [|line' lines]; [exact Hline |].
  change (join_lines (line :: line' :: lines))
    with (line +:+ String newline (join_lines (line' :: lines))).
  rewrite lacks_app, Hline. cbn [lacks andb]. rewrite Hc. now apply IH.
Qed.

(** The text that the window returns has no carriage return. *)
Lemma normalize_newlines_lacks_upto (n : nat) (s : string) :
  (String.length s <= n)%nat ->
  lacks carriage_return (normalize_newlines s) = true.
Proof.
  revert s. induction n as [|n IH]; intros [|c s] Hlen; try reflexivity;
    [simpl in Hlen; lia |].
  simpl in Hlen. cbn [normalize_newlines].
  destruct (Ascii.eqb c carriage_return) eqn:E.
  - cbn [lacks]. change (Ascii.eqb newline carriage_return) with false.
    cbn [negb andb]. destruct s as [|c' s']; [reflexivity |].
    simpl in Hlen. destruct (Ascii.eqb c' newline); apply IH; simpl; lia.
  - cbn [lacks]. rewrite E. apply IH. lia.
Qed.

Lemma normalize_newlines_lacks (s : string) :
  lacks carriage_return (normalize_newlines s) = true.
Proof. now apply (normalize_newlines_lacks_upto (String.length s)). Qed.

(** A text without carriage return is returned as it was assigned. *)
Lemma normalize_newlines_id (s : string) :
  lacks carriage_return s = true -> normalize_newlines s = s.
Proof.
  induction s as [|c s IH]; intros H; [reflexivity |].
  cbn [lacks] in H. apply andb_prop in H as [Hc H].
  apply negb_true_iff in Hc. cbn [normalize_newlines]. now rewrite Hc, IH.
Qed.

Lemma log_value_lacks (timestamp message value : string) :
  lacks carriage_return (log_value timestamp message value) = true.
Proof.
  unfold log_value. cbv zeta.
  pose proof (normalize_newlines_lacks
                (stamped timestamp message +:+ String newline "" +:+ value)) as H.
  revert H.
  generalize
    (normalize_newlines (stamped timestamp message +:+ String newline "" +:+ value)).
  intros text H.
  destruct (100 <? List.length (split_lines text))%nat; [| exact H].
  apply join_lines_lacks; [reflexivity |].
  now apply Forall_take, split_lines_lacks.
Qed.

Lemma log_values_lacks (calls : list (string * string)) :
  lacks carriage_return (log_values calls "") = true.
Proof.
  destruct calls as [|call calls] using rev_ind; [reflexivity |].
  unfold log_values. rewrite fold_left_app. apply log_value_lacks.
Qed.

Lemma take_cons_take {A} (n : nat) (x : A) (l : list A) :
  take (S n) (x :: take (S n) l) = take (S n) (x :: l).
Proof. cbn [firstn]. f_equal. rewrite take_take. f_equal. lia. Qed.

(** One call with a one-line message: the new line on top of the old ones,
    cut after 100 lines. *)
Lemma log_value_lines (timestamp message value : string) :
  single_line timestamp = true -> single_line message = true ->
  lacks carriage_return value = true ->
  split_lines (log_value timestamp message value)
  = take 100 (stamped timestamp message :: split_lines value).
Proof.
  intros Ht Hm Hvalue. unfold log_value. cbv zeta.
  pose proof (single_line_stamped _ _ Ht Hm) as Hline.
  unfold single_line in Hline. apply andb_prop in Hline as [Hline Hline'].
  rewrite normalize_newlines_id
    by (rewrite !lacks_app, Hline', Hvalue; reflexivity).
  change (String newline "" +:+ value) with (String newline value).
  rewrite split_lines_line by assumption.
  destruct (Nat.ltb_spec 100
              (List.length (stamped timestamp message :: split_lines value)))
    as [H|H].
  - apply split_join_lines.
    + discriminate.
    + apply Forall_take. constructor; [assumption | apply split_lines_single].
  - rewrite split_lines_line by assumption. now rewrite firstn_all2.
Qed.

(** A carriage return in a message breaks the line as a line feed does, and
    a carriage return with a line feed breaks it once. *)
Lemma carriage_return_breaks_line :
  split_lines
    (log_value "10:15:00" ("a" +:+ String carriage_return "b") "")
  = ["[10:15:00] a"; "b"; ""]
  /\ split_lines
       (log_value "10:15:00"
          ("a" +:+ String carriage_return (String newline "b")) "")
     = ["[10:15:00] a"; "b"; ""].
Proof. split; vm_compute; reflexivity. Qed.

Lemma log_all_snoc (msgs : list string) (msg : string) (pg : Page) :
  log_all (msgs ++ [msg]) pg = log msg (log_all msgs pg).
Proof. unfold log_all. now rewrite fold_left_app. Qed.

(** Property X16. After any sequence of calls of [log] from the empty
    window, each with a time stamp and a message that have no line break
    (neither a line feed nor a carriage return, which the window returns as
    a line feed), the window shows the stamped lines of the calls, the
    newest first, and an empty last line, cut after 100 lines; the list that
    the pages of this development keep in [debugLog] is these lines without
    their time stamps. *)
Theorem debug_window_newest_first (calls : list (string * string)) :
  Forall (fun call => single_line (fst call) && single_line (snd call) = true)
    calls ->
  split_lines (log_values calls "")
  = take 100 (map (fun call => stamped (fst call) (snd call)) (rev calls) ++ [""])
  /\ debugLog (log_all (map snd calls) initial_page)
     = take 100 (map snd (rev calls)).
Proof.
  induction calls as [|[timestamp message] calls IH] using rev_ind; intros Hall.
  - split; reflexivity.
  - apply Forall_app in Hall as [Hcalls Hcall].
    inversion Hcall as [|? ? Hone _]; subst. cbn [fst snd] in Hone.
    apply andb_prop in Hone as [Ht Hm].
    destruct (IH Hcalls) as [IHtext IHpage].
    rewrite rev_app_distr. cbn [rev app map fst snd]. split.
    + unfold log_values. rewrite fold_left_app. cbn [fold_left fst snd].
      fold (log_values calls "").
      rewrite log_value_lines, IHtext
        by (try assumption; apply log_values_lacks).
      apply (take_cons_take 99).
    + rewrite map_app. cbn [map snd]. rewrite log_all_snoc.
      cbn [log debugLog]. rewrite IHpage. apply (take_cons_take 99).
Qed.

Lemma debug_window_newest_first_example :
  Forall (fun call => single_line (fst call) && single_line (snd call) = true)
    [("10:15:00", "Scan wird angefordert..."); ("10:15:02", "Scan aktiv.")]
  /\ split_lines
       (log_values
          [("10:15:00", "Scan wird angefordert..."); ("10:15:02", "Scan aktiv.")] "")
     = ["[10:15:02] Scan aktiv."; "[10:15:00] Scan wird angefordert..."; ""].
Proof.
  assert (H : Forall (fun call => single_line (fst call) && single_line (snd call) = true)
                [("10:15:00", "Scan wird angefordert..."); ("10:15:02", "Scan aktiv.")])
    by (repeat constructor).
  destruct (debug_window_newest_first _ H) as [Htext _].
  split; [exact H | exact Htext].
Defined.

(** ** The scan *)

Lemma scan_shown_act (bluetooth : bool) (filters : string)
    (handle : AdvertisementEvent -> Page -> Outcome unit * Page)
    (w : Window) (a : Action) :
  scan_shown w -> scan_shown (act bluetooth filters handle w a).
Proof.
  intros Hw. pose proof Hw as (Hstop & Hreq & Hwait & Hrun).
  destruct a as [|answer|stop|event]; cbn [act].
  - destruct (startDisabled w) eqn:Hstart; [assumption |].
    unfold startScan_request. destruct bluetooth; cbn [negb]; [| exact Hw].
    destruct (listening w) eqn:Hl;
      [destruct (Hrun eq_refl) as [H _]; discriminate H |].
    destruct (requested w) as [|[|n]] eqn:Hr;
      [| destruct (Hwait eq_refl) as [H _]; discriminate H | lia].
    unfold scan_shown. cbn. rewrite Hl, Hr.
    split; [assumption |]. split; [lia |]. split; [now split |]. discriminate.
  - destruct (requested w) as [|[|n]] eqn:Hr; [assumption | | lia].
    destruct (Hwait eq_refl) as [Hstart Hl].
    destruct answer as [scan | name message]; unfold scan_shown.
    + cbn. rewrite Hr. split; [reflexivity |]. split; [lia |].
      split; [discriminate |]. intros _. split; [assumption | now eexists].
    + assert (Hgoal : forall w', stopDisabled w' = stopDisabled w ->
                listening w' = listening w -> requested w' = requested w ->
                scan_shown {| page := page w'; bleScan := bleScan w';
                              startDisabled := false;
                              startText := startText w';
                              stopDisabled := stopDisabled w';
                              listening := listening w';
                              requested := pred (requested w') |}).
      { intros w' Hs' Hl' Hr'. unfold scan_shown. cbn.
        rewrite Hs', Hl', Hr', Hr, Hl. cbn.
        split; [now rewrite Hstop, Hl |]. split; [lia |].
        split; discriminate. }
      unfold startScan_resume.
      destruct (String.eqb name "NotFoundError"); now apply Hgoal.
  - destruct (stopDisabled w) eqn:Hs; [assumption |].
    unfold stopScan. destruct bluetooth; cbn [negb]; [| exact Hw].
    destruct (listening w) eqn:Hl; [| discriminate Hstop].
    assert (Hr : requested w = 0%nat).
    { destruct (requested w) as [|[|n]] eqn:Hr; [reflexivity | | lia].
      destruct (Hwait eq_refl) as [_ H]. discriminate H. }
    cbn [with_page bleScan page requested].
    destruct (bleScan w) as [scan|]; [destruct stop |]; cbn [snd];
      unfold scan_shown; cbn; rewrite Hr;
      (split; [reflexivity |]); (split; [lia |]); split; discriminate.
  - destruct (listening w) eqn:Hl; [| assumption].
    unfold scan_shown. cbn. now rewrite Hl.
Qed.

(** Property X17. The buttons show the state of the scan, whatever happens
    on the page (clicks, granted and refused requests, a [stop()] that
    raises, advertisements, with or without Web Bluetooth) and whatever the
    handler is: from a page where they do, every sequence of actions leads
    to a page where the stop button is enabled exactly while the listener is
    registered, the start button is disabled while a request waits or the
    listener is registered, and at most one request waits. *)
Theorem scan_shown_always (bluetooth : bool) (filters : string)
    (handle : AdvertisementEvent -> Page -> Outcome unit * Page)
    (actions : list Action) (w : Window) :
  scan_shown w -> scan_shown (acts bluetooth filters handle actions w).
Proof.
  revert w. induction actions as [|a actions IH]; intros w H; [assumption |].
  cbn [acts fold_left]. apply IH. now apply scan_shown_act.
Qed.

Lemma scan_shown_always_example :
  scan_shown loaded
  /\ scan_shown
       (acts true V3_filters V3.handleAdvertisement
          [ClickStart; Settle (Granted 1); Advertisement first_sight;
           ClickStop (Some "busy"); ClickStart; Settle (Refused "NotFoundError" "closed")]
          loaded).
Proof.
  assert (H : scan_shown loaded).
  { unfold scan_shown, loaded. cbn. repeat split; try lia; discriminate. }
  exact (conj H (scan_shown_always _ _ _ _ _ H)).
Defined.

Section Survival.

Variable classify : AdvertisementEvent -> Logged (option Beacon).
Variable handle : AdvertisementEvent -> Page -> Outcome unit * Page.
Hypothesis handle_grows : grows_by_first_sights classify handle.

Variable bluetooth : bool.
Variable filters : string.

Lemma records_act (w : Window) (a : Action) :
  discoveredDevices (page w)
  ⊆ discoveredDevices (page (act bluetooth filters handle w a)).
Proof.
  destruct a as [|answer|stop|event]; cbn [act].
  - destruct (startDisabled w); [reflexivity |].
    unfold startScan_request. now destruct bluetooth.
  - destruct (requested w); [reflexivity |].
    destruct answer as [scan | name message]; cbn; [reflexivity |].
    now destruct (String.eqb name "NotFoundError").
  - destruct (stopDisabled w); [reflexivity |].
    unfold stopScan. destruct bluetooth; cbn [negb]; [| reflexivity].
    cbn [with_page bleScan page].
    now destruct (bleScan w) as [scan|]; [destruct stop |].
  - destruct (listening w); [| reflexivity]. cbn [with_page page].
    apply handle_grows.
Qed.

Lemma records_acts (actions : list Action) (w : Window) :
  discoveredDevices (page w)
  ⊆ discoveredDevices (page (acts bluetooth filters handle actions w)).
Proof.
  revert w. induction actions as [|a actions IH]; intros w; [reflexivity |].
  cbn [acts fold_left]. etrans; [apply records_act | apply IH].
Qed.

End Survival.

(** Property X18. Nothing on the page removes or changes a record: after
    any sequence of clicks on the two buttons, ends of requests and
    advertisements, every record of [discoveredDevices] is still there as
    it was, in every revision. Stopping the scan and starting it again
    keeps the devices found so far. *)
Theorem records_survive_stop_and_start (bluetooth : bool)
    (actions : list Action) (w : Window) :
  discoveredDevices (page w)
  ⊆ discoveredDevices
      (page (acts bluetooth V1_filters V1.handleAdvertisement actions w))
  /\ discoveredDevices (page w)
     ⊆ discoveredDevices
         (page (acts bluetooth V2_filters V2.handleAdvertisement actions w))
  /\ discoveredDevices (page w)
     ⊆ discoveredDevices
         (page (acts bluetooth V3_filters V3.handleAdvertisement actions w)).
Proof.
  split; [| split].
  - apply (records_acts V1.classify), step_grows, V1_registry_step.
  - apply (records_acts V2.classify), step_grows, V2_registry_step.
  - apply (records_acts V3.classify), step_grows, V3_registry_step.
Qed.

(** Without Web Bluetooth and with the stop button enabled, a click on the
    stop button is all that has an effect: its line in the debug window. *)
Lemma stop_clicks_only_log (filters : string)
    (handle : AdvertisementEvent -> Page -> Outcome unit * Page)
    (actions : list Action) (w : Window) :
  startDisabled w = true -> stopDisabled w = false ->
  listening w = false -> requested w = 0%nat ->
  acts false filters handle actions w
  = with_page
      (log_all (repeat "Scan wird gestoppt..." (stop_clicks actions))) w.
Proof.
  revert w. induction actions as [|a actions IH]; intros w Hstart Hstop Hl Hr.
  - destruct w; reflexivity.
  - change (acts false filters handle (a :: actions) w)
      with (acts false filters handle actions (act false filters handle w a)).
    destruct a as [|answer|stop|event]; cbn [act stop_clicks].
    + rewrite Hstart. now apply IH.
    + rewrite Hr. now apply IH.
    + rewrite Hstop. unfold stopScan. cbn [negb snd].
      rewrite IH by assumption. reflexivity.
    + rewrite Hl. now apply IH.
Qed.

(** Property X20. A browser without Web Bluetooth. The statements at the
    end of the script disable the start button and leave the stop button as
    the document has it. [startScan] is then not reached from the buttons,
    and no end of a request and no advertisement changes anything. With the
    stop button disabled the page is inert: no sequence of actions changes
    anything, the debug window included. With the stop button enabled,
    [stopScan] is reached: it logs its first line and raises the
    [TypeError] of [navigator.bluetooth.removeEventListener] before it sets
    a button, so that every sequence of actions changes the debug window
    only, by that one line for each click on the stop button. *)
Theorem page_is_inert_without_bluetooth (filters : string)
    (handle : AdvertisementEvent -> Page -> Outcome unit * Page)
    (actions : list Action) (w : Window) :
  listening w = false ->
  requested w = 0%nat ->
  let w0 := initialise false w in
  startDisabled w0 = true
  /\ (stopDisabled w = true -> acts false filters handle actions w0 = w0)
  /\ (stopDisabled w = false ->
      (forall stop,
         stopScan false stop w0
         = (Throws TypeError, with_page (log "Scan wird gestoppt...") w0))
      /\ acts false filters handle actions w0
         = with_page
             (log_all (repeat "Scan wird gestoppt..." (stop_clicks actions)))
             w0).
Proof.
  intros Hl Hr w0. split; [reflexivity |]. split.
  - intros Hstop. unfold w0. clear w0.
    induction actions as [|a actions IH]; [reflexivity |].
    cbn [acts fold_left].
    replace (act false filters handle (initialise false w) a)
      with (initialise false w); [exact IH |].
    destruct a as [|answer|stop|event]; cbn [act initialise negb with_page
      startDisabled stopDisabled listening requested].
    + reflexivity.
    + now rewrite Hr.
    + now rewrite Hstop.
    + now rewrite Hl.
  - intros Hstop. split; [reflexivity |].
    now apply stop_clicks_only_log.
Qed.

(** A document whose stop button is enabled when the page is loaded. *)
Lemma page_is_inert_without_bluetooth_example :
  listening loaded = false
  /\ requested loaded = 0%nat
  /\ stopDisabled loaded = true
  /\ acts false V3_filters V3.handleAdvertisement
       [ClickStart; Advertisement first_sight; ClickStop None;
        Settle (Granted 1)]
       (initialise false loaded)
     = initialise false loaded
  /\ stopDisabled stop_enabled = false
  /\ stopScan false None (initialise false stop_enabled)
     = (Throws TypeError,
        with_page (log "Scan wird gestoppt...") (initialise false stop_enabled))
  /\ acts false V3_filters V3.handleAdvertisement
       [ClickStart; ClickStop None; Advertisement first_sight; ClickStop None]
       (initialise false stop_enabled)
     = with_page
         (log_all ["Scan wird gestoppt..."; "Scan wird gestoppt..."])
         (initialise false stop_enabled).
Proof.
  destruct (page_is_inert_without_bluetooth V3_filters V3.handleAdvertisement
              [ClickStart; Advertisement first_sight; ClickStop None;
               Settle (Granted 1)]
              loaded eq_refl eq_refl) as (_ & Hinert & _).
  destruct (page_is_inert_without_bluetooth V3_filters V3.handleAdvertisement
              [ClickStart; ClickStop None; Advertisement first_sight;
               ClickStop None]
              stop_enabled eq_refl eq_refl) as (_ & _ & Hstop).
  destruct (Hstop eq_refl) as [Hraise Hlog].
  split; [reflexivity |]. split; [reflexivity |]. split; [reflexivity |].
  split; [exact (Hinert eq_refl) |]. split; [reflexivity |].
  split; [exact (Hraise None) | exact Hlog].
Defined.

(** ** The URL in the markup of the card *)

Lemma expand_all_text (table : list string) (bs : list byte) :
  Forall (fun b => Z.of_nat (List.length table) <= u8 b) bs ->
  Spec.expand_all table bs = text_of bs.
Proof.
  induction 1 as [|b bs Hb _ IH]; [reflexivity |].
  cbn [Spec.expand_all]. rewrite expand_literal, IH by assumption. reflexivity.
Qed.

Lemma occurs_in_context (text before after : string) :
  occurs_in text (before +:+ text +:+ after).
Proof. now exists before, after. Qed.

Lemma occurs_in_app_l (text s t : string) :
  occurs_in text s -> occurs_in text (s +:+ t).
Proof.
  intros (before & after & ->). exists before, (after +:+ t).
  now rewrite !append_assoc.
Qed.

Lemma occurs_in_app_r (text s t : string) :
  occurs_in text t -> occurs_in text (s +:+ t).
Proof.
  intros (before & after & ->). exists (s +:+ before), after.
  now rewrite !append_assoc.
Qed.

Lemma occurs_in_head2 (a b rest : string) :
  occurs_in (a +:+ b) (a +:+ b +:+ rest).
Proof. exists "", rest. now rewrite append_assoc. Qed.

Lemma occurs_in_head3 (a b c rest : string) :
  occurs_in (a +:+ b +:+ c) (a +:+ b +:+ c +:+ rest).
Proof. exists "", rest. now rewrite !append_assoc. Qed.

(** Property X19. The text of a URL frame reaches the markup of the card as
    it is. For a frame whose bytes from offset 3 on are no expansion codes
    (14 or more), revisions 2 and 3 decode the URL as the scheme followed by
    the characters with the codes of those bytes, and the markup that
    [createBeaconCard] assigns to [innerHTML] contains that URL twice,
    unchanged: as the value of the [href] attribute and as the text of the
    link. No character is escaped. *)
Theorem url_text_reaches_markup (tx scheme : byte) (rest : list byte)
    (rssi : Z) (deviceId : string) :
  rest <> [] ->
  Forall (fun b => 14 <= u8 b) rest ->
  let url := Spec.scheme (u8 scheme) +:+ text_of rest in
  let card := Markup.createBeaconCard (EddystoneURL url) rssi deviceId in
  V2.parseEddystone (view_of (x10 :: tx :: scheme :: rest))
    = ret (Some (EddystoneURL url))
  /\ V3.parseEddystone (view_of (x10 :: tx :: scheme :: rest))
    = ret (Some (EddystoneURL url))
  /\ occurs_in ("<a " +:+ attr "href" url) (Markup.innerHTML card)
  /\ occurs_in (">" +:+ url +:+ "</a>") (Markup.innerHTML card).
Proof.
  intros Hne Hlit. cbv zeta.
  set (data := view_of (x10 :: tx :: scheme :: rest)).
  assert (Hok : view_ok data) by (unfold view_ok; simpl; lia).
  assert (Hlen : (4 <= byteLength data)%nat)
    by (destruct rest; [contradiction | simpl; lia]).
  assert (Hwhole : view_bytes (dv_of data) = x10 :: tx :: scheme :: rest).
  { rewrite dv_bytes_whole by (assumption || (simpl; lia)).
    unfold view_bytes. simpl. now rewrite firstn_all. }
  assert (Hne0 : byteLength (dv_of data) <> 0%nat)
    by (pose proof (dv_length data Hok); lia).
  assert (Hurl : forall table, List.length table = 14%nat ->
            URL_of table (view_bytes (dv_of data))
            = EddystoneURL (Spec.scheme (u8 scheme) +:+ text_of rest)).
  { intros table Htable. unfold URL_of. rewrite Hwhole.
    cbn [drop]. change (Spec.byte_at (x10 :: tx :: scheme :: rest) 2) with (u8 scheme).
    rewrite expand_all_text; [reflexivity |]. now rewrite Htable. }
  split; [| split; [| split]].
  - rewrite V2_parseEddystone_frame by assumption. cbv zeta.
    rewrite Hurl by reflexivity. rewrite Hwhole.
    change (Spec.byte_at (x10 :: tx :: scheme :: rest) 0) with 16.
    cbn [Z.eqb Pos.eqb].
    now destruct (Nat.ltb_spec (byteLength data) 4); [lia |].
  - rewrite V3_parseEddystone_frame by assumption. cbv zeta.
    rewrite Hurl by reflexivity. rewrite Hwhole.
    change (Spec.byte_at (x10 :: tx :: scheme :: rest) 0) with 16.
    cbn [Z.eqb Pos.eqb].
    now destruct (Nat.ltb_spec (byteLength data) 4); [lia |].
  - generalize (Spec.scheme (u8 scheme) +:+ text_of rest). intros url.
    unfold Markup.createBeaconCard, Markup.card_parts, line.
    cbn [Markup.innerHTML]. rewrite !append_assoc.
    repeat first [apply occurs_in_head2 | apply occurs_in_app_r].
  - generalize (Spec.scheme (u8 scheme) +:+ text_of rest). intros url.
    unfold Markup.createBeaconCard, Markup.card_parts, line.
    cbn [Markup.innerHTML]. rewrite !append_assoc.
    repeat first [apply occurs_in_head3 | apply occurs_in_app_r].
Qed.

Lemma url_text_reaches_markup_example :
  markup_bytes <> []
  /\ Forall (fun b => 14 <= u8 b) markup_bytes
  /\ V3.parseEddystone (view_of (x10 :: x00 :: xff :: markup_bytes))
     = ret (Some (EddystoneURL (text_of markup_bytes)))
  /\ text_of markup_bytes = quote +:+ "><b>"
  /\ occurs_in ("<a href=" +:+ quote +:+ quote +:+ "><b>" +:+ quote)
       (Markup.innerHTML
          (Markup.createBeaconCard (EddystoneURL (text_of markup_bytes))
             (-70) "device-F")).
Proof.
  assert (Hne : markup_bytes <> []) by discriminate.
  assert (Hlit : Forall (fun b => 14 <= u8 b) markup_bytes)
    by (repeat constructor; vm_compute; discriminate).
  destruct (url_text_reaches_markup x00 xff markup_bytes (-70) "device-F" Hne Hlit)
    as (_ & H3 & Hhref & _).
  split; [exact Hne |]. split; [exact Hlit |]. split; [exact H3 |].
  split; [reflexivity | exact Hhref].
Defined.
